(** * OpenMemory resilient memory gateway: a shallow embedding

    The development follows two source files of the OpenMemory API server:

    - [app/utils/memory.py]: [LLMResponseInterceptor.fix_llm_response] and
      [ResilientMemoryClient];
    - [app/mcp_server_optimized.py]: [log_memory_access],
      [filter_accessible_memories], the MCP tools and [handle_sse].

    Python values are modelled as a small JSON-like datatype, Python strings as
    lists of Unicode code points, exceptions as a class tag with a message,
    and effectful code by explicit state passing with an outcome that is
    either a returned value or a raised exception. *)

From Stdlib Require Import ZArith NArith String Ascii Lia Bool List DecimalString.
From stdpp Require Import base list gmap.
Import ListNotations.
Set Warnings "-register-all".
Open Scope N_scope.

(** ** Python strings *)

Module PyStr.

(** A character is a Unicode code point, a [str] a sequence of them. *)
Definition char := N.
Definition str := list char.

(** An ASCII literal. *)
Definition py (s : string) : str := map N_of_ascii (list_ascii_of_string s).

(** An ASCII literal in which every apostrophe stands for a double quote. *)
Definition pyq (s : string) : str :=
  map (fun c => if c =? 39 then 34 else c) (py s).

Arguments py s%_string.
Arguments pyq s%_string.

Definition str_eqb (a b : str) : bool := bool_decide (a = b).

(** [str.isspace] for one character: the code points Python strips. *)
Definition isspace (c : char) : bool :=
  ((9 <=? c) && (c <=? 13)) || ((28 <=? c) && (c <=? 32))
  || (c =? 133) || (c =? 160) || (c =? 5760)
  || ((8192 <=? c) && (c <=? 8202))
  || (c =? 8232) || (c =? 8233) || (c =? 8239) || (c =? 8287) || (c =? 12288).

Fixpoint lstrip (s : str) : str :=
  match s with
  | c :: t => if isspace c then lstrip t else s
  | [] => []
  end.

Definition rstrip (s : str) : str := rev (lstrip (rev s)).

(** A text made of white space only, the empty text included. *)
Definition blank (s : str) : Prop := Forall (fun c => isspace c = true) s.

(** [s.strip()] *)
Definition strip (s : str) : str := rstrip (lstrip s).

(** [s.startswith(p)] *)
Fixpoint startswith (p s : str) : bool :=
  match p, s with
  | [], _ => true
  | a :: p', b :: s' => (a =? b) && startswith p' s'
  | _ :: _, [] => false
  end.

(** [s.endswith(p)] *)
Definition endswith (p s : str) : bool := startswith (rev p) (rev s).

(** [needle in hay] *)
Fixpoint contains (needle hay : str) : bool :=
  startswith needle hay ||
  match hay with
  | [] => false
  | _ :: t => contains needle t
  end.

(** [s.replace(c, new)] for a one-character pattern [c]. *)
Definition replace_char (c : char) (new : str) (s : str) : str :=
  flat_map (fun x => if x =? c then new else [x]) s.

(** [str(n)] for a non-negative integer. *)
Definition str_of_nat (n : nat) : str :=
  py (NilZero.string_of_uint (Nat.to_uint n)).

End PyStr.
Export PyStr.

(** ** Python values and exceptions *)

Module PyVal.

(** JSON-like Python data.  A [dict] keeps its insertion order and has
    string keys; a float is kept as the numeral it was read from. *)
Inductive value : Type :=
| VNone
| VBool (b : bool)
| VInt (z : Z)
| VFloat (lexeme : str)
| VStr (s : str)
| VList (items : list value)
| VDict (entries : list (str * value)).

Definition dict := list (str * value).

Fixpoint dict_get (k : str) (d : dict) : option value :=
  match d with
  | [] => None
  | (k', v) :: d' => if str_eqb k k' then Some v else dict_get k d'
  end.

(** [k in d] *)
Definition dict_has (k : str) (d : dict) : bool :=
  match dict_get k d with Some _ => true | None => false end.

(** [d[k] = v]: an existing key keeps its place. *)
Fixpoint dict_set (k : str) (v : value) (d : dict) : dict :=
  match d with
  | [] => [(k, v)]
  | (k', v') :: d' =>
      if str_eqb k k' then (k, v) :: d' else (k', v') :: dict_set k v d'
  end.

(** [d.update(e)], also [{**d, **e}]. *)
Definition dict_update (d e : dict) : dict :=
  fold_left (fun acc kv => dict_set (fst kv) (snd kv) acc) e d.

(** [list(d.keys())] *)
Definition dict_keys (d : dict) : list str := map fst d.

(** Digits of a decimal numeral, most significant first. *)
Definition is_digit (c : char) : bool := (48 <=? c) && (c <=? 57).

Definition digits_value (ds : str) : N :=
  fold_left (fun acc c => 10 * acc + (c - 48)) ds 0.

Fixpoint span_digits (s : str) : str * str :=
  match s with
  | c :: t =>
      if is_digit c then let '(ds, r) := span_digits t in (c :: ds, r)
      else ([], s)
  | [] => ([], [])
  end.

(** Whether the numeral of a float rounds to zero: the decimal
    [D * 10^E] is at most [2^-1075], half the least subnormal double.
    Anything that is not a decimal numeral (NaN, the infinities) is not
    zero. *)
Definition float_is_zero (lexeme : str) : bool :=
  let s0 := match lexeme with 45 :: t => t | _ => lexeme end in
  let '(ip, r1) := span_digits s0 in
  let '(fp, r2) :=
    match r1 with
    | 46 :: t => span_digits t
    | _ => ([], r1)
    end in
  let '(ex, r3) :=
    match r2 with
    | e :: t =>
        if (e =? 101) || (e =? 69) then
          match t with
          | 45 :: t' => let '(ds, r) := span_digits t' in
                        ((- Z.of_N (digits_value ds))%Z, r)
          | 43 :: t' => let '(ds, r) := span_digits t' in
                        (Z.of_N (digits_value ds), r)
          | _ => let '(ds, r) := span_digits t in
                 (Z.of_N (digits_value ds), r)
          end
        else (0%Z, r2)
    | [] => (0%Z, r2)
    end in
  match ip, r3 with
  | _ :: _, [] =>
      let D := Z.of_N (digits_value (ip ++ fp)) in
      let E := (ex - Z.of_nat (length fp))%Z in
      (D =? 0)%Z || ((E <? 0)%Z && (D * 2 ^ 1075 <=? 10 ^ (- E))%Z)
  | _, _ => false
  end.

(** [bool(v)] *)
Definition py_truthy (v : value) : bool :=
  match v with
  | VNone => false
  | VBool b => b
  | VInt z => negb (z =? 0)%Z
  | VFloat lx => negb (float_is_zero lx)
  | VStr s => match s with [] => false | _ => true end
  | VList l => match l with [] => false | _ => true end
  | VDict d => match d with [] => false | _ => true end
  end.

(** Exception classes that the code raises or names in an [except]
    clause.  [JSONDecodeError] is a subclass of [ValueError];
    [CancelledError] derives from [BaseException] only. *)
Inductive exc_class : Type :=
| PyException
| ValueError
| JSONDecodeError
| TypeError
| AttributeError
| RuntimeError
| IntegrityError
| OtherException (name : str)
| CancelledError.

Record exc : Type := mk_exc { exc_cls : exc_class; exc_msg : str }.

(** [isinstance(e, Exception)] *)
Definition is_Exception (e : exc) : bool :=
  match exc_cls e with CancelledError => false | _ => true end.

(** [isinstance(e, ValueError)] *)
Definition is_ValueError (e : exc) : bool :=
  match exc_cls e with ValueError | JSONDecodeError => true | _ => false end.

(** [isinstance(e, RuntimeError)] *)
Definition is_RuntimeError (e : exc) : bool :=
  match exc_cls e with RuntimeError => true | _ => false end.

(** [isinstance(e, IntegrityError)] *)
Definition is_IntegrityError (e : exc) : bool :=
  match exc_cls e with IntegrityError => true | _ => false end.

(** The outcome of a call: a value or a raised exception. *)
Inductive res (A : Type) : Type :=
| Ok (a : A)
| Raise (e : exc).
Arguments Ok {A} a.
Arguments Raise {A} e.

End PyVal.
Export PyVal.

(** ** [json.loads]

    The decoder of the standard library, as its scanner reads a document:
    JSON white space is space, tab, line feed and carriage return; strings
    are read in strict mode; the constants [NaN], [Infinity] and
    [-Infinity] are accepted.  An integer numeral longer than the
    interpreter's limit on decimal conversion makes the decoder raise a
    plain [ValueError] as soon as the numeral is read.  The interpreter's
    recursion limit is not modelled. *)

Module Json.

(** What scanning a prefix of the input gives: a result and the rest of
    the input, a [JSONDecodeError], or the [ValueError] of an integer
    numeral with too many digits. *)
Inductive scan (A : Type) : Type :=
| Got (a : A) (rest : str)
| Malformed
| DigitLimit (digits : nat).
Arguments Got {A} a rest.
Arguments Malformed {A}.
Arguments DigitLimit {A} digits.

(** [sys.get_int_max_str_digits()], at its default. *)
Definition int_max_str_digits : nat := 4300.

Definition is_ws (c : char) : bool :=
  (c =? 32) || (c =? 9) || (c =? 10) || (c =? 13).

Fixpoint skip_ws (s : str) : str :=
  match s with
  | c :: t => if is_ws c then skip_ws t else s
  | [] => []
  end.

Definition hexval (c : char) : option N :=
  if (48 <=? c) && (c <=? 57) then Some (c - 48)
  else if (97 <=? c) && (c <=? 102) then Some (c - 87)
  else if (65 <=? c) && (c <=? 70) then Some (c - 55)
  else None.

Definition hex4 (a b c d : char) : option N :=
  match hexval a, hexval b, hexval c, hexval d with
  | Some x, Some y, Some z, Some w => Some (((x * 16 + y) * 16 + z) * 16 + w)
  | _, _, _, _ => None
  end.

Definition is_high_surrogate (u : N) : bool := (55296 <=? u) && (u <=? 56319).
Definition is_low_surrogate (u : N) : bool := (56320 <=? u) && (u <=? 57343).
Definition join_surrogates (hi lo : N) : N :=
  65536 + ((hi - 55296) * 1024 + (lo - 56320)).

(** The character a one-letter escape stands for. *)
Definition unescape (e : char) : option char :=
  if e =? 34 then Some 34
  else if e =? 92 then Some 92
  else if e =? 47 then Some 47
  else if e =? 98 then Some 8
  else if e =? 102 then Some 12
  else if e =? 110 then Some 10
  else if e =? 114 then Some 13
  else if e =? 116 then Some 9
  else None.

(** The body of a string, after its opening quote; [acc] holds the
    characters decoded so far, last first. *)
Fixpoint scanstring (s : str) (acc : str) : scan str :=
  match s with
  | [] => Malformed
  | c :: t =>
      if c =? 34 then Got (rev acc) t
      else if c =? 92 then
        match t with
        | [] => Malformed
        | e :: t1 =>
            if e =? 117 then
              match t1 with
              | h1 :: h2 :: h3 :: h4 :: t2 =>
                  match hex4 h1 h2 h3 h4 with
                  | None => Malformed
                  | Some u =>
                      if is_high_surrogate u then
                        match t2 with
                        | b :: u' :: l1 :: l2 :: l3 :: l4 :: t3 =>
                            if (b =? 92) && (u' =? 117) then
                              match hex4 l1 l2 l3 l4 with
                              | None => Malformed
                              | Some lo =>
                                  if is_low_surrogate lo
                                  then scanstring t3 (join_surrogates u lo :: acc)
                                  else scanstring t2 (u :: acc)
                              end
                            else scanstring t2 (u :: acc)
                        | _ => scanstring t2 (u :: acc)
                        end
                      else scanstring t2 (u :: acc)
                  end
              | _ => Malformed
              end
            else
              match unescape e with
              | Some x => scanstring t1 (x :: acc)
              | None => Malformed
              end
        end
      else if c <=? 31 then Malformed
      else scanstring t (c :: acc)
  end.

(** The parts of a number, each with what follows it: an optional minus
    sign, a fraction only if a digit follows the point, an exponent only
    if it has a digit. *)
Definition take_sign (s : str) : str * str :=
  match s with
  | c :: t => if c =? 45 then ([c], t) else ([], s)
  | [] => ([], s)
  end.

Definition take_fraction (s : str) : str * str :=
  match s with
  | p :: f :: t =>
      if (p =? 46) && is_digit f
      then let '(ds, r) := span_digits t in (p :: f :: ds, r)
      else ([], s)
  | _ => ([], s)
  end.

Definition take_exponent (s : str) : str * str :=
  match s with
  | e :: t =>
      if (e =? 101) || (e =? 69) then
        let '(sg, t') := match t with
                         | x :: y =>
                             if (x =? 45) || (x =? 43) then ([x], y)
                             else ([], t)
                         | [] => ([], t)
                         end in
        match span_digits t' with
        | ([], _) => ([], s)
        | (ds, r) => (e :: sg ++ ds, r)
        end
      else ([], s)
  | [] => ([], s)
  end.

(** A number.  An integer numeral with more digits than the limit
    raises; a numeral with a fraction or an exponent is a float. *)
Definition match_number (s : str) : scan value :=
  let '(sign, s1) := take_sign s in
  match s1 with
  | [] => Malformed
  | d :: t =>
      if negb (is_digit d) then Malformed
      else
        let '(ip, r1) := if d =? 48 then ([d], t)
                         else let '(ds, r) := span_digits t in (d :: ds, r) in
        let '(fp, r2) := take_fraction r1 in
        let '(ep, r3) := take_exponent r2 in
        match fp, ep with
        | [], [] =>
            if Nat.ltb int_max_str_digits (length ip) then DigitLimit (length ip)
            else
              let n := Z.of_N (digits_value ip) in
              Got (VInt (match sign with [] => n | _ => (- n)%Z end)) r3
        | _, _ => Got (VFloat (sign ++ ip ++ fp ++ ep)) r3
        end
  end.

(** The constants and numbers. *)
Definition scan_atom (s : str) : scan value :=
  if startswith (py "null") s then Got VNone (drop 4 s)
  else if startswith (py "true") s then Got (VBool true) (drop 4 s)
  else if startswith (py "false") s then Got (VBool false) (drop 5 s)
  else if startswith (py "NaN") s then Got (VFloat (py "NaN")) (drop 3 s)
  else if startswith (py "Infinity") s then Got (VFloat (py "Infinity")) (drop 8 s)
  else if startswith (py "-Infinity") s then Got (VFloat (py "-Infinity")) (drop 9 s)
  else match_number s.

(** One JSON term at the head of [s]; [parse_pairs] and [parse_items]
    read the members of a non-empty object or array, after the opening
    bracket and the white space that follows it.  The first argument
    bounds the number of nested calls; twice the length of the input is
    more than any run needs. *)
Fixpoint scan_once (n : nat) (s : str) {struct n} : scan value :=
  match n with
  | O => Malformed
  | S m =>
      match s with
      | [] => Malformed
      | c :: t =>
          if c =? 34 then
            match scanstring t [] with
            | Got x r => Got (VStr x) r
            | Malformed => Malformed
            | DigitLimit k => DigitLimit k
            end
          else if c =? 123 then
            match skip_ws t with
            | c' :: r => if c' =? 125 then Got (VDict []) r
                         else parse_pairs m (c' :: r) []
            | [] => Malformed
            end
          else if c =? 91 then
            match skip_ws t with
            | c' :: r => if c' =? 93 then Got (VList []) r
                         else parse_items m (c' :: r) []
            | [] => Malformed
            end
          else scan_atom s
      end
  end
with parse_pairs (n : nat) (s : str) (acc : dict) {struct n} : scan value :=
  match n with
  | O => Malformed
  | S m =>
      match s with
      | [] => Malformed
      | q :: t =>
          if negb (q =? 34) then Malformed
          else
            match scanstring t [] with
            | Got k r =>
                match skip_ws r with
                | [] => Malformed
                | colon :: r1 =>
                    if negb (colon =? 58) then Malformed
                    else
                      match scan_once m (skip_ws r1) with
                      | Got v r2 =>
                          let acc' := dict_set k v acc in
                          match skip_ws r2 with
                          | [] => Malformed
                          | x :: r3 =>
                              if x =? 125 then Got (VDict acc') r3
                              else if x =? 44 then parse_pairs m (skip_ws r3) acc'
                              else Malformed
                          end
                      | Malformed => Malformed
                      | DigitLimit d => DigitLimit d
                      end
                end
            | Malformed => Malformed
            | DigitLimit d => DigitLimit d
            end
      end
  end
with parse_items (n : nat) (s : str) (acc : list value) {struct n} : scan value :=
  match n with
  | O => Malformed
  | S m =>
      match scan_once m s with
      | Got v r =>
          match skip_ws r with
          | [] => Malformed
          | x :: r1 =>
              if x =? 93 then Got (VList (rev (v :: acc))) r1
              else if x =? 44 then parse_items m (skip_ws r1) (v :: acc)
              else Malformed
          end
      | Malformed => Malformed
      | DigitLimit d => DigitLimit d
      end
  end.

(** What [json.loads(s)] does. *)
Inductive loaded : Type :=
| Parsed (v : value)
| DecodeError
| IntLimitError (digits : nat).

(** [json.loads(s)] *)
Definition loads (s : str) : loaded :=
  match scan_once (2 * length s + 2) (skip_ws s) with
  | Got v r => match skip_ws r with
               | [] => Parsed v
               | _ :: _ => DecodeError
               end
  | Malformed => DecodeError
  | DigitLimit d => IntLimitError d
  end.

(** [str(e)] of the [ValueError] raised for an over-long integer. *)
Definition int_limit_message (digits : nat) : str :=
  py "Exceeds the limit (" ++ str_of_nat int_max_str_digits
  ++ py " digits) for integer string conversion: value has "
  ++ str_of_nat digits
  ++ py " digits; use sys.set_int_max_str_digits() to increase the limit".

(** What is left after a successful scan is shorter than the input. *)
Definition shorter {A} (r : scan A) (s : str) : Prop :=
  match r with
  | Got _ rest => (length rest < length s)%nat
  | _ => True
  end.

End Json.

(** ** [LLMResponseInterceptor] *)

Module LLMResponseInterceptor.

(** The canonical empty result. *)
Definition empty_facts : str := pyq "{'facts': []}".

(** Removal of the Markdown code-fence markers. *)
Definition strip_fences (response_text : str) : str :=
  let t := response_text in
  let t := if startswith (py "```json") t then drop 7 t else t in
  let t := if startswith (py "```") t then drop 3 t else t in
  let t := if endswith (py "```") t then take (length t - 3) t else t in
  t.

(** The text the handler of the first parse failure tries next. *)
Definition wrap_as_facts (response_text : str) : str :=
  if negb (startswith (py "{") response_text) then
    if startswith (py "[") response_text
    then pyq "{'facts': " ++ response_text ++ py "}"
    else
      let escaped_text := replace_char 34 [92; 34] response_text in
      pyq "{'facts': ['" ++ escaped_text ++ pyq "']}"
  else response_text.

(** [fix_llm_response(response_text)].  The first [try] catches
    [json.JSONDecodeError] only; the second catches everything. *)
Definition fix_llm_response (response_text : str) : res str :=
  if negb (py_truthy (VStr response_text))
     || negb (py_truthy (VStr (strip response_text)))
  then Ok empty_facts
  else
    let response_text := strip response_text in
    let response_text := strip_fences response_text in
    let response_text := strip response_text in
    if negb (py_truthy (VStr response_text)) then Ok empty_facts
    else
      match Json.loads response_text with
      | Json.Parsed _ => Ok response_text
      | Json.IntLimitError d =>
          Raise (mk_exc ValueError (Json.int_limit_message d))
      | Json.DecodeError =>
          let response_text := wrap_as_facts response_text in
          match Json.loads response_text with
          | Json.Parsed _ => Ok response_text
          | _ => Ok empty_facts
          end
      end.

(** [fix_llm_response] on whatever the LLM client returned: a value
    that counts as false gives the canonical result, and [strip] exists
    on strings only. *)
Definition fix_llm_response_any (response : value) : res str :=
  match response with
  | VStr s => fix_llm_response s
  | _ =>
      if py_truthy response
      then Raise (mk_exc AttributeError (py "object has no attribute 'strip'"))
      else Ok empty_facts
  end.

(** [patched_generate_response], the wrapper that
    [ResilientMemoryClient._patch_llm_generate_response] installs around
    the LLM client's [generate_response]; [original] is the outcome of
    the wrapped call. *)
Definition patched_generate_response (original : res value) : res str :=
  match original with
  | Ok response =>
      match fix_llm_response_any response with
      | Ok fixed_response => Ok fixed_response
      | Raise e => if is_Exception e then Ok empty_facts else Raise e
      end
  | Raise e => if is_Exception e then Ok empty_facts else Raise e
  end.

End LLMResponseInterceptor.

(** ** Effects: state passing with exceptions *)

Module Eff.

(** A computation over a state [S]: it yields a value or raises, and in
    both cases leaves a state behind. *)
Definition M (S A : Type) : Type := S -> res A * S.

Definition ret {S A} (a : A) : M S A := fun s => (Ok a, s).

Definition raise {S A} (e : exc) : M S A := fun s => (Raise e, s).

Definition bind {S A B} (c : M S A) (k : A -> M S B) : M S B :=
  fun s =>
    match c s with
    | (Ok a, s') => k a s'
    | (Raise e, s') => (Raise e, s')
    end.

(** [try: c  except BaseException as e: h e]; a handler re-raises what
    its [except] clause does not name. *)
Definition catch {S A} (c : M S A) (h : exc -> M S A) : M S A :=
  fun s =>
    match c s with
    | (Ok a, s') => (Ok a, s')
    | (Raise e, s') => h e s'
    end.

(** [try: c  except Exception as e: h e] *)
Definition except_Exception {S A} (c : M S A) (h : exc -> M S A) : M S A :=
  catch c (fun e => if is_Exception e then h e else raise e).

(** [try: c  except ValueError: h] *)
Definition except_ValueError {S A} (c : M S A) (h : M S A) : M S A :=
  catch c (fun e => if is_ValueError e then h else raise e).

(** [try: c  finally: f] *)
Definition finally {S A} (c : M S A) (f : M S unit) : M S A :=
  fun s =>
    match c s with
    | (r, s') =>
        match f s' with
        | (Ok _, s'') => (r, s'')
        | (Raise e, s'') => (Raise e, s'')
        end
    end.

Definition get {S} : M S S := fun s => (Ok s, s).
Definition put {S} (s : S) : M S unit := fun _ => (Ok tt, s).
Definition modify {S} (f : S -> S) : M S unit := fun s => (Ok tt, f s).

(** Lifting of a pure outcome. *)
Definition lift {S A} (r : res A) : M S A := fun s => (r, s).

End Eff.
Export Eff.

Declare Scope eff_scope.
Delimit Scope eff_scope with eff.
Notation "x <- c ;; k" := (bind c (fun x => k))
  (at level 100, c at next level, right associativity) : eff_scope.
Notation "c ;;; k" := (bind c (fun _ => k))
  (at level 100, right associativity) : eff_scope.
Open Scope eff_scope.

(** ** [ResilientMemoryClient] *)

Module ResilientMemoryClient.

(** A call on the wrapped Mem0 client: a method name, the positional
    arguments and the keyword arguments. *)
Record call : Type := mk_call {
  call_method : str;
  call_args : list value;
  call_kwargs : dict
}.

(** The wrapped client.  What a call gives may depend on the calls made
    before it. *)
Definition backend : Type := list call -> call -> res value.

(** The state threaded through the wrapper is the trace of backend
    calls, oldest first. *)
Definition invoke (B : backend) (c : call) : M (list call) value :=
  fun tr => (B tr c, tr ++ [c]).

Definition empty_relations : value :=
  VDict [(py "added_entities", VList []); (py "deleted_entities", VList [])].

(** The two [if ... not in result] assignments. *)
Definition ensure_structure (result : dict) : dict :=
  let result :=
    if negb (dict_has (py "results") result)
    then dict_set (py "results") (VList []) result else result in
  let result :=
    if negb (dict_has (py "relations") result)
    then dict_set (py "relations") empty_relations result else result in
  result.

Definition json_error_keywords : list str :=
  [ py "Expecting value"; py "JSON"; py "line 1 column 1";
    py "Unterminated string"; py "Invalid control character"; py "json" ].

(** [any(keyword in error_msg for keyword in [...])] *)
Definition is_json_error (error_msg : str) : bool :=
  existsb (fun keyword => contains keyword error_msg) json_error_keywords.

Record strategy : Type := mk_strategy {
  params : dict;
  text_modifier : option (str -> str);
  description : str
}.

(** [type(v).__name__] *)
Definition type_name (v : value) : str :=
  match v with
  | VNone => py "NoneType"
  | VBool _ => py "bool"
  | VInt _ => py "int"
  | VFloat _ => py "float"
  | VStr _ => py "str"
  | VList _ => py "list"
  | VDict _ => py "dict"
  end.

(** [{**v}]: only a mapping can be unpacked. *)
Definition unpack_mapping (v : value) : res dict :=
  match v with
  | VDict d => Ok d
  | _ => Raise (mk_exc TypeError
                  (py "'" ++ type_name v ++ py "' object is not a mapping"))
  end.

(** [lambda t: t.strip()[:200] if len(t) > 200 else t.strip()] *)
Definition simplify_text (t : str) : str :=
  if Nat.ltb 200 (length t) then take 200 (strip t) else strip t.

(** The list [fallback_strategies], built before the loop starts. *)
Definition fallback_strategies (kwargs : dict) : res (list strategy) :=
  let metadata := match dict_get (py "metadata") kwargs with
                  | Some v => v
                  | None => VDict []
                  end in
  match unpack_mapping metadata with
  | Raise e => Raise e
  | Ok md =>
      Ok [ mk_strategy [(py "infer", VBool false)] None
             (py "without inference (direct storage)");
           mk_strategy
             [(py "metadata",
               VDict [(py "source", VStr (py "resilient_fallback"))])]
             None (py "with minimal metadata");
           mk_strategy
             [(py "infer", VBool true);
              (py "metadata",
               VDict (dict_set (py "retry_attempt") (VBool true) md))]
             None (py "with retry flag");
           mk_strategy [(py "infer", VBool true)] (Some simplify_text)
             (py "with simplified text") ]
  end.

Definition add_call (text : str) (kwargs : dict) : call :=
  mk_call (py "add") [VStr text] kwargs.

(** One round of the loop over the strategies. *)
Definition fallback_call (text : str) (kwargs : dict) (st : strategy) : call :=
  let fallback_kwargs := dict_update kwargs (params st) in
  let fallback_text := match text_modifier st with
                       | Some f => f text
                       | None => text
                       end in
  add_call fallback_text fallback_kwargs.

(** [for i, strategy in enumerate(fallback_strategies, 1)]: [Some r] when
    a round returns [r], [None] when the loop runs to its end. *)
Fixpoint try_strategies (B : backend) (text : str) (kwargs : dict)
    (sts : list strategy) : M (list call) (option value) :=
  match sts with
  | [] => ret None
  | st :: rest =>
      r <- except_Exception
             (fallback_result <- invoke B (fallback_call text kwargs st) ;;
              match fallback_result with
              | VDict d =>
                  if py_truthy fallback_result
                  then ret (Some (VDict (ensure_structure d)))
                  else ret None
              | _ => ret None
              end)
             (fun fallback_error => ret None) ;;
      match r with
      | Some v => ret (Some v)
      | None => try_strategies B text kwargs rest
      end
  end.

Definition emergency_call (text : str) (kwargs : dict) : call :=
  mk_call (py "add") [VStr text]
    [ (py "user_id", match dict_get (py "user_id") kwargs with
                     | Some v => v
                     | None => VNone
                     end);
      (py "infer", VBool false);
      (py "metadata",
       VDict [ (py "emergency_storage", VBool true);
               (py "original_text", VStr (take 100 text)) ]) ].

(** The value returned when every strategy has failed. *)
Definition exhausted_result (text : str) (kwargs : dict) : value :=
  VDict [ (py "results", VList []);
          (py "relations", empty_relations);
          (py "diagnostic",
           VDict [ (py "all_strategies_failed", VBool true);
                   (py "original_text_length",
                    VInt (Z.of_nat (length text)));
                   (py "kwargs_keys",
                    VList (map VStr (dict_keys kwargs))) ]) ].

(** What the first [try] block leaves: a value to return, or the
    decision to go on to the fallback strategies. *)
Inductive direct_outcome : Type :=
| Return (v : value)
| Fallback.

(** Strategy 1 with its handler. *)
Definition direct_attempt (B : backend) (text : str) (kwargs : dict)
    : M (list call) direct_outcome :=
  except_Exception
    (result <- invoke B (add_call text kwargs) ;;
     match result with
     | VDict d => ret (Return (VDict (ensure_structure d)))
     | VNone => raise (mk_exc PyException (py "Memory client returned None"))
     | _ => ret (Return result)
     end)
    (fun e =>
       let error_msg := exc_msg e in
       if is_json_error error_msg then ret Fallback else raise e).

(** [ResilientMemoryClient.add(text, **kwargs)] *)
Definition add (B : backend) (text : str) (kwargs : dict)
    : M (list call) value :=
  d <- direct_attempt B text kwargs ;;
  match d with
  | Return v => ret v
  | Fallback =>
      sts <- lift (fallback_strategies kwargs) ;;
      r <- try_strategies B text kwargs sts ;;
      match r with
      | Some v => ret v
      | None =>
          final <- except_Exception
                     (final_result <- invoke B (emergency_call text kwargs) ;;
                      if py_truthy final_result
                      then ret (Some final_result) else ret None)
                     (fun final_error => ret None) ;;
          match final with
          | Some v => ret v
          | None => ret (exhausted_result text kwargs)
          end
      end
  end.






(** A call that fails: it raises an [Exception] or gives a reply that
    counts as false. *)
Definition failed (r : res value) : bool :=
  match r with
  | Raise e => is_Exception e
  | Ok v => negb (py_truthy v)
  end.


End ResilientMemoryClient.

(** ** The MCP server: data, store and helpers *)

Module Server.

Import ResilientMemoryClient.

(** A UUID is its 128-bit integer. *)
Definition UUID := N.

Inductive MemoryState : Type := active | paused | deleted.

(** Modelled from the spec: the rows of [app.models], which is not among
    the sources ([User], [App], [Memory], [MemoryStatusHistory] and
    [MemoryAccessLog] below); the fields are those the server reads or
    writes (section 3 of the specification: identity, memory record,
    access event). *)
Record User : Type := mk_User {
  user_pk : UUID;
  user_user_id : str
}.

Record App : Type := mk_App {
  app_pk : UUID;
  app_owner_id : UUID;
  app_name : str;
  app_is_active : bool
}.

Record Memory : Type := mk_Memory {
  memory_pk : UUID;
  memory_user_id : UUID;
  memory_app_id : UUID;
  memory_content : value;
  memory_state : MemoryState;
  memory_deleted_at : option N
}.

Record MemoryStatusHistory : Type := mk_History {
  history_memory_id : UUID;
  history_changed_by : UUID;
  history_old_state : MemoryState;
  history_new_state : MemoryState
}.

Record MemoryAccessLog : Type := mk_AccessLog {
  log_memory_id : UUID;
  log_app_id : UUID;
  log_access_type : str;
  log_metadata : value
}.

(** The relational store. *)
Record DB : Type := mk_DB {
  users : list User;
  apps : list App;
  memories : list Memory;
  histories : list MemoryStatusHistory;
  access_logs : list MemoryAccessLog
}.

(** The tables that shadow the engine's records and their audit trail. *)
Definition tables (db : DB)
    : list Memory * list MemoryStatusHistory * list MemoryAccessLog :=
  (memories db, histories db, access_logs db).

(** Modelled from the spec: what the server takes from modules that are
    not among the sources and from the standard library: library
    functions whose result is used as it comes, the authorization check
    of [app.utils.permissions] (section 4.3: the grant rule is an
    external check given the record and the caller's application id),
    the memory client, and the faults of the store.
    - [uuid_parse s] is [uuid.UUID(s)] for a string, [None] standing for
      its [ValueError];
    - [json_error_text s] is [str(e)] of the [JSONDecodeError] that
      [json.loads(s)] raises;
    - [memory_client] is what [get_memory_client_safe()] returns;
    - [commit_fault], when set, is raised by every [db.commit()]. *)
Record Env : Type := mk_Env {
  uuid_parse : str -> option UUID;
  json_error_text : str -> str;
  check_memory_access_permissions : DB -> Memory -> UUID -> bool;
  memory_client : option backend;
  commit_fault : option exc;
  new_user_pk : UUID;
  new_app_pk : UUID;
  now : N
}.

(** Modelled from the spec: the session of [app.database.SessionLocal],
    which is not among the sources, as a unit of work on the relational
    store (section 5): changes are pending until committed and dropped
    when the session is closed.  The state a tool call runs in is the
    committed store, the view of the open session with its pending
    changes, and the calls made on the memory client. *)
Record world : Type := mk_world {
  store : DB;
  session : DB;
  calls : list call
}.

(** The text a tool returns: plain text, [json.dumps(v, indent=2)] or
    [str(v)]. *)
Inductive reply : Type :=
| Text (s : str)
| JsonDumps (v : value)
| StrOf (v : value).

(** *** Dynamic operations on values *)

Definition not_a (what : string) (v : value) : str :=
  py "'" ++ type_name v ++ py "' object is not " ++ py what.

(** [iter(v)] run to its end. *)
Definition py_iter (v : value) : res (list value) :=
  match v with
  | VList l => Ok l
  | VStr s => Ok (map (fun c => VStr [c]) s)
  | VDict d => Ok (map VStr (dict_keys d))
  | _ => Raise (mk_exc TypeError (not_a "iterable" v))
  end.

(** [len(v)] *)
Definition py_len (v : value) : res nat :=
  match v with
  | VList l => Ok (length l)
  | VStr s => Ok (length s)
  | VDict d => Ok (length d)
  | _ => Raise (mk_exc TypeError
                  (py "object of type '" ++ type_name v ++ py "' has no len()"))
  end.

(** [k in v] for a string [k]. *)
Definition py_in (k : str) (v : value) : res bool :=
  match v with
  | VDict d => Ok (dict_has k d)
  | VList l => Ok (existsb (fun x => match x with
                                     | VStr s => str_eqb k s
                                     | _ => false
                                     end) l)
  | VStr s => Ok (contains k s)
  | _ => Raise (mk_exc TypeError
                  (py "argument of type '" ++ type_name v
                   ++ py "' is not iterable"))
  end.

(** [v[k]] for a string [k]. *)
Definition py_getitem (v : value) (k : str) : res value :=
  match v with
  | VDict d =>
      match dict_get k d with
      | Some x => Ok x
      | None => Raise (mk_exc (OtherException (py "KeyError"))
                         (py "'" ++ k ++ py "'"))
      end
  | VList _ =>
      Raise (mk_exc TypeError
               (py "list indices must be integers or slices, not str"))
  | VStr _ =>
      Raise (mk_exc TypeError (py "string indices must be integers, not 'str'"))
  | _ => Raise (mk_exc TypeError (not_a "subscriptable" v))
  end.

(** [uuid.UUID(v)] *)
Definition uuid_of (E : Env) (v : value) : res UUID :=
  match v with
  | VStr s =>
      match uuid_parse E s with
      | Some u => Ok u
      | None => Raise (mk_exc ValueError
                         (py "badly formed hexadecimal UUID string"))
      end
  | VNone =>
      Raise (mk_exc TypeError
               (py "one of the hex, bytes, bytes_le, fields, or int arguments must be given"))
  | _ =>
      Raise (mk_exc AttributeError
               (py "'" ++ type_name v ++ py "' object has no attribute 'replace'"))
  end.

(** *** The session *)

(** A session without pending changes: it shows the committed store. *)
Definition fresh_session (w : world) : world :=
  mk_world (store w) (store w) (calls w).

(** [SessionLocal()] *)
Definition SessionLocal : M world unit := modify fresh_session.

(** [db.close()]: what was not committed is dropped. *)
Definition db_close : M world unit := modify fresh_session.

(** [db.rollback()] *)
Definition db_rollback : M world unit := modify fresh_session.

(** [db.commit()] *)
Definition db_commit (E : Env) : M world unit :=
  match commit_fault E with
  | Some e => raise e
  | None => modify (fun w => mk_world (session w) (session w) (calls w))
  end.

(** A change made through the session. *)
Definition db_update (f : DB -> DB) : M world unit :=
  modify (fun w => mk_world (store w) (f (session w)) (calls w)).

(** The session's view. *)
Definition db_view : M world DB :=
  w <- get ;; ret (session w).

(** The world once the call [c] has been made. *)
Definition after_call (w : world) (c : call) : world :=
  mk_world (store w) (session w) (calls w ++ [c]).

(** A call on the memory client. *)
Definition client_call (cl : backend) (c : call) : M world value :=
  fun w => (cl (calls w) c, after_call w c).

(** The outcome of a computation as a value, for a [try] whose handler
    returns from the function. *)
Definition attempt {S A} (c : M S A) : M S (res A) :=
  fun s => match c s with (r, s') => (Ok r, s') end.

(** [db.query(User).filter(User.user_id == user_id).first()] *)
Definition find_user (db : DB) (user_id : str) : option User :=
  find (fun u => str_eqb (user_user_id u) user_id) (users db).

(** [db.query(App).filter(App.owner_id == owner, App.name == name).first()] *)
Definition find_app (db : DB) (owner : UUID) (name : str) : option App :=
  find (fun a => (app_owner_id a =? owner) && str_eqb (app_name a) name)
       (apps db).

(** [db.query(Memory).filter(Memory.id == memory_id).first()] *)
Definition find_memory (db : DB) (memory_id : UUID) : option Memory :=
  find (fun m => memory_pk m =? memory_id) (memories db).

(** [db.query(Memory).filter(Memory.user_id == user).all()] *)
Definition memories_of_user (db : DB) (user : UUID) : list Memory :=
  List.filter (fun m => memory_user_id m =? user) (memories db).

Definition add_user (u : User) (db : DB) : DB :=
  mk_DB (users db ++ [u]) (apps db) (memories db) (histories db)
        (access_logs db).

Definition add_app (a : App) (db : DB) : DB :=
  mk_DB (users db) (apps db ++ [a]) (memories db) (histories db)
        (access_logs db).

Definition add_memory (m : Memory) (db : DB) : DB :=
  mk_DB (users db) (apps db) (memories db ++ [m]) (histories db)
        (access_logs db).

Definition add_history (h : MemoryStatusHistory) (db : DB) : DB :=
  mk_DB (users db) (apps db) (memories db) (histories db ++ [h])
        (access_logs db).

Definition add_access_log (l : MemoryAccessLog) (db : DB) : DB :=
  mk_DB (users db) (apps db) (memories db) (histories db)
        (access_logs db ++ [l]).

(** An attribute assignment on the row with key [memory_id]. *)
Definition update_memory_row (memory_id : UUID) (f : Memory -> Memory)
    (db : DB) : DB :=
  mk_DB (users db) (apps db)
        (map (fun m => if memory_pk m =? memory_id then f m else m)
             (memories db))
        (histories db) (access_logs db).

(** The two assignments [memory.state = MemoryState.deleted] and
    [memory.deleted_at = now]. *)
Definition mark_deleted (t : N) (m : Memory) : Memory :=
  mk_Memory (memory_pk m) (memory_user_id m) (memory_app_id m)
            (memory_content m) deleted (Some t).

(** [memory.content = c] *)
Definition set_content (c : value) (m : Memory) : Memory :=
  mk_Memory (memory_pk m) (memory_user_id m) (memory_app_id m)
            c (memory_state m) (memory_deleted_at m).

(** *** [app/utils/db.py] *)

(** [get_or_create_user(db, user_id)] *)
Definition get_or_create_user (E : Env) (user_id : str) : M world User :=
  db <- db_view ;;
  match find_user db user_id with
  | Some user => ret user
  | None =>
      catch
        (let user := mk_User (new_user_pk E) user_id in
         db_update (add_user user) ;;;
         db_commit E ;;;
         ret user)
        (fun e =>
           if is_IntegrityError e then
             db_rollback ;;;
             db <- db_view ;;
             match find_user db user_id with
             | Some user => ret user
             | None => raise (mk_exc PyException
                                (py "Failed to get or create user: " ++ user_id))
             end
           else raise e)
  end.

(** [get_or_create_app(db, user, app_id)] *)
Definition get_or_create_app (E : Env) (user : User) (app_id : str)
    : M world App :=
  db <- db_view ;;
  match find_app db (user_pk user) app_id with
  | Some app => ret app
  | None =>
      catch
        (let app := mk_App (new_app_pk E) (user_pk user) app_id true in
         db_update (add_app app) ;;;
         db_commit E ;;;
         ret app)
        (fun e =>
           if is_IntegrityError e then
             db_rollback ;;;
             db <- db_view ;;
             match find_app db (user_pk user) app_id with
             | Some app => ret app
             | None => raise (mk_exc PyException
                                (py "Failed to get or create app: " ++ app_id
                                 ++ py " for user: " ++ user_user_id user))
             end
           else raise e)
  end.

(** [get_user_and_app(db, user_id, app_id)] *)
Definition get_user_and_app (E : Env) (user_id app_id : str)
    : M world (User * App) :=
  user <- get_or_create_user E user_id ;;
  app <- get_or_create_app E user app_id ;;
  ret (user, app).

(** *** [log_memory_access] and [filter_accessible_memories] *)

(** [log_memory_access(db, memory_ids, app_id, access_type, metadata)],
    called with a list of ids. *)
Definition log_memory_access (E : Env) (memory_ids : list UUID)
    (app_id : UUID) (access_type : str) (metadata : value) : M world unit :=
  let metadata_ := if py_truthy metadata then metadata else VDict [] in
  db_update (fun db =>
    fold_left (fun db memory_id =>
                 add_access_log
                   (mk_AccessLog memory_id app_id access_type metadata_) db)
              memory_ids db) ;;;
  db_commit E.

(** The body of either loop for one candidate, once ['id' in memory_data]
    holds: the inner [try] with its [except ValueError: continue]. *)
Definition accept_candidate (E : Env) (db : DB) (app_id : UUID)
    (memory_data : value) (acc : list value * list UUID)
    : res (list value * list UUID) :=
  match py_getitem memory_data (py "id") with
  | Raise e => if is_ValueError e then Ok acc else Raise e
  | Ok idv =>
      match uuid_of E idv with
      | Raise e => if is_ValueError e then Ok acc else Raise e
      | Ok memory_id =>
          match find_memory db memory_id with
          | Some memory_obj =>
              if check_memory_access_permissions E db memory_obj app_id
              then Ok (fst acc ++ [memory_data], snd acc ++ [memory_id])
              else Ok acc
          | None => Ok acc
          end
      end
  end.

(** One round of the loop over [memories['results']]. *)
Definition visit_result (E : Env) (db : DB) (app_id : UUID)
    (acc : list value * list UUID) (memory_data : value)
    : res (list value * list UUID) :=
  match py_in (py "id") memory_data with
  | Raise e => Raise e
  | Ok true => accept_candidate E db app_id memory_data acc
  | Ok false => Ok acc
  end.

(** One round of the loop over a list of memories, which first asks for
    a [dict]. *)
Definition visit_memory (E : Env) (db : DB) (app_id : UUID)
    (acc : list value * list UUID) (memory : value)
    : res (list value * list UUID) :=
  match memory with
  | VDict d =>
      if dict_has (py "id") d
      then accept_candidate E db app_id memory acc
      else Ok acc
  | _ => Ok acc
  end.

(** A [for] loop whose body may raise. *)
Fixpoint for_each {A B} (f : B -> A -> res B) (l : list A) (acc : B) : res B :=
  match l with
  | [] => Ok acc
  | x :: t =>
      match f acc x with
      | Ok acc' => for_each f t acc'
      | Raise e => Raise e
      end
  end.

(** [filter_accessible_memories(db, memories, user_id, app_id)] *)
Definition filter_accessible_memories (E : Env) (db : DB) (memories : value)
    (user_id : str) (app_id : UUID) : list value * list UUID :=
  if negb (py_truthy memories) then ([], [])
  else
    match find_user db user_id with
    | None => ([], [])
    | Some user =>
        let body : res (list value * list UUID) :=
          match memories with
          | VDict d =>
              match dict_get (py "results") d with
              | Some results =>
                  match py_iter results with
                  | Raise e => Raise e
                  | Ok l => for_each (visit_result E db app_id) l ([], [])
                  end
              | None => Ok ([], [])
              end
          | VList l => for_each (visit_memory E db app_id) l ([], [])
          | _ => Ok ([], [])
          end in
        match body with
        | Ok r => r
        | Raise e => ([], [])
        end
    end.


(** [u] is the id of the candidate [c]: [c] is a dict whose ['id'] is a
    string that parses to [u]. *)
Definition has_id (E : Env) (c : value) (u : UUID) : Prop :=
  exists d s, c = VDict d
              /\ dict_get (py "id") d = Some (VStr s)
              /\ uuid_parse E s = Some u.



(** A computation keeps a property of the world on every outcome. *)
Definition stable {A} (P : world -> Prop) (m : M world A) : Prop :=
  forall w, P w -> P (snd (m w)).

(** No call made, and the shadow tables as they were committed. *)
Definition untouched
    (T : list Memory * list MemoryStatusHistory * list MemoryAccessLog)
    (C : list call) (w : world) : Prop :=
  calls w = C /\ tables (session w) = T /\ tables (store w) = T.

(** The access log as it stands, in the session and in the store. *)
Definition logs_are (L : list MemoryAccessLog) (w : world) : Prop :=
  access_logs (session w) = L /\ access_logs (store w) = L.

(** *** The tools *)

(** [not x] for a context variable read with default [None]. *)
Definition unset (x : option str) : bool :=
  match x with
  | Some (_ :: _) => false
  | _ => true
  end.

(** The opening of every tool: both context variables must be set and
    the memory client available. *)
Definition tool_prelude (E : Env) (uid client_name : option str)
    (k : str -> str -> backend -> M world reply) : M world reply :=
  match uid, client_name with
  | Some u, Some c =>
      if unset uid || unset client_name
      then ret (Text (py "Error: user_id and client_name are required"))
      else
        match memory_client E with
        | Some cl => k u c cl
        | None =>
            ret (Text (py "Error: Memory system is currently unavailable. Please try again later."))
        end
  | _, _ => ret (Text (py "Error: user_id and client_name are required"))
  end.

(** A [for] loop in the state monad. *)
Fixpoint for_each_m {S A B} (f : B -> A -> M S B) (l : list A) (acc : B)
    : M S B :=
  match l with
  | [] => ret acc
  | x :: t => acc' <- f acc x ;; for_each_m f t acc'
  end.

(** The [ValueError] that [json.loads] raises for an over-long integer. *)
Definition int_limit_error (digits : nat) : exc :=
  mk_exc ValueError (Json.int_limit_message digits).

(** [x in ['ADD', 'UPDATE']] *)
Definition is_add_or_update (x : value) : bool :=
  match x with
  | VStr s => str_eqb s (py "ADD") || str_eqb s (py "UPDATE")
  | _ => false
  end.

(** The body of the loop of [add_memories] over [response['results']]. *)
Definition track_result (E : Env) (user : User) (app : App) (_ : unit)
    (result : value) : M world unit :=
  idv <- lift (py_getitem result (py "id")) ;;
  memory_id <- lift (uuid_of E idv) ;;
  event <- lift (py_getitem result (py "event")) ;;
  if is_add_or_update event then
    db <- db_view ;;
    old_state <-
      match find_memory db memory_id with
      | None =>
          content <- lift (py_getitem result (py "memory")) ;;
          db_update (add_memory (mk_Memory memory_id (user_pk user) (app_pk app)
                                   content active None)) ;;;
          ret active
      | Some memory =>
          content <- lift (py_getitem result (py "memory")) ;;
          db_update (update_memory_row memory_id (set_content content)) ;;;
          ret (memory_state memory)
      end ;;
    db_update (add_history (mk_History memory_id (user_pk user) old_state active))
  else ret tt.

(** [add_memories(text, metadata, infer)] *)
Definition add_memories (E : Env) (uid client_name : option str)
    (text metadata : str) (infer : bool) : M world reply :=
  tool_prelude E uid client_name (fun uid client_name memory_client =>
  except_Exception
    (SessionLocal ;;;
     finally
       (ua <- get_user_and_app E uid client_name ;;
        let '(user, app) := ua in
        if negb (app_is_active app) then
          ret (Text (py "Error: App " ++ app_name app
                     ++ py " is currently paused. Cannot create new memories."))
        else
          match Json.loads metadata with
          | Json.DecodeError =>
              ret (Text (py "Error parsing JSON parameters: "
                         ++ json_error_text E metadata))
          | Json.IntLimitError d => raise (int_limit_error d)
          | Json.Parsed metadata_dict =>
              md <- lift (unpack_mapping metadata_dict) ;;
              let final_metadata :=
                dict_update [ (py "source_app", VStr (py "openmemory"));
                              (py "mcp_client", VStr client_name) ] md in
              r <- attempt
                     (client_call memory_client
                        (mk_call (py "add") [VStr text]
                           [ (py "user_id", VStr uid);
                             (py "metadata", VDict final_metadata);
                             (py "infer", VBool infer) ])) ;;
              match r with
              | Raise add_error =>
                  if is_Exception add_error
                  then ret (Text (py "Error adding memory: " ++ exc_msg add_error))
                  else raise add_error
              | Ok VNone =>
                  ret (Text (py "Warning: Memory add operation completed but returned no response"))
              | Ok response =>
                  match response with
                  | VDict d =>
                      match dict_get (py "results") d with
                      | Some results =>
                          lift (py_len results) ;;;
                          l <- lift (py_iter results) ;;
                          for_each_m (track_result E user app) l tt ;;;
                          db_commit E ;;;
                          ret (JsonDumps response)
                      | None => ret (JsonDumps response)
                      end
                  | _ => ret (StrOf response)
                  end
              end
          end)
       db_close)
    (fun e => ret (Text (py "Error adding memory: " ++ exc_msg e)))).

(** The call of [memory_client.search] with [search_params] as its
    keyword arguments: the [filters] entry is
    added only when the parsed filters count as true. *)
Definition search_call (uid query : str) (limit : Z) (filters_dict : value)
    : call :=
  let search_params :=
    [ (py "query", VStr query); (py "user_id", VStr uid);
      (py "limit", VInt limit) ] in
  let search_params :=
    if py_truthy filters_dict
    then dict_set (py "filters") filters_dict search_params
    else search_params in
  mk_call (py "search") [] search_params.

(** [if memories is None: memories = []] *)
Definition none_as_empty (memories : value) : value :=
  match memories with
  | VNone => VList []
  | _ => memories
  end.

(** [search_memory(query, limit, filters)] *)
Definition search_memory (E : Env) (uid client_name : option str)
    (query : str) (limit : Z) (filters : str) : M world reply :=
  tool_prelude E uid client_name (fun uid client_name memory_client =>
  except_Exception
    (SessionLocal ;;;
     finally
       (ua <- get_user_and_app E uid client_name ;;
        let '(user, app) := ua in
        match Json.loads filters with
        | Json.DecodeError =>
            ret (Text (py "Error parsing filters JSON: "
                       ++ json_error_text E filters))
        | Json.IntLimitError d => raise (int_limit_error d)
        | Json.Parsed filters_dict =>
            r <- attempt
                   (client_call memory_client
                      (search_call uid query limit filters_dict)) ;;
            match r with
            | Raise search_error =>
                if is_Exception search_error
                then ret (Text (py "Error searching memory: "
                                ++ exc_msg search_error))
                else raise search_error
            | Ok memories =>
                let memories := none_as_empty memories in
                db <- db_view ;;
                let '(accessible_memories, memory_ids) :=
                  filter_accessible_memories E db memories uid (app_pk app) in
                match memory_ids with
                | _ :: _ =>
                    log_memory_access E memory_ids (app_pk app) (py "search")
                      (VDict [ (py "query", VStr query);
                               (py "results_count",
                                VInt (Z.of_nat (length accessible_memories))) ])
                | [] => ret tt
                end ;;;
                ret (JsonDumps (VList accessible_memories))
            end
        end)
       db_close)
    (fun e => ret (Text (py "Error searching memory: " ++ exc_msg e)))).

Definition get_all_call (uid : str) : call :=
  mk_call (py "get_all") [] [(py "user_id", VStr uid)].

(** [list_memories()] *)
Definition list_memories (E : Env) (uid client_name : option str)
    : M world reply :=
  tool_prelude E uid client_name (fun uid client_name memory_client =>
  except_Exception
    (SessionLocal ;;;
     finally
       (ua <- get_user_and_app E uid client_name ;;
        let '(user, app) := ua in
        r <- attempt (client_call memory_client (get_all_call uid)) ;;
        match r with
        | Raise get_all_error =>
            if is_Exception get_all_error
            then ret (Text (py "Error listing memories: "
                            ++ exc_msg get_all_error))
            else raise get_all_error
        | Ok memories =>
            let memories := none_as_empty memories in
            db <- db_view ;;
            let '(accessible_memories, memory_ids) :=
              filter_accessible_memories E db memories uid (app_pk app) in
            match memory_ids with
            | _ :: _ =>
                log_memory_access E memory_ids (app_pk app) (py "list")
                  (VDict [ (py "total_count",
                            VInt (Z.of_nat (length accessible_memories))) ])
            | [] => ret tt
            end ;;;
            ret (JsonDumps (VList accessible_memories))
        end)
       db_close)
    (fun e => ret (Text (py "Error listing memories: " ++ exc_msg e)))).

(** The body of the loop of [delete_all_memories] over the accessible
    ids. *)
Definition delete_row (E : Env) (user : User) (_ : unit) (memory_id : UUID)
    : M world unit :=
  db <- db_view ;;
  match find_memory db memory_id with
  | Some memory =>
      db_update (update_memory_row memory_id (mark_deleted (now E))) ;;;
      db_update (add_history (mk_History memory_id (user_pk user) active deleted))
  | None => ret tt
  end.

Definition delete_all_call (uid : str) : call :=
  mk_call (py "delete_all") [] [(py "user_id", VStr uid)].

(** The list [accessible_memory_ids] of [delete_all_memories]. *)
Definition accessible_ids (E : Env) (db : DB) (user : User) (app : App)
    : list UUID :=
  let user_memories := memories_of_user db (user_pk user) in
  map memory_pk
      (List.filter
         (fun memory =>
            check_memory_access_permissions E db memory (app_pk app))
         user_memories).

(** [delete_all_memories()] *)
Definition delete_all_memories (E : Env) (uid client_name : option str)
    : M world reply :=
  tool_prelude E uid client_name (fun uid client_name memory_client =>
  except_Exception
    (SessionLocal ;;;
     finally
       (ua <- get_user_and_app E uid client_name ;;
        let '(user, app) := ua in
        db <- db_view ;;
        let accessible_memory_ids := accessible_ids E db user app in
        r <- attempt (client_call memory_client (delete_all_call uid)) ;;
        match r with
        | Raise delete_error =>
            if is_Exception delete_error
            then ret (Text (py "Error deleting memories: "
                            ++ exc_msg delete_error))
            else raise delete_error
        | Ok response =>
            for_each_m (delete_row E user) accessible_memory_ids tt ;;;
            match accessible_memory_ids with
            | _ :: _ =>
                log_memory_access E accessible_memory_ids (app_pk app)
                  (py "delete_all")
                  (VDict [ (py "operation", VStr (py "bulk_delete"));
                           (py "count",
                            VInt (Z.of_nat (length accessible_memory_ids))) ])
            | [] => ret tt
            end ;;;
            db_commit E ;;;
            ret (Text (py "Successfully deleted "
                       ++ str_of_nat (length accessible_memory_ids)
                       ++ py " accessible memories"))
        end)
       db_close)
    (fun e => ret (Text (py "Error deleting memories: " ++ exc_msg e)))).

(** The audit step of [get_memory], [update_memory] and
    [get_memory_history]: a [try] whose [except ValueError: pass] covers
    both the parsing of the id and the logging. *)
Definition log_single_access (E : Env) (memory_id : str) (app : App)
    (access_type : str) (metadata : value) : M world unit :=
  except_ValueError
    (u <- lift (uuid_of E (VStr memory_id)) ;;
     log_memory_access E [u] (app_pk app) access_type metadata)
    (ret tt).

(** [get_memory(memory_id)] *)
Definition get_memory (E : Env) (uid client_name : option str)
    (memory_id : str) : M world reply :=
  tool_prelude E uid client_name (fun uid client_name memory_client =>
  except_Exception
    (SessionLocal ;;;
     finally
       (ua <- get_user_and_app E uid client_name ;;
        let '(user, app) := ua in
        r <- attempt
               (client_call memory_client
                  (mk_call (py "get") [VStr memory_id]
                     [(py "user_id", VStr uid)])) ;;
        match r with
        | Raise get_error =>
            if is_Exception get_error
            then ret (Text (py "Error getting memory: " ++ exc_msg get_error))
            else raise get_error
        | Ok VNone =>
            ret (Text (py "Memory with ID " ++ memory_id ++ py " not found"))
        | Ok memory =>
            log_single_access E memory_id app (py "get")
              (VDict [(py "operation", VStr (py "get_by_id"))]) ;;;
            ret (JsonDumps memory)
        end)
       db_close)
    (fun e => ret (Text (py "Error getting memory: " ++ exc_msg e)))).

Definition update_call (uid memory_id text : str) (metadata_dict : value)
    : call :=
  mk_call (py "update") [VStr memory_id; VStr text]
    [ (py "user_id", VStr uid); (py "metadata", metadata_dict) ].

(** [update_memory(memory_id, text, metadata)] *)
Definition update_memory (E : Env) (uid client_name : option str)
    (memory_id text metadata : str) : M world reply :=
  tool_prelude E uid client_name (fun uid client_name memory_client =>
  except_Exception
    (metadata_dict <-
       match Json.loads metadata with
       | Json.Parsed v => ret v
       | Json.DecodeError => ret (VDict [])
       | Json.IntLimitError d => raise (int_limit_error d)
       end ;;
     SessionLocal ;;;
     finally
       (ua <- get_user_and_app E uid client_name ;;
        let '(user, app) := ua in
        r <- attempt
               (client_call memory_client
                  (update_call uid memory_id text metadata_dict)) ;;
        match r with
        | Raise update_error =>
            if is_Exception update_error
            then ret (Text (py "Error updating memory: "
                            ++ exc_msg update_error))
            else raise update_error
        | Ok VNone =>
            ret (Text (py "Memory with ID " ++ memory_id
                       ++ py " not found or could not be updated"))
        | Ok response =>
            log_single_access E memory_id app (py "update")
              (VDict [ (py "operation", VStr (py "update_memory"));
                       (py "text_length", VInt (Z.of_nat (length text))) ]) ;;;
            ret (JsonDumps response)
        end)
       db_close)
    (fun e => ret (Text (py "Error updating memory: " ++ exc_msg e)))).

Definition delete_call (uid memory_id : str) : call :=
  mk_call (py "delete") [VStr memory_id] [(py "user_id", VStr uid)].

(** [delete_memory(memory_id)] *)
Definition delete_memory (E : Env) (uid client_name : option str)
    (memory_id : str) : M world reply :=
  tool_prelude E uid client_name (fun uid client_name memory_client =>
  except_Exception
    (SessionLocal ;;;
     finally
       (ua <- get_user_and_app E uid client_name ;;
        let '(user, app) := ua in
        r <- attempt (client_call memory_client (delete_call uid memory_id)) ;;
        match r with
        | Raise delete_error =>
            if is_Exception delete_error
            then ret (Text (py "Error deleting memory: "
                            ++ exc_msg delete_error))
            else raise delete_error
        | Ok response =>
            except_ValueError
              (memory_uuid <- lift (uuid_of E (VStr memory_id)) ;;
               db <- db_view ;;
               match find_memory db memory_uuid with
               | Some memory =>
                   db_update (update_memory_row memory_uuid
                                (mark_deleted (now E))) ;;;
                   db_update (add_history
                                (mk_History memory_uuid (user_pk user)
                                   active deleted)) ;;;
                   log_memory_access E [memory_uuid] (app_pk app)
                     (py "delete")
                     (VDict [(py "operation", VStr (py "delete_single"))]) ;;;
                   db_commit E
               | None => ret tt
               end)
              (ret tt) ;;;
            ret (Text (py "Successfully deleted memory " ++ memory_id))
        end)
       db_close)
    (fun e => ret (Text (py "Error deleting memory: " ++ exc_msg e)))).

(** [get_memory_history(memory_id)] *)
Definition get_memory_history (E : Env) (uid client_name : option str)
    (memory_id : str) : M world reply :=
  tool_prelude E uid client_name (fun uid client_name memory_client =>
  except_Exception
    (SessionLocal ;;;
     finally
       (ua <- get_user_and_app E uid client_name ;;
        let '(user, app) := ua in
        r <- attempt
               (client_call memory_client
                  (mk_call (py "history") [VStr memory_id]
                     [(py "user_id", VStr uid)])) ;;
        match r with
        | Raise history_error =>
            if is_Exception history_error
            then ret (Text (py "Error getting memory history: "
                            ++ exc_msg history_error))
            else raise history_error
        | Ok VNone =>
            ret (Text (py "No history found for memory " ++ memory_id))
        | Ok history =>
            log_single_access E memory_id app (py "history")
              (VDict [(py "operation", VStr (py "get_history"))]) ;;;
            ret (JsonDumps history)
        end)
       db_close)
    (fun e => ret (Text (py "Error getting memory history: " ++ exc_msg e)))).

(** The body of the loop of [batch_update_memories] that collects the
    ids to log. *)
Definition collect_update_id (E : Env) (memory_ids : list UUID)
    (update : value) : res (list UUID) :=
  match py_in (py "memory_id") update with
  | Raise e => Raise e
  | Ok false => Ok memory_ids
  | Ok true =>
      match py_getitem update (py "memory_id") with
      | Raise e => if is_ValueError e then Ok memory_ids else Raise e
      | Ok idv =>
          match uuid_of E idv with
          | Ok u => Ok (memory_ids ++ [u])
          | Raise e => if is_ValueError e then Ok memory_ids else Raise e
          end
      end
  end.

Definition batch_update_call (uid : str) (updates : list value) : call :=
  mk_call (py "batch_update") [VList updates] [(py "user_id", VStr uid)].

(** [batch_update_memories(updates_json)] *)
Definition batch_update_memories (E : Env) (uid client_name : option str)
    (updates_json : str) : M world reply :=
  tool_prelude E uid client_name (fun uid client_name memory_client =>
  except_Exception
    (match Json.loads updates_json with
     | Json.DecodeError =>
         ret (Text (py "Error parsing updates JSON: "
                    ++ json_error_text E updates_json))
     | Json.IntLimitError d => raise (int_limit_error d)
     | Json.Parsed (VList updates) =>
         SessionLocal ;;;
         finally
           (ua <- get_user_and_app E uid client_name ;;
            let '(user, app) := ua in
            r <- attempt
                   (client_call memory_client (batch_update_call uid updates)) ;;
            match r with
            | Raise batch_error =>
                if is_Exception batch_error
                then ret (Text (py "Error in batch update: "
                                ++ exc_msg batch_error))
                else raise batch_error
            | Ok VNone =>
                ret (Text (py "Batch update completed (returned None)"))
            | Ok response =>
                memory_ids <- lift (for_each (collect_update_id E) updates []) ;;
                match memory_ids with
                | _ :: _ =>
                    log_memory_access E memory_ids (app_pk app)
                      (py "batch_update")
                      (VDict [ (py "operation", VStr (py "batch_update"));
                               (py "count",
                                VInt (Z.of_nat (length memory_ids))) ])
                | [] => ret tt
                end ;;;
                ret (JsonDumps response)
            end)
           db_close
     | Json.Parsed _ =>
         ret (Text (py "Error: updates must be a JSON array"))
     end)
    (fun e => ret (Text (py "Error in batch update: " ++ exc_msg e)))).

(** The body of the loop of [batch_delete_memories] over the ids. *)
Definition delete_listed (E : Env) (user : User) (valid_uuids : list UUID)
    (memory_id : value) : M world (list UUID) :=
  except_ValueError
    (memory_uuid <- lift (uuid_of E memory_id) ;;
     db <- db_view ;;
     match find_memory db memory_uuid with
     | Some memory =>
         db_update (update_memory_row memory_uuid (mark_deleted (now E))) ;;;
         db_update (add_history
                      (mk_History memory_uuid (user_pk user) active deleted)) ;;;
         ret (valid_uuids ++ [memory_uuid])
     | None => ret valid_uuids
     end)
    (ret valid_uuids).

Definition batch_delete_call (uid : str) (memory_ids : list value) : call :=
  mk_call (py "batch_delete") [VList memory_ids] [(py "user_id", VStr uid)].

(** [batch_delete_memories(memory_ids_json)] *)
Definition batch_delete_memories (E : Env) (uid client_name : option str)
    (memory_ids_json : str) : M world reply :=
  tool_prelude E uid client_name (fun uid client_name memory_client =>
  except_Exception
    (match Json.loads memory_ids_json with
     | Json.DecodeError =>
         ret (Text (py "Error parsing memory_ids JSON: "
                    ++ json_error_text E memory_ids_json))
     | Json.IntLimitError d => raise (int_limit_error d)
     | Json.Parsed (VList memory_ids) =>
         SessionLocal ;;;
         finally
           (ua <- get_user_and_app E uid client_name ;;
            let '(user, app) := ua in
            r <- attempt
                   (client_call memory_client
                      (batch_delete_call uid memory_ids)) ;;
            match r with
            | Raise batch_error =>
                if is_Exception batch_error
                then ret (Text (py "Error in batch delete: "
                                ++ exc_msg batch_error))
                else raise batch_error
            | Ok response =>
                valid_uuids <- for_each_m (delete_listed E user) memory_ids [] ;;
                match valid_uuids with
                | _ :: _ =>
                    log_memory_access E valid_uuids (app_pk app)
                      (py "batch_delete")
                      (VDict [ (py "operation", VStr (py "batch_delete"));
                               (py "count",
                                VInt (Z.of_nat (length valid_uuids))) ])
                | [] => ret tt
                end ;;;
                db_commit E ;;;
                ret (Text (py "Successfully batch deleted "
                           ++ str_of_nat (length valid_uuids)
                           ++ py " memories"))
            end)
           db_close
     | Json.Parsed _ =>
         ret (Text (py "Error: memory_ids must be a JSON array"))
     end)
    (fun e => ret (Text (py "Error in batch delete: " ++ exc_msg e)))).

(** *** [handle_sse] *)

(** The module-level state and the two context variables; a variable
    without a value is [None]. *)
Record sse_state : Type := mk_sse_state {
  active_connections : gset str;
  connection_counter : nat;
  user_id_var : option str;
  client_name_var : option str
}.

(** What runs between the binding of the identity and the cleanup, seen
    from [handle_sse]: entering [sse.connect_sse], the MCP server's run
    on the streams, and leaving the context manager.  Each may raise,
    and each may leave the shared state changed by whatever ran
    meanwhile. *)
Record transport : Type := mk_transport {
  connect_sse : M sse_state unit;
  run_server : M sse_state unit;
  disconnect_sse : M sse_state unit
}.

(** [var.set(v)]: the token remembers the value before. *)
Definition user_id_var_set (v : str) : M sse_state (option str) :=
  fun s => (Ok (user_id_var s),
            mk_sse_state (active_connections s) (connection_counter s)
                         (Some v) (client_name_var s)).

Definition client_name_var_set (v : str) : M sse_state (option str) :=
  fun s => (Ok (client_name_var s),
            mk_sse_state (active_connections s) (connection_counter s)
                         (user_id_var s) (Some v)).

(** [var.reset(token)] *)
Definition user_id_var_reset (token : option str) : M sse_state unit :=
  modify (fun s => mk_sse_state (active_connections s) (connection_counter s)
                                token (client_name_var s)).

Definition client_name_var_reset (token : option str) : M sse_state unit :=
  modify (fun s => mk_sse_state (active_connections s) (connection_counter s)
                                (user_id_var s) token).

(** [str(x)] of a path parameter that may be missing, as an f-string
    prints it. *)
Definition fmt (x : option str) : str :=
  match x with Some s => s | None => py "None" end.

(** [x or ""] *)
Definition or_empty (x : option str) : str :=
  match x with
  | Some (c :: s) => c :: s
  | _ => []
  end.

(** The f-string [f"{client_name}:{uid}:{connection_counter}"]. *)
Definition connection_id_of (uid client_name : option str) (counter : nat)
    : str :=
  fmt client_name ++ py ":" ++ fmt uid ++ py ":" ++ str_of_nat counter.

(** [async with sse.connect_sse(...) as streams: body]: the context
    manager is left on every outcome of the body. *)
Definition async_with (T : transport) (body : M sse_state unit)
    : M sse_state unit :=
  connect_sse T ;;;
  finally body (disconnect_sse T).

(** [handle_sse(request)] with the two path parameters. *)
Definition handle_sse (T : transport) (uid client_name : option str)
    : M sse_state unit :=
  modify (fun s => mk_sse_state (active_connections s)
                                (S (connection_counter s))
                                (user_id_var s) (client_name_var s)) ;;;
  s <- get ;;
  let connection_id := connection_id_of uid client_name (connection_counter s) in
  user_token <- user_id_var_set (or_empty uid) ;;
  client_token <- client_name_var_set (or_empty client_name) ;;
  finally
    (except_Exception
       (modify (fun s => mk_sse_state ({[ connection_id ]} ∪ active_connections s)
                                      (connection_counter s)
                                      (user_id_var s) (client_name_var s)) ;;;
        async_with T
          (catch (run_server T)
             (fun e =>
                if is_RuntimeError e then ret tt
                else if is_Exception e then ret tt
                else raise e)))
       (fun sse_error => ret tt))
    (modify (fun s => mk_sse_state (active_connections s ∖ {[ connection_id ]})
                                   (connection_counter s)
                                   (user_id_var s) (client_name_var s)) ;;;
     user_id_var_reset user_token ;;;
     client_name_var_reset client_token).

End Server.

(** ** Sample instances

    Concrete stores, clients and library functions on which the model is
    run. *)

Module Sample.

Import ResilientMemoryClient Server.

(** [s.replace(pat, '')] for a non-empty [pat]: the occurrences are
    removed left to right; [skip] counts the characters of a match still
    to drop. *)
Fixpoint remove_all_from (pat : str) (skip : nat) (s : str) : str :=
  match s with
  | [] => []
  | c :: t =>
      match skip with
      | S k => remove_all_from pat k t
      | O => if startswith pat s
             then remove_all_from pat (length pat - 1) t
             else c :: remove_all_from pat 0 t
      end
  end.

Definition remove_all (pat s : str) : str := remove_all_from pat 0 s.

Definition is_brace (c : char) : bool := (c =? 123) || (c =? 125).

Fixpoint lstrip_braces (s : str) : str :=
  match s with
  | c :: t => if is_brace c then lstrip_braces t else s
  | [] => []
  end.

Fixpoint hex_value (s : str) (acc : N) : option N :=
  match s with
  | [] => Some acc
  | c :: t =>
      match Json.hexval c with
      | Some d => hex_value t (16 * acc + d)
      | None => None
      end
  end.

(** [uuid.UUID(s)] on the textual forms made of ASCII hexadecimal
    digits, hyphens, braces and the [urn:uuid:] prefix. *)
Definition uuid_parse_hex (s : str) : option UUID :=
  let h := remove_all (py "uuid:") (remove_all (py "urn:") s) in
  let h := rev (lstrip_braces (rev (lstrip_braces h))) in
  let h := remove_all (py "-") h in
  if Nat.eqb (length h) 32 then hex_value h 0 else None.

(** An authorization check: a memory is visible to the application that
    owns it while it is active. *)
Definition allow_own_app (db : DB) (m : Memory) (app_id : UUID) : bool :=
  (memory_app_id m =? app_id)
  && match memory_state m with active => true | _ => false end.

Definition id_a : str := py "12345678-1234-5678-1234-567812345678".
Definition uuid_a : UUID := 24197857161011715162171839636988778104.
Definition id_b : str := py "aaaaaaaa-bbbb-cccc-dddd-eeeeeeeeeeee".

Definition sample_user : User := mk_User 1 (py "u1").
Definition sample_app : App := mk_App 2 1 (py "cursor") true.
Definition sample_memory : Memory :=
  mk_Memory uuid_a 1 2 (VStr (py "likes coffee")) active None.

Definition sample_store : DB :=
  mk_DB [sample_user] [sample_app] [sample_memory] [] [].

Definition sample_world : world := mk_world sample_store sample_store [].

Definition expecting_value : str :=
  py "Expecting value: line 1 column 1 (char 0)".

Definition sample_env (cl : option backend) (fault : option exc) : Env :=
  mk_Env uuid_parse_hex (fun _ => expecting_value) allow_own_app cl fault
         100 200 1700000000.

(** A client that answers every call with [v]. *)
Definition always_ok (v : value) : backend := fun _ _ => Ok v.

(** A client that raises [e] at every call. *)
Definition always_raise (e : exc) : backend := fun _ _ => Raise e.

(** A client that follows a script, one outcome per call, and raises
    [e] when the script is over. *)
Definition scripted (script : list (res value)) (e : exc) : backend :=
  fun tr _ => nth (length tr) script (Raise e).

Definition parse_failure : exc := mk_exc JSONDecodeError expecting_value.


Definition record_a : value :=
  VDict [(py "id", VStr id_a); (py "memory", VStr (py "likes coffee"))].

Definition record_b : value :=
  VDict [(py "id", VStr id_b); (py "memory", VStr (py "owns a boat"))].

Definition u1 : str := py "u1".
Definition cursor : str := py "cursor".

(** A reply with one record of the caller's application and one that
    the store does not know. *)
Definition two_records : value :=
  VDict [(py "results", VList [record_a; record_b])].


Definition ana_record : value :=
  VDict [ (py "id", VStr id_b); (py "memory", VStr (py "My name is Ana"));
          (py "event", VStr (py "ADD")) ].

Definition ana_added : value := VDict [(py "results", VList [ana_record])].


End Sample.
(** ** More of the MCP server: [get_entities], the POST endpoint and the
    tools as one family *)

Module Endpoints.

Import ResilientMemoryClient Server.

(** [get_entities()]: the call [memory_client.users()] in its own [try],
    inside the outer one; no session is opened. *)
Definition get_entities (E : Env) (uid client_name : option str)
    : M world reply :=
  tool_prelude E uid client_name (fun uid client_name memory_client =>
  except_Exception
    (r <- attempt (client_call memory_client (mk_call (py "users") [] [])) ;;
     match r with
     | Raise users_error =>
         if is_Exception users_error
         then ret (Text (py "Error getting entities: " ++ exc_msg users_error))
         else raise users_error
     | Ok VNone => ret (Text (py "No entities found"))
     | Ok entities => ret (JsonDumps entities)
     end)
    (fun e => ret (Text (py "Error getting entities: " ++ exc_msg e)))).

(** A call of one of the tools registered with [mcp.tool], with its
    arguments. *)
Inductive tool_call : Type :=
| AddMemories (text metadata : str) (infer : bool)
| SearchMemory (query : str) (limit : Z) (filters : str)
| ListMemories
| DeleteAllMemories
| GetMemory (memory_id : str)
| UpdateMemory (memory_id text metadata : str)
| DeleteMemory (memory_id : str)
| GetMemoryHistory (memory_id : str)
| GetEntities
| BatchUpdateMemories (updates_json : str)
| BatchDeleteMemories (memory_ids_json : str).

(** The tool that a call runs; [uid] and [client_name] are the values of
    the two context variables. *)
Definition call_tool (E : Env) (uid client_name : option str) (t : tool_call)
    : M world reply :=
  match t with
  | AddMemories text metadata infer =>
      add_memories E uid client_name text metadata infer
  | SearchMemory query limit filters =>
      search_memory E uid client_name query limit filters
  | ListMemories => list_memories E uid client_name
  | DeleteAllMemories => delete_all_memories E uid client_name
  | GetMemory memory_id => get_memory E uid client_name memory_id
  | UpdateMemory memory_id text metadata =>
      update_memory E uid client_name memory_id text metadata
  | DeleteMemory memory_id => delete_memory E uid client_name memory_id
  | GetMemoryHistory memory_id =>
      get_memory_history E uid client_name memory_id
  | GetEntities => get_entities E uid client_name
  | BatchUpdateMemories updates_json =>
      batch_update_memories E uid client_name updates_json
  | BatchDeleteMemories memory_ids_json =>
      batch_delete_memories E uid client_name memory_ids_json
  end.

(** The rows of memories and of their state changes, in the session and
    in the store. *)
Definition rows_are (R : list Memory) (H : list MemoryStatusHistory)
    (w : world) : Prop :=
  memories (session w) = R /\ histories (session w) = H
  /\ memories (store w) = R /\ histories (store w) = H.

(** The access events that [log_memory_access] adds for [memory_ids]. *)
Definition access_events (memory_ids : list UUID) (app_id : UUID)
    (access_type : str) (metadata : value) : list MemoryAccessLog :=
  map (fun memory_id => mk_AccessLog memory_id app_id access_type metadata)
      memory_ids.

(** The rows of the memory table once the rows with an id in [ids] have
    been marked as deleted. *)
Definition deleted_rows (E : Env) (ids : list UUID) (rows : list Memory)
    : list Memory :=
  map (fun m => if existsb (N.eqb (memory_pk m)) ids
                then mark_deleted (now E) m else m) rows.

(** The environment [E] with another authorization check. *)
Definition with_permissions (check : DB -> Memory -> UUID -> bool) (E : Env)
    : Env :=
  mk_Env (uuid_parse E) (json_error_text E) check (memory_client E)
         (commit_fault E) (new_user_pk E) (new_app_pk E) (now E).

(** The tools whose code calls [check_memory_access_permissions],
    directly or through [filter_accessible_memories]. *)
Definition consults_permissions (t : tool_call) : bool :=
  match t with
  | SearchMemory _ _ _ | ListMemories | DeleteAllMemories => true
  | _ => false
  end.

(** A record that the filter returns, with the id returned for it: the
    id of the record parses to [id], a row of the store that the
    authorization check grants to the application [app_id]. *)
Definition granted (E : Env) (db : DB) (app_id : UUID) (c : value)
    (id : UUID) : Prop :=
  has_id E c id
  /\ exists m, find_memory db id = Some m
               /\ check_memory_access_permissions E db m app_id = true.



(** The POST endpoint of the SSE transport.  [request_body] is
    [request.body()] and [sse_handle_post_message] the transport's
    handler; both may raise and both act on a state of their own. *)
Definition handle_post_message {S} (request_body : M S str)
    (sse_handle_post_message : str -> M S unit) : M S value :=
  catch
    (body <- request_body ;;
     sse_handle_post_message body ;;;
     ret (VDict [(py "status", VStr (py "ok"))]))
    (fun e =>
       if is_RuntimeError e then
         if contains (py "Received request before initialization was complete")
              (exc_msg e)
         then ret (VDict [ (py "status", VStr (py "warning"));
                          (py "message",
                           VStr (py "Server initializing, please retry")) ])
         else ret (VDict [ (py "status", VStr (py "error"));
                          (py "message", VStr (exc_msg e)) ])
       else if is_Exception e then
         ret (VDict [ (py "status", VStr (py "error"));
                     (py "message", VStr (exc_msg e)) ])
       else raise e).

End Endpoints.
(** ** Configuration helpers of [app/utils/memory.py] *)

Module Configuration.

Import ResilientMemoryClient.

(** [os.environ]: the variables that are set, with their values. *)
Definition environ : Type := gmap str str.

(** [os.environ.get(name)] when it counts as true: the variable is set
    and its value is not empty. *)
Definition env_value (env : environ) (name : str) : option str :=
  match env !! name with
  | Some (c :: v) => Some (c :: v)
  | _ => None
  end.

(** [_parse_environment_variables(config_dict)].  The loop assigns
    [parsed_config[key]] for the items of [config_dict] in their order;
    only strings that start with [env:] and nested dicts are looked
    into. *)
Fixpoint _parse_environment_variables (env : environ) (config_dict : value)
    : value :=
  match config_dict with
  | VDict d =>
      VDict
        (fold_left
           (fun parsed_config item =>
              let '(key, value) := item in
              match value with
              | VStr s =>
                  if startswith (py "env:") s then
                    let env_var := drop 4 s in
                    match env_value env env_var with
                    | Some v => dict_set key (VStr v) parsed_config
                    | None => dict_set key value parsed_config
                    end
                  else dict_set key value parsed_config
              | VDict _ =>
                  dict_set key (_parse_environment_variables env value)
                    parsed_config
              | _ => dict_set key value parsed_config
              end)
           d [])
  | _ => config_dict
  end.

(** What the loop of [_parse_environment_variables] assigns for one
    value. *)
Definition parsed_value (env : environ) (v : value) : value :=
  match v with
  | VStr s =>
      if startswith (py "env:") s then
        match env_value env (drop 4 s) with
        | Some x => VStr x
        | None => v
        end
      else v
  | VDict _ => _parse_environment_variables env v
  | _ => v
  end.

(** [v.get(k, default)]: a method of dicts only. *)
Definition py_get (v : value) (k : str) (default : value) : res value :=
  match v with
  | VDict d => Ok (match dict_get k d with Some x => x | None => default end)
  | _ => Raise (mk_exc AttributeError
                  (py "'" ++ type_name v ++ py "' object has no attribute 'get'"))
  end.

Definition conflicting_vars : list str :=
  [py "OPENAI_API_BASE"; py "OPENAI_BASE_URL"].

(** The dict [found_conflicts], as the list of its keys: the variables
    of [conflicting_vars] whose value counts as true. *)
Definition found_conflicts (env : environ) : list str :=
  List.filter (fun var => match env_value env var with
                          | Some _ => true
                          | None => false
                          end) conflicting_vars.

(** [_ensure_config_priority(config_dict)], on the process environment
    as its state.  The three [openai_base_url] entries are read first;
    when one of them counts as true, the conflicting variables that are
    set are removed from the environment and recorded in the
    configuration. *)
Definition _ensure_config_priority (config_dict : value)
    : M environ value :=
  llm <- lift (py_get config_dict (py "llm") (VDict [])) ;;
  llm_config <- lift (py_get llm (py "config") (VDict [])) ;;
  embedder <- lift (py_get config_dict (py "embedder") (VDict [])) ;;
  embedder_config <- lift (py_get embedder (py "config") (VDict [])) ;;
  graph_store <- lift (py_get config_dict (py "graph_store") (VDict [])) ;;
  graph_llm <- lift (py_get graph_store (py "llm") (VDict [])) ;;
  graph_llm_config <- lift (py_get graph_llm (py "config") (VDict [])) ;;
  llm_url <- lift (py_get llm_config (py "openai_base_url") VNone) ;;
  embedder_url <- lift (py_get embedder_config (py "openai_base_url") VNone) ;;
  graph_llm_url <-
    lift (py_get graph_llm_config (py "openai_base_url") VNone) ;;
  let custom_base_urls :=
    List.filter py_truthy [llm_url; embedder_url; graph_llm_url] in
  match custom_base_urls with
  | [] => ret config_dict
  | _ :: _ =>
      env <- get ;;
      match found_conflicts env with
      | [] => ret config_dict
      | found =>
          let original_values :=
            map (fun var => (var, match env !! var with
                                  | Some v => VStr v
                                  | None => VNone
                                  end)) found in
          put (fold_left (fun e var => delete var e) found env) ;;;
          match config_dict with
          | VDict d =>
              ret (VDict (dict_set (py "_original_env_vars")
                            (VDict original_values) d))
          | _ =>
              raise (mk_exc TypeError
                       (py "'" ++ type_name config_dict
                        ++ py "' object does not support item assignment"))
          end
      end
  end.

(** [key.lower() in ['api_key', 'password', 'token']]; [lower] is
    [str.lower]. *)
Definition is_sensitive (lower : str -> str) (key : str) : bool :=
  existsb (str_eqb (lower key)) [py "api_key"; py "password"; py "token"].

(** The text shown for a secret: eight stars, three dots and the last
    four characters, or one star for each character of a secret of at
    most four. *)
Definition masked_text (value : str) : str :=
  if Nat.ltb 4 (length value)
  then repeat 42 8 ++ py "..." ++ drop (length value - 4) value
  else repeat 42 (length value).

(** [mask_sensitive_data(config_dict, path)], the function that
    [get_memory_client] defines to print the configuration. *)
Fixpoint mask_sensitive_data (lower : str -> str) (config_dict : value)
    (path : str) : value :=
  match config_dict with
  | VDict d =>
      VDict
        (fold_left
           (fun masked item =>
              let '(key, value) := item in
              let current_path :=
                match path with
                | [] => key
                | _ :: _ => path ++ py "." ++ key
                end in
              if is_sensitive lower key then
                match value with
                | VStr (c :: s) => dict_set key (VStr (masked_text (c :: s))) masked
                | _ => dict_set key value masked
                end
              else
                dict_set key (mask_sensitive_data lower value current_path)
                  masked)
           d [])
  | _ => config_dict
  end.

(** What the loop of [mask_sensitive_data] does with one item. *)
Definition mask_item (lower : str -> str) (path : str) (masked : dict)
    (item : str * value) : dict :=
  let '(key, value) := item in
  let current_path :=
    match path with
    | [] => key
    | _ :: _ => path ++ py "." ++ key
    end in
  if is_sensitive lower key then
    match value with
    | VStr (c :: s) => dict_set key (VStr (masked_text (c :: s))) masked
    | _ => dict_set key value masked
    end
  else dict_set key (mask_sensitive_data lower value current_path) masked.

(** What is seen of a secret once it is masked: its last four
    characters if it has more than four, its length otherwise. *)
Definition shown (value : str) : str + nat :=
  if Nat.ltb 4 (length value)
  then inl (drop (length value - 4) value)
  else inr (length value).

End Configuration.

(** ** Plain text in a JSON string *)

Module PlainText.

(** The characters that a JSON string holds as they are, the double
    quote apart: no control character and no backslash. *)
Definition literal (c : char) : Prop := (32 <=? c) = true /\ c <> 92.

End PlainText.
(** ** [app/utils/config_manager.py]: the completion of a configuration *)

Module ConfigManager.

Import ResilientMemoryClient.

(** [deep_merge(base, override)], the function that
    [ensure_config_completeness] defines.  It is called on dicts only;
    for an [override] that is not a dict the definition gives [base]. *)
Fixpoint deep_merge (base : dict) (override : value) {struct override}
    : dict :=
  match override with
  | VDict o =>
      fold_left
        (fun result item =>
           let '(key, value) := item in
           match dict_get key result, value with
           | Some (VDict b), VDict _ =>
               dict_set key (VDict (deep_merge b value)) result
           | _, _ => dict_set key value result
           end)
        o base
  | _ => base
  end.

(** [ensure_config_completeness(config)]; [default_config] is the dict
    that [get_built_in_default_config()] returns, and [config.items()]
    exists for a dict only. *)
Definition ensure_config_completeness (default_config : dict)
    (config : value) : res value :=
  match config with
  | VDict _ => Ok (VDict (deep_merge default_config config))
  | _ => Raise (mk_exc AttributeError
                  (py "'" ++ type_name config
                   ++ py "' object has no attribute 'items'"))
  end.

(** What [deep_merge] leaves under a key that the override sets to
    [v], [b] being what the base has there: two dicts are merged, and
    anything else is replaced by [v]. *)
Definition merged_value (b : option value) (v : value) : value :=
  match b, v with
  | Some (VDict b'), VDict _ => VDict (deep_merge b' v)
  | _, _ => v
  end.

End ConfigManager.
(** ** More sample instances *)

Module Scenarios.

Import ResilientMemoryClient Server Endpoints Configuration Sample.

(** A store in which the caller's application is paused. *)
Definition paused_app : App := mk_App 2 1 (py "cursor") false.

Definition paused_store : DB :=
  mk_DB [sample_user] [paused_app] [sample_memory] [] [].

Definition paused_world : world := mk_world paused_store paused_store [].

(** A client that answers every call as it answers [search]. *)
Definition finds_two : backend := always_ok two_records.

Definition coffee_env : Env := sample_env (Some finds_two) None.

Definition deleting_env : Env := sample_env (Some (always_ok VNone)) None.



(** The keyword arguments of a plain call of [add]. *)
Definition plain_kwargs : dict := [(py "user_id", VStr u1)].

(** A backend whose first reply is a parse failure and whose second is
    the record added. *)
Definition recovering : backend :=
  scripted [Raise parse_failure; Ok ana_added] parse_failure.

Definition fenced_reply : str := pyq "{'facts': ['likes tea']}".

(** A process environment and a configuration that refers to it. *)
Definition sample_environ : environ :=
  {[ py "OPENAI_API_KEY" := py "sk-0123456789";
     py "OPENAI_API_BASE" := py "http://proxy.local/v1" ]}.

Definition sample_llm_config : dict :=
  [ (py "model", VStr (py "qwen-32b"));
    (py "openai_base_url", VStr (py "https://example.org/v1"));
    (py "api_key", VStr (py "env:OPENAI_API_KEY")) ].

Definition sample_config : dict :=
  [ (py "llm", VDict [ (py "provider", VStr (py "openai"));
                       (py "config", VDict sample_llm_config) ]) ].

(** A stored configuration that sets the version only, and a default
    with the two sections of the built-in one. *)
Definition stored_config : dict :=
  [ (py "mem0", VDict [(py "version", VStr (py "v2.0"))]) ].

Definition sample_default_config : dict :=
  [ (py "openmemory", VDict [(py "custom_instructions", VNone)]);
    (py "mem0",
     VDict [ (py "llm", VDict [ (py "provider", VStr (py "openai"));
                                (py "config", VDict sample_llm_config) ]);
             (py "version", VStr (py "v1.1")) ]) ].

End Scenarios.

(** * Properties *)

(** ** The decoder's bound on nesting is never what stops it *)

Section JsonFuel.

Import Json.

Lemma skip_ws_le s : (length (skip_ws s) <= length s)%nat.
Proof.
  induction s as [|c t IH]; cbn [skip_ws]; [lia|].
  destruct (is_ws c); cbn [length]; lia.
Qed.

Lemma span_digits_le s : (length (snd (span_digits s)) <= length s)%nat.
Proof.
  induction s as [|c t IH]; cbn [span_digits]; [cbn; lia|].
  destruct (is_digit c); [|cbn; lia].
  destruct (span_digits t) as [ds r]. cbn [snd length] in *. lia.
Qed.

Lemma scanstring_shorter n : forall s acc,
  (length s <= n)%nat -> shorter (scanstring s acc) s.
Proof.
  induction n as [|n IH]; intros s acc Hn.
  - destruct s; [exact I|cbn in Hn; lia].
  - destruct s as [|c t]; [exact I|]. cbn [scanstring].
    assert (Hrec : forall r acc', (length r <= length t)%nat ->
                                  shorter (scanstring r acc') (c :: t)).
    { intros r acc' Hr. specialize (IH r acc').
      cbn [length] in Hn.
      destruct (scanstring r acc'); cbn [shorter length] in *; try exact I.
      assert (length rest < length r)%nat by (apply IH; lia). lia. }
    destruct (c =? 34); [cbn; lia|].
    destruct (c =? 92).
    + destruct t as [|e t1]; [exact I|].
      destruct (e =? 117).
      * destruct t1 as [|h1 [|h2 [|h3 [|h4 t2]]]]; try exact I.
        destruct (hex4 h1 h2 h3 h4); [|exact I].
        destruct (is_high_surrogate n0); [|apply Hrec; cbn; lia].
        destruct t2 as [|b [|u' [|l1 [|l2 [|l3 [|l4 t3]]]]]];
          try (apply Hrec; cbn; lia).
        destruct ((b =? 92) && (u' =? 117)); [|apply Hrec; cbn; lia].
        destruct (hex4 l1 l2 l3 l4); [|exact I].
        destruct (is_low_surrogate n1); apply Hrec; cbn; lia.
      * destruct (unescape e); [apply Hrec; cbn; lia|exact I].
    + destruct (c <=? 31); [exact I|apply Hrec; lia].
Qed.

Lemma take_sign_le s : (length (snd (take_sign s)) <= length s)%nat.
Proof.
  unfold take_sign. destruct s as [|c t]; [cbn; lia|].
  destruct (c =? 45); cbn; lia.
Qed.

Lemma take_fraction_le s : (length (snd (take_fraction s)) <= length s)%nat.
Proof.
  unfold take_fraction. destruct s as [|p [|f t]]; try (cbn; lia).
  destruct ((p =? 46) && is_digit f); [|cbn; lia].
  pose proof (span_digits_le t). destruct (span_digits t). cbn in *. lia.
Qed.

Lemma take_exponent_le s : (length (snd (take_exponent s)) <= length s)%nat.
Proof.
  unfold take_exponent. destruct s as [|e t]; [cbn; lia|].
  destruct ((e =? 101) || (e =? 69)); [|cbn; lia].
  set (sp := match t with
             | x :: y => if (x =? 45) || (x =? 43) then ([x], y) else ([], t)
             | [] => ([], t)
             end).
  assert (Hs : (length (snd sp) <= length t)%nat).
  { unfold sp. destruct t as [|x y]; [cbn; lia|].
    destruct ((x =? 45) || (x =? 43)); cbn; lia. }
  destruct sp as [sg t']. cbn [snd] in Hs.
  pose proof (span_digits_le t') as Hd.
  destruct (span_digits t') as [[|d0 ds] r]; cbn [snd length] in *; lia.
Qed.

Lemma match_number_shorter s : shorter (match_number s) s.
Proof.
  unfold match_number.
  pose proof (take_sign_le s) as Hp.
  destruct (take_sign s) as [sign s1]. cbn [snd] in Hp.
  destruct s1 as [|d t]; [exact I|].
  destruct (negb (is_digit d)); [exact I|].
  set (ipr := if d =? 48 then ([d], t)
              else let '(ds, r) := span_digits t in (d :: ds, r)).
  assert (H1 : (length (snd ipr) <= length t)%nat).
  { unfold ipr. destruct (d =? 48); [cbn; lia|].
    pose proof (span_digits_le t). destruct (span_digits t). exact H. }
  destruct ipr as [ip r1]. cbn [snd] in H1.
  pose proof (take_fraction_le r1) as H2.
  destruct (take_fraction r1) as [fp r2]. cbn [snd] in H2.
  pose proof (take_exponent_le r2) as H3.
  destruct (take_exponent r2) as [ep r3]. cbn [snd] in H3.
  cbn [length] in Hp.
  destruct fp, ep; try (cbn [shorter]; lia).
  destruct (Nat.ltb int_max_str_digits (length ip)); [exact I|].
  cbn [shorter]. lia.
Qed.

Lemma startswith_length p s :
  startswith p s = true -> (length p <= length s)%nat.
Proof.
  revert s. induction p as [|a p IH]; intros s; [cbn; lia|].
  destruct s as [|b s]; [discriminate|]. cbn [startswith length].
  intros H. apply andb_true_iff in H as [_ H]. apply IH in H. lia.
Qed.

Lemma scan_atom_shorter s : shorter (scan_atom s) s.
Proof.
  unfold scan_atom.
  repeat match goal with
  | |- shorter (if startswith ?p s then _ else _) s =>
      let H := fresh "H" in
      destruct (startswith p s) eqn:H;
      [ apply startswith_length in H; cbn [shorter];
        rewrite length_drop; cbn in H |- *; lia | clear H ]
  end.
  apply match_number_shorter.
Qed.

Lemma shorter_le {A} (r : scan A) s s' :
  shorter r s -> (length s <= length s')%nat -> shorter r s'.
Proof. destruct r; cbn [shorter]; [lia|trivial|trivial]. Qed.

Lemma scan_shorter n :
  (forall s, shorter (scan_once n s) s)
  /\ (forall s acc, shorter (parse_pairs n s acc) s)
  /\ (forall s acc, shorter (parse_items n s acc) s).
Proof.
  induction n as [|m (IHs & IHp & IHi)]; [repeat split; intros; exact I|].
  repeat split.
  - intros s. cbn [scan_once]. destruct s as [|c t]; [exact I|].
    destruct (c =? 34).
    { pose proof (scanstring_shorter (length t) t [] (le_n _)) as H.
      destruct (scanstring t []); cbn [shorter length] in *; try exact I; lia. }
    pose proof (skip_ws_le t) as Hw.
    destruct (c =? 123).
    { destruct (skip_ws t) as [|c' r] eqn:Ew; [exact I|].
      destruct (c' =? 125); [cbn [shorter length] in *; lia|].
      eapply shorter_le; [apply IHp|]. cbn [length] in *. lia. }
    destruct (c =? 91).
    { destruct (skip_ws t) as [|c' r] eqn:Ew; [exact I|].
      destruct (c' =? 93); [cbn [shorter length] in *; lia|].
      eapply shorter_le; [apply IHi|]. cbn [length] in *. lia. }
    apply scan_atom_shorter.
  - intros s acc. cbn [parse_pairs]. destruct s as [|q t]; [exact I|].
    destruct (negb (q =? 34)); [exact I|].
    pose proof (scanstring_shorter (length t) t [] (le_n _)) as H.
    destruct (scanstring t []) as [k r| |]; try exact I. cbn [shorter] in H.
    pose proof (skip_ws_le r) as Hw.
    destruct (skip_ws r) as [|colon r1]; [exact I|].
    destruct (negb (colon =? 58)); [exact I|].
    pose proof (skip_ws_le r1) as Hw1.
    pose proof (IHs (skip_ws r1)) as H2.
    destruct (scan_once m (skip_ws r1)) as [v r2| |]; try exact I.
    cbn [shorter] in H2.
    pose proof (skip_ws_le r2) as Hw2.
    destruct (skip_ws r2) as [|x r3]; [exact I|].
    cbn [length] in *.
    destruct (x =? 125); [cbn [shorter length]; lia|].
    destruct (x =? 44); [|exact I].
    eapply shorter_le; [apply IHp|].
    pose proof (skip_ws_le r3). cbn [length]. lia.
  - intros s acc. cbn [parse_items].
    pose proof (IHs s) as H.
    destruct (scan_once m s) as [v r| |]; try exact I. cbn [shorter] in H.
    pose proof (skip_ws_le r) as Hw.
    destruct (skip_ws r) as [|x r1]; [exact I|].
    cbn [length] in *.
    destruct (x =? 93); [cbn [shorter]; lia|].
    destruct (x =? 44); [|exact I].
    eapply shorter_le; [apply IHi|].
    pose proof (skip_ws_le r1). lia.
Qed.

(** With more than twice the length of the input as bound, the scan
    does not depend on the bound. *)
Lemma scan_bound_irrelevant n : forall m,
  (forall s, (2 * length s < n)%nat -> (2 * length s < m)%nat ->
             scan_once n s = scan_once m s)
  /\ (forall s acc, (2 * length s < n)%nat -> (2 * length s < m)%nat ->
                    parse_pairs n s acc = parse_pairs m s acc)
  /\ (forall s acc, (2 * length s + 1 < n)%nat -> (2 * length s + 1 < m)%nat ->
                    parse_items n s acc = parse_items m s acc).
Proof.
  induction n as [|n IH]; intros m.
  { repeat split; intros; lia. }
  destruct m as [|m]; [repeat split; intros; lia|].
  destruct (IH m) as (IHs & IHp & IHi). clear IH.
  repeat split.
  - intros s Hn Hm. cbn [scan_once]. destruct s as [|c t]; [reflexivity|].
    destruct (c =? 34); [reflexivity|].
    pose proof (skip_ws_le t) as Hw. cbn [length] in *.
    destruct (c =? 123).
    { destruct (skip_ws t) as [|c' r] eqn:Ew; [reflexivity|].
      destruct (c' =? 125); [reflexivity|]. apply IHp; lia. }
    destruct (c =? 91); [|reflexivity].
    destruct (skip_ws t) as [|c' r] eqn:Ew; [reflexivity|].
    destruct (c' =? 93); [reflexivity|]. apply IHi; lia.
  - intros s acc Hn Hm. cbn [parse_pairs]. destruct s as [|q t]; [reflexivity|].
    destruct (negb (q =? 34)); [reflexivity|].
    pose proof (scanstring_shorter (length t) t [] (le_n _)) as H.
    destruct (scanstring t []) as [k r| |]; try reflexivity. cbn [shorter] in H.
    pose proof (skip_ws_le r) as Hw.
    destruct (skip_ws r) as [|colon r1]; [reflexivity|].
    destruct (negb (colon =? 58)); [reflexivity|].
    pose proof (skip_ws_le r1) as Hw1. cbn [length] in *.
    rewrite (IHs (skip_ws r1)) by lia.
    pose proof (proj1 (scan_shorter m) (skip_ws r1)) as H2.
    destruct (scan_once m (skip_ws r1)) as [v r2| |]; try reflexivity.
    cbn [shorter] in H2.
    pose proof (skip_ws_le r2) as Hw2.
    destruct (skip_ws r2) as [|x r3]; [reflexivity|].
    destruct (x =? 125); [reflexivity|].
    destruct (x =? 44); [|reflexivity].
    pose proof (skip_ws_le r3). cbn [length] in *. apply IHp; lia.
  - intros s acc Hn Hm. cbn [parse_items].
    rewrite (IHs s) by lia.
    pose proof (proj1 (scan_shorter m) s) as H.
    destruct (scan_once m s) as [v r| |]; try reflexivity. cbn [shorter] in H.
    pose proof (skip_ws_le r) as Hw.
    destruct (skip_ws r) as [|x r1]; [reflexivity|].
    destruct (x =? 93); [reflexivity|].
    destruct (x =? 44); [|reflexivity].
    pose proof (skip_ws_le r1). cbn [length] in *. apply IHi; lia.
Qed.

(** [json.loads] gives the same with any larger bound. *)
Lemma loads_bound_irrelevant s n :
  (2 * length s < n)%nat ->
  scan_once n (skip_ws s) = scan_once (2 * length s + 2) (skip_ws s).
Proof.
  intros H. pose proof (skip_ws_le s).
  apply (proj1 (scan_bound_irrelevant n (2 * length s + 2))); lia.
Qed.

End JsonFuel.



(** ** Strings *)

Section StringFacts.

Lemma lstrip_blank s : blank s -> lstrip s = [].
Proof.
  induction 1 as [|c t Hc _ IH]; simpl; [reflexivity|].
  now rewrite Hc.
Qed.

Lemma lstrip_blank_app w s : blank w -> lstrip (w ++ s) = lstrip s.
Proof.
  induction 1 as [|c t Hc _ IH]; simpl; [reflexivity|].
  now rewrite Hc.
Qed.

Lemma lstrip_solid c t : isspace c = false -> lstrip (c :: t) = c :: t.
Proof. intros H; simpl; now rewrite H. Qed.

Lemma blank_rev s : blank s -> blank (rev s).
Proof. unfold blank. intros H. now apply Forall_rev. Qed.

Lemma rstrip_app_blank s w : blank w -> rstrip (s ++ w) = rstrip s.
Proof.
  intros H. unfold rstrip. rewrite rev_app_distr.
  now rewrite lstrip_blank_app by now apply blank_rev.
Qed.

Lemma rstrip_solid s d : isspace d = false -> rstrip (s ++ [d]) = s ++ [d].
Proof.
  intros H. unfold rstrip. rewrite rev_app_distr. simpl.
  rewrite H. simpl. now rewrite rev_involutive.
Qed.

Lemma strip_blank s : blank s -> strip s = [].
Proof. intros H. unfold strip. now rewrite lstrip_blank. Qed.

(** Stripping a text that starts and ends with a non-space character,
    padded with white space, gives the text back. *)
Lemma strip_padded w1 c m d w3 :
  blank w1 -> blank w3 -> isspace c = false -> isspace d = false ->
  strip (w1 ++ (c :: m ++ [d]) ++ w3) = c :: m ++ [d].
Proof.
  intros H1 H3 Hc Hd. unfold strip.
  rewrite lstrip_blank_app by assumption.
  change ((c :: m ++ [d]) ++ w3) with (c :: (m ++ [d]) ++ w3).
  rewrite lstrip_solid by assumption.
  change (c :: (m ++ [d]) ++ w3) with ((c :: m ++ [d]) ++ w3).
  rewrite rstrip_app_blank by assumption.
  change (c :: m ++ [d]) with ((c :: m) ++ [d]).
  now apply rstrip_solid.
Qed.

Lemma startswith_app p s : startswith p (p ++ s) = true.
Proof.
  induction p as [|a p IH]; simpl; [reflexivity|].
  now rewrite N.eqb_refl.
Qed.

Lemma startswith_cons_same a p s :
  startswith (a :: p) (a :: s) = startswith p s.
Proof. cbn [startswith]. now rewrite N.eqb_refl. Qed.

Lemma startswith_cons_diff a p b s :
  (a =? b) = false -> startswith (a :: p) (b :: s) = false.
Proof. intros H. cbn [startswith]. now rewrite H. Qed.

(** A white-space character is neither a back quote nor a letter. *)
Lemma isspace_not c x :
  isspace c = true -> isspace x = false -> (x =? c) = false.
Proof.
  intros Hc Hx. destruct (x =? c) eqn:E; [|reflexivity].
  apply N.eqb_eq in E. subst. congruence.
Qed.

Lemma endswith_app p s : endswith p (s ++ p) = true.
Proof. unfold endswith. rewrite rev_app_distr. apply startswith_app. Qed.

Lemma take_app_suffix (s p : str) :
  take (length (s ++ p) - length p) (s ++ p) = s.
Proof.
  rewrite length_app. replace (length s + length p - length p)%nat with (length s) by lia.
  now rewrite take_app_length.
Qed.

End StringFacts.

(** ** [fix_llm_response] *)

Section Repair.

Import LLMResponseInterceptor.

(** Whatever is left empty by the cleaning steps gives the canonical
    result. *)
Lemma fix_llm_response_cleaned_empty s :
  strip (strip_fences (strip s)) = [] ->
  fix_llm_response s = Ok empty_facts.
Proof.
  intros H. unfold fix_llm_response.
  destruct (negb (py_truthy (VStr s)) || negb (py_truthy (VStr (strip s))));
    [reflexivity|].
  now rewrite H.
Qed.

Lemma fence_json_blank w2 :
  blank w2 -> strip (strip_fences (py "```json" ++ w2 ++ py "```")) = [].
Proof.
  intros H. unfold strip_fences.
  rewrite startswith_app. rewrite drop_app_length' by reflexivity.
  destruct H as [|c t Hc Ht].
  - reflexivity.
  - assert (Hs : startswith (py "```") ((c :: t) ++ py "```") = false).
    { change (py "```") with [96; 96; 96]. cbn [app].
      apply startswith_cons_diff. now apply isspace_not. }
    rewrite Hs, endswith_app, take_app_suffix.
    apply strip_blank. now constructor.
Qed.

Lemma fence_plain_blank w2 :
  blank w2 -> strip (strip_fences (py "```" ++ w2 ++ py "```")) = [].
Proof.
  intros H. unfold strip_fences.
  assert (Hj : startswith (py "```json") (py "```" ++ w2 ++ py "```") = false).
  { change (py "```json") with [96; 96; 96; 106; 115; 111; 110].
    change (py "```") with [96; 96; 96]. cbn [app].
    rewrite !startswith_cons_same.
    destruct H as [|c t Hc Ht]; cbn [app].
    - now apply startswith_cons_diff.
    - apply startswith_cons_diff. now apply isspace_not. }
  rewrite Hj, startswith_app. rewrite drop_app_length' by reflexivity.
  rewrite endswith_app, take_app_suffix.
  now apply strip_blank.
Qed.

Lemma fence_json_shape w2 :
  py "```json" ++ w2 ++ py "```"
  = 96 :: ([96; 96; 106; 115; 111; 110] ++ w2 ++ [96; 96]) ++ [96].
Proof.
  change (py "```json") with [96; 96; 96; 106; 115; 111; 110].
  change (py "```") with ([96; 96] ++ [96]).
  cbn [app]. do 7 f_equal. now rewrite <- app_assoc.
Qed.

Lemma fence_plain_shape w2 :
  py "```" ++ w2 ++ py "```" = 96 :: ([96; 96] ++ w2 ++ [96; 96]) ++ [96].
Proof.
  change (py "```") with ([96; 96] ++ [96]) at 2.
  change (py "```") with [96; 96; 96].
  cbn [app]. do 3 f_equal. now rewrite <- app_assoc.
Qed.

Lemma isspace_backquote : isspace 96 = false.
Proof. reflexivity. Qed.

(** C7.  An empty or white-space-only input, and an input that the
    removal of its code-fence markers leaves empty, gives exactly the
    canonical empty result: this holds for whatever the cleaning steps
    leave empty, and in particular for a blank text and for blank text
    wrapped in an opening fence (with or without the [json] tag) and a
    closing fence, with blank padding around. *)
Theorem fix_llm_response_blank_input :
  (forall s, strip (strip_fences (strip s)) = [] ->
             fix_llm_response s = Ok empty_facts)
  /\ (forall s, blank s -> fix_llm_response s = Ok empty_facts)
  /\ (forall w1 w2 w3, blank w1 -> blank w2 -> blank w3 ->
        fix_llm_response (w1 ++ (py "```json" ++ w2 ++ py "```") ++ w3)
          = Ok empty_facts
        /\ fix_llm_response (w1 ++ (py "```" ++ w2 ++ py "```") ++ w3)
          = Ok empty_facts).
Proof.
  split; [exact fix_llm_response_cleaned_empty|].
  split.
  - intros s H. apply fix_llm_response_cleaned_empty.
    rewrite (strip_blank s H). reflexivity.
  - intros w1 w2 w3 H1 H2 H3. split.
    + apply fix_llm_response_cleaned_empty.
      rewrite fence_json_shape.
      rewrite (strip_padded w1 96 _ 96 w3 H1 H3 isspace_backquote isspace_backquote).
      rewrite <- fence_json_shape.
      now apply fence_json_blank.
    + apply fix_llm_response_cleaned_empty.
      rewrite fence_plain_shape.
      rewrite (strip_padded w1 96 _ 96 w3 H1 H3 isspace_backquote isspace_backquote).
      rewrite <- fence_plain_shape.
      now apply fence_plain_blank.
Qed.

End Repair.

Section RepairValidity.

Import LLMResponseInterceptor.

Lemma empty_facts_parses :
  Json.loads empty_facts = Json.Parsed (VDict [(py "facts", VList [])]).
Proof. vm_compute. reflexivity. Qed.

(** Whenever [fix_llm_response] returns, what it returns is a JSON
    document. *)
Lemma fix_llm_response_returns_json s r :
  fix_llm_response s = Ok r -> exists v, Json.loads r = Json.Parsed v.
Proof.
  unfold fix_llm_response.
  destruct (negb (py_truthy (VStr s)) || negb (py_truthy (VStr (strip s)))).
  { intros [= <-]. eexists. exact empty_facts_parses. }
  destruct (negb (py_truthy (VStr (strip (strip_fences (strip s)))))).
  { intros [= <-]. eexists. exact empty_facts_parses. }
  destruct (Json.loads (strip (strip_fences (strip s)))) as [v| |d] eqn:E1.
  - intros [= <-]. eauto.
  - destruct (Json.loads (wrap_as_facts (strip (strip_fences (strip s)))))
      as [v| |d] eqn:E2; intros [= <-]; eauto using empty_facts_parses.
  - discriminate.
Qed.

(** It returns unless the decoder stops on an over-long integer at the
    first parse. *)
Lemma fix_llm_response_returns s :
  (forall d, Json.loads (strip (strip_fences (strip s))) <> Json.IntLimitError d) ->
  exists r, fix_llm_response s = Ok r.
Proof.
  intros H. unfold fix_llm_response.
  destruct (negb (py_truthy (VStr s)) || negb (py_truthy (VStr (strip s))));
    [eauto|].
  destruct (negb (py_truthy (VStr (strip (strip_fences (strip s))))));
    [eauto|].
  destruct (Json.loads (strip (strip_fences (strip s)))) as [v| |d] eqn:E1.
  - eauto.
  - destruct (Json.loads (wrap_as_facts (strip (strip_fences (strip s)))));
      eauto.
  - now destruct (H d).
Qed.

(** The wrapper installed around the LLM client absorbs every
    [Exception], that of [fix_llm_response] included: what it returns is
    a JSON document. *)
Lemma patched_generate_response_json original :
  (forall e, original = Raise e -> is_Exception e = true) ->
  exists r v, patched_generate_response original = Ok r
              /\ Json.loads r = Json.Parsed v.
Proof.
  intros H. unfold patched_generate_response.
  destruct original as [response|e].
  - destruct (fix_llm_response_any response) as [r|e] eqn:Ef.
    + assert (exists v, Json.loads r = Json.Parsed v) as [v Hv].
      { unfold fix_llm_response_any in Ef. destruct response;
          try (destruct (py_truthy _); [discriminate|];
               injection Ef as <-; eexists; exact empty_facts_parses).
        exact (fix_llm_response_returns_json _ _ Ef). }
      eauto.
    + assert (He : is_Exception e = true).
      { unfold fix_llm_response_any in Ef. destruct response;
          try (destruct (py_truthy _); [injection Ef as <-; reflexivity|discriminate]).
        unfold fix_llm_response in Ef.
        repeat match type of Ef with
        | (if ?b then _ else _) = _ => destruct b; [discriminate|]
        end.
        destruct (Json.loads _); [discriminate| |injection Ef as <-; reflexivity].
        destruct (Json.loads _); discriminate. }
      rewrite He. eauto using empty_facts_parses.
  - rewrite (H e eq_refl). eauto using empty_facts_parses.
Qed.

(** C6.  On an input that is one integer numeral of 4301 digits the
    first [json.loads] raises a [ValueError] that is not a
    [JSONDecodeError]; the handler of the first [try] does not catch it,
    so [fix_llm_response] raises instead of returning a JSON text. *)
Theorem fix_llm_response_long_integer_raises :
  fix_llm_response (List.repeat 49 4301)
  = Raise (mk_exc ValueError (Json.int_limit_message 4301)).
Proof. vm_compute. reflexivity. Qed.

End RepairValidity.

(** ** [ResilientMemoryClient] *)

Section DictFacts.

Lemma str_eqb_refl k : str_eqb k k = true.
Proof. unfold str_eqb. now apply bool_decide_eq_true. Qed.

Lemma dict_has_set_same k v d : dict_has k (dict_set k v d) = true.
Proof.
  unfold dict_has.
  induction d as [|[k' v'] d IH]; simpl.
  - now rewrite str_eqb_refl.
  - destruct (str_eqb k k') eqn:E; simpl.
    + now rewrite str_eqb_refl.
    + now rewrite E.
Qed.

Lemma dict_has_set_other k k' v d :
  dict_has k d = true -> dict_has k (dict_set k' v d) = true.
Proof.
  unfold dict_has.
  induction d as [|[k0 v0] d IH]; simpl; [discriminate|].
  destruct (str_eqb k k0) eqn:E.
  - intros _. destruct (str_eqb k' k0) eqn:E'; simpl.
    + apply bool_decide_eq_true in E, E'. subst. now rewrite str_eqb_refl.
    + now rewrite E.
  - intros H. destruct (str_eqb k' k0) eqn:E'; simpl.
    + apply bool_decide_eq_true in E'. subst k0. now rewrite E.
    + rewrite E. now apply IH.
Qed.

End DictFacts.

Section Resilient.

Import ResilientMemoryClient.

Lemma ensure_structure_results d :
  dict_has (py "results") (ensure_structure d) = true.
Proof.
  unfold ensure_structure.
  destruct (dict_has (py "results") d) eqn:E1; cbn [negb].
  - destruct (negb (dict_has (py "relations") d)); [|assumption].
    now apply dict_has_set_other.
  - destruct (negb (dict_has (py "relations")
                      (dict_set (py "results") (VList []) d)));
      [apply dict_has_set_other|]; apply dict_has_set_same.
Qed.

Lemma ensure_structure_relations d :
  dict_has (py "relations") (ensure_structure d) = true.
Proof.
  unfold ensure_structure.
  set (d1 := if negb (dict_has (py "results") d) then _ else d).
  destruct (dict_has (py "relations") d1) eqn:E; cbn [negb].
  - assumption.
  - apply dict_has_set_same.
Qed.


Lemma none_is_no_json_error :
  is_json_error (py "Memory client returned None") = false.
Proof. vm_compute. reflexivity. Qed.

Lemma direct_attempt_none B text kwargs tr :
  B tr (add_call text kwargs) = Ok VNone ->
  direct_attempt B text kwargs tr
  = (Raise (mk_exc PyException (py "Memory client returned None")),
     tr ++ [add_call text kwargs]).
Proof.
  intros H. unfold direct_attempt, except_Exception, catch, bind, invoke.
  rewrite H. cbn [raise is_Exception exc_cls exc_msg].
  now rewrite none_is_no_json_error.
Qed.

Lemma direct_attempt_other B text kwargs tr v :
  B tr (add_call text kwargs) = Ok v ->
  v <> VNone -> (forall d, v <> VDict d) ->
  direct_attempt B text kwargs tr
  = (Ok (Return v), tr ++ [add_call text kwargs]).
Proof.
  intros H Hn Hd. unfold direct_attempt, except_Exception, catch, bind, invoke.
  rewrite H. destruct v; try reflexivity; [now destruct Hn | now destruct (Hd entries)].
Qed.

Lemma direct_attempt_raise B text kwargs tr e :
  B tr (add_call text kwargs) = Raise e ->
  direct_attempt B text kwargs tr
  = (if is_Exception e && is_json_error (exc_msg e)
     then Ok Fallback else Raise e,
     tr ++ [add_call text kwargs]).
Proof.
  intros H. unfold direct_attempt, except_Exception, catch, bind, invoke.
  rewrite H. destruct (is_Exception e); cbn [andb raise]; [|reflexivity].
  now destruct (is_json_error (exc_msg e)).
Qed.

(** C9.  When the wrapped client's [add] returns [None] on the direct
    attempt, [add] raises an exception whose message is
    ['Memory client returned None']; the message matches none of the
    parse-failure keywords, and the trace shows the direct call alone:
    no fallback strategy is tried. *)
Theorem add_none_reply_raises B text kwargs tr :
  B tr (add_call text kwargs) = Ok VNone ->
  add B text kwargs tr
  = (Raise (mk_exc PyException (py "Memory client returned None")),
     tr ++ [add_call text kwargs])
  /\ is_json_error (py "Memory client returned None") = false.
Proof.
  intros H. split; [|exact none_is_no_json_error].
  unfold add, bind. now rewrite (direct_attempt_none _ _ _ _ H).
Qed.

Lemma add_none_reply_raises_witness :
  Sample.always_ok VNone [] (add_call (py "My name is Ana") [(py "user_id", VStr (py "u1"))]) = Ok VNone
  /\ add (Sample.always_ok VNone) (py "My name is Ana") [(py "user_id", VStr (py "u1"))] []
     = (Raise (mk_exc PyException (py "Memory client returned None")),
        [] ++ [add_call (py "My name is Ana") [(py "user_id", VStr (py "u1"))]]).
Proof.
  split; [reflexivity|].
  apply (add_none_reply_raises (Sample.always_ok VNone)). reflexivity.
Defined.


(** The loop does not raise when the backend raises nothing outside
    [Exception]. *)
Lemma try_strategies_returns B text kwargs sts :
  (forall tr c e, B tr c = Raise e -> is_Exception e = true) ->
  forall tr, exists r tr', try_strategies B text kwargs sts tr = (Ok r, tr').
Proof.
  intros HB. induction sts as [|st rest IH]; intros tr; cbn [try_strategies].
  - unfold ret. eauto.
  - unfold bind, except_Exception, catch, invoke.
    destruct (B tr (fallback_call text kwargs st)) as [r|e] eqn:E.
    + destruct r; cbn [ret py_truthy]; try apply IH.
      destruct entries; cbn [ret]; [apply IH|]. eauto.
    + rewrite (HB _ _ _ E). cbn [ret]. apply IH.
Qed.

(** When every round fails the loop runs to its end, having tried the
    strategies in their order. *)
Lemma try_strategies_exhausted B text kwargs sts n :
  (forall tr c, (n < length tr)%nat -> failed (B tr c) = true) ->
  forall tr, (n < length tr)%nat ->
  try_strategies B text kwargs sts tr
  = (Ok None, tr ++ map (fallback_call text kwargs) sts).
Proof.
  intros HB. induction sts as [|st rest IH]; intros tr Hn; cbn [try_strategies map].
  - unfold ret. now rewrite app_nil_r.
  - unfold bind, except_Exception, catch, invoke.
    specialize (HB tr (fallback_call text kwargs st) Hn).
    assert (Hl : (n < length (tr ++ [fallback_call text kwargs st]))%nat)
      by (rewrite length_app; lia).
    destruct (B tr (fallback_call text kwargs st)) as [r|e]; cbn [failed] in HB.
    + replace (tr ++ fallback_call text kwargs st :: map (fallback_call text kwargs) rest)
        with ((tr ++ [fallback_call text kwargs st]) ++ map (fallback_call text kwargs) rest)
        by (now rewrite <- app_assoc).
      destruct r; cbn [ret py_truthy]; try (apply IH; exact Hl).
      destruct entries; cbn [ret]; [apply IH; exact Hl|].
      discriminate HB.
    + rewrite HB. cbn [ret].
      rewrite IH by exact Hl. now rewrite <- app_assoc.
Qed.

(** A failure of the direct attempt whose message matches no
    parse-failure keyword is raised again as it is, after the direct
    call alone. *)
Lemma add_other_error_reraised B text kwargs tr e :
  B tr (add_call text kwargs) = Raise e ->
  is_json_error (exc_msg e) = false ->
  add B text kwargs tr = (Raise e, tr ++ [add_call text kwargs]).
Proof.
  intros H Hj. unfold add, bind.
  rewrite (direct_attempt_raise _ _ _ _ _ H), Hj.
  now rewrite andb_false_r.
Qed.

(** A parse failure of the direct attempt is absorbed when the
    [metadata] keyword is a mapping or absent, so that the list of
    strategies can be built. *)
Lemma add_parse_error_absorbed B text kwargs tr e sts :
  B tr (add_call text kwargs) = Raise e ->
  is_Exception e = true ->
  is_json_error (exc_msg e) = true ->
  fallback_strategies kwargs = Ok sts ->
  (forall tr c e, B tr c = Raise e -> is_Exception e = true) ->
  exists v tr', add B text kwargs tr = (Ok v, tr').
Proof.
  intros H He Hj Hs HB. unfold add, bind.
  rewrite (direct_attempt_raise _ _ _ _ _ H), He, Hj. cbn [andb].
  rewrite Hs. cbn [lift].
  destruct (try_strategies_returns B text kwargs sts HB
              (tr ++ [add_call text kwargs])) as (r & tr' & ->).
  destruct r as [v|]; cbn [ret]; [eauto|].
  unfold except_Exception, catch, bind, invoke.
  destruct (B tr' (emergency_call text kwargs)) as [v|e'] eqn:E'.
  - destruct (py_truthy v); cbn [ret]; eauto.
  - rewrite (HB _ _ _ E'). cbn [ret]. eauto.
Qed.

(** When every later call fails as well, the canonical empty result
    with its diagnostic payload is returned, after the four strategies
    in their order and the emergency call. *)
Lemma add_exhausted B text kwargs tr e sts :
  B tr (add_call text kwargs) = Raise e ->
  is_Exception e = true ->
  is_json_error (exc_msg e) = true ->
  fallback_strategies kwargs = Ok sts ->
  (forall tr' c, (length tr < length tr')%nat -> failed (B tr' c) = true) ->
  add B text kwargs tr
  = (Ok (exhausted_result text kwargs),
     tr ++ [add_call text kwargs] ++ map (fallback_call text kwargs) sts
        ++ [emergency_call text kwargs])
  /\ length sts = 4%nat.
Proof.
  intros H He Hj Hs HB. split.
  - unfold add, bind.
    rewrite (direct_attempt_raise _ _ _ _ _ H), He, Hj. cbn [andb].
    rewrite Hs. cbn [lift].
    rewrite (try_strategies_exhausted B text kwargs sts (length tr) HB)
      by (rewrite length_app; cbn; lia).
    unfold except_Exception, catch, bind, invoke.
    set (tr1 := (tr ++ [add_call text kwargs]) ++ map (fallback_call text kwargs) sts).
    assert (Hl : (length tr < length tr1)%nat)
      by (unfold tr1; rewrite !length_app; cbn; lia).
    specialize (HB tr1 (emergency_call text kwargs) Hl).
    replace (tr ++ [add_call text kwargs] ++ map (fallback_call text kwargs) sts
                ++ [emergency_call text kwargs])
      with (tr1 ++ [emergency_call text kwargs])
      by (unfold tr1; now rewrite <- !app_assoc).
    destruct (B tr1 (emergency_call text kwargs)) as [v|e']; cbn [failed] in HB.
    + apply negb_true_iff in HB. rewrite HB. reflexivity.
    + rewrite HB. reflexivity.
  - unfold fallback_strategies in Hs.
    destruct (unpack_mapping _); [|discriminate].
    now injection Hs as <-.
Qed.

(** C4.  With [metadata=None] among the keyword arguments and a direct
    attempt that fails with a parse error, [add] raises a [TypeError]:
    the list of fallback strategies cannot be built, and no fallback is
    tried. *)
Theorem add_metadata_none_raises :
  add (Sample.always_raise Sample.parse_failure) (py "My name is Ana")
      [(py "user_id", VStr (py "u1")); (py "metadata", VNone)] []
  = (Raise (mk_exc TypeError (py "'NoneType' object is not a mapping")),
     [add_call (py "My name is Ana")
        [(py "user_id", VStr (py "u1")); (py "metadata", VNone)]])
  /\ is_json_error (exc_msg Sample.parse_failure) = true.
Proof. split; vm_compute; reflexivity. Qed.





End Resilient.

(** ** [filter_accessible_memories] *)

Section AccessFilter.

Import ResilientMemoryClient Server.

Variable E : Env.
Variable db : DB.
Variable app_id : UUID.

Lemma for_each_invariant {A B} (f : B -> A -> res B) (P : B -> Prop) l :
  (forall acc x acc', In x l -> P acc -> f acc x = Ok acc' -> P acc') ->
  forall acc r, P acc -> for_each f l acc = Ok r -> P r.
Proof.
  induction l as [|x t IH]; intros Hf acc r Hacc; cbn [for_each].
  - now intros [= <-].
  - destruct (f acc x) as [acc'|e] eqn:Ef; [|discriminate].
    apply IH.
    + intros a y a' Hy. apply Hf. now right.
    + eapply Hf; eauto. now left.
Qed.










(** An id that is not a string is another matter: [uuid.UUID] then
    raises outside [ValueError], the outer handler takes over and the
    whole batch comes back empty. *)
Lemma accept_candidate_non_string d idv acc :
  dict_get (py "id") d = Some idv ->
  (forall s, idv <> VStr s) ->
  exists e, accept_candidate E db app_id (VDict d) acc = Raise e.
Proof.
  intros Hd Hs. unfold accept_candidate. cbn [py_getitem]. rewrite Hd.
  destruct idv; cbn [uuid_of is_ValueError exc_cls]; eauto.
  now destruct (Hs s).
Qed.


End AccessFilter.

(** ** [handle_sse] *)

Section Sessions.

Import Server.

(** A handler that returns swallows every [Exception]. *)
Lemma except_Exception_swallows {S A} (c : M S A) (a : A) s :
  match fst (except_Exception c (fun _ => ret a) s) with
  | Ok _ => True
  | Raise e => is_Exception e = false
  end.
Proof.
  unfold except_Exception, catch.
  destruct (c s) as [[x|e] s']; cbn; [exact I|].
  destruct (is_Exception e) eqn:He; cbn; [exact I|exact He].
Qed.

(** C8.  Whatever happens between the binding of the identity and the
    cleanup (the streams cannot be set up, the MCP server completes,
    raises a [RuntimeError] or any other exception, the handler is
    cancelled, other sessions come and go meanwhile), when [handle_sse]
    is left the connection identifier is not in the set of active
    connections and both context variables hold the value they had
    before the call; the handler itself raises nothing of class
    [Exception]. *)
Theorem handle_sse_cleanup T uid client_name s :
  let out := handle_sse T uid client_name s in
  (connection_id_of uid client_name (S (connection_counter s))
     ∉ active_connections (snd out))
  /\ user_id_var (snd out) = user_id_var s
  /\ client_name_var (snd out) = client_name_var s
  /\ match fst out with
     | Ok _ => True
     | Raise e => is_Exception e = false
     end.
Proof.
  unfold handle_sse, bind, modify, get, user_id_var_set, client_name_var_set,
    finally, user_id_var_reset, client_name_var_reset.
  cbn [connection_counter active_connections user_id_var client_name_var].
  match goal with
  | |- context [except_Exception ?c ?h ?s0] =>
      pose proof (except_Exception_swallows c tt s0) as Hr;
      destruct (except_Exception c h s0) as [r s3]
  end.
  cbn [fst snd active_connections user_id_var client_name_var] in *.
  repeat split; [|exact Hr].
  intros Hin. apply elem_of_difference in Hin as [_ Hn].
  apply Hn. now apply elem_of_singleton.
Qed.

End Sessions.

(** ** Frame properties of the session helpers *)

Section Identity.

Import ResilientMemoryClient Server.

Variable E : Env.

Lemma stable_ret {A} P (a : A) : stable P (ret a).
Proof. intros w H. exact H. Qed.

Lemma stable_raise {A} P e : stable P (@raise world A e).
Proof. intros w H. exact H. Qed.

Lemma stable_bind {A B} P (m : M world A) (k : A -> M world B) :
  stable P m -> (forall a, stable P (k a)) -> stable P (bind m k).
Proof.
  intros Hm Hk w H. unfold bind. specialize (Hm w H).
  destruct (m w) as [[a|e] w']; cbn [snd] in *; [now apply Hk|exact Hm].
Qed.

Lemma stable_catch {A} P (m : M world A) h :
  stable P m -> (forall e, stable P (h e)) -> stable P (catch m h).
Proof.
  intros Hm Hh w H. unfold catch. specialize (Hm w H).
  destruct (m w) as [[a|e] w']; cbn [snd] in *; [exact Hm|now apply Hh].
Qed.

Lemma stable_modify P (f : world -> world) :
  (forall w, P w -> P (f w)) -> stable P (modify f).
Proof. intros Hf w H. now apply Hf. Qed.

Lemma stable_db_view P : stable P db_view.
Proof. intros w H. exact H. Qed.

Lemma stable_db_commit T C : stable (untouched T C) (db_commit E).
Proof.
  unfold db_commit. destruct (commit_fault E); [apply stable_raise|].
  apply stable_modify. intros w (H1 & H2 & H3). repeat split; assumption.
Qed.

Lemma stable_db_rollback T C : stable (untouched T C) db_rollback.
Proof.
  apply stable_modify. intros w (H1 & H2 & H3). repeat split; assumption.
Qed.

Lemma stable_get_or_create_user T C user_id :
  stable (untouched T C) (get_or_create_user E user_id).
Proof.
  unfold get_or_create_user. apply stable_bind; [apply stable_db_view|].
  intros db. destruct (find_user db user_id); [apply stable_ret|].
  apply stable_catch.
  - cbv zeta. apply stable_bind.
    + apply stable_modify. intros w (H1 & H2 & H3). repeat split; assumption.
    + intros _. apply stable_bind; [apply stable_db_commit|].
      intros _. apply stable_ret.
  - intros e. destruct (is_IntegrityError e); [|apply stable_raise].
    apply stable_bind; [apply stable_db_rollback|]. intros _.
    apply stable_bind; [apply stable_db_view|]. intros db'.
    destruct (find_user db' user_id); [apply stable_ret|apply stable_raise].
Qed.

Lemma stable_get_or_create_app T C user app_id :
  stable (untouched T C) (get_or_create_app E user app_id).
Proof.
  unfold get_or_create_app. apply stable_bind; [apply stable_db_view|].
  intros db. destruct (find_app db (user_pk user) app_id); [apply stable_ret|].
  apply stable_catch.
  - cbv zeta. apply stable_bind.
    + apply stable_modify. intros w (H1 & H2 & H3). repeat split; assumption.
    + intros _. apply stable_bind; [apply stable_db_commit|].
      intros _. apply stable_ret.
  - intros e. destruct (is_IntegrityError e); [|apply stable_raise].
    apply stable_bind; [apply stable_db_rollback|]. intros _.
    apply stable_bind; [apply stable_db_view|]. intros db'.
    destruct (find_app db' (user_pk user) app_id);
      [apply stable_ret|apply stable_raise].
Qed.

(** [get_user_and_app] makes no call on the memory client and touches
    the tables of users and applications only. *)
Lemma stable_get_user_and_app T C user_id app_id :
  stable (untouched T C) (get_user_and_app E user_id app_id).
Proof.
  unfold get_user_and_app.
  apply stable_bind; [apply stable_get_or_create_user|]. intros user.
  apply stable_bind; [apply stable_get_or_create_app|]. intros app.
  apply stable_ret.
Qed.

Lemma untouched_fresh w :
  untouched (tables (store w)) (calls w) (fresh_session w).
Proof. repeat split. Qed.

Lemma get_user_and_app_frame u c w r w1 :
  get_user_and_app E u c (fresh_session w) = (r, w1) ->
  untouched (tables (store w)) (calls w) w1.
Proof.
  intros H.
  pose proof (stable_get_user_and_app _ _ u c _ (untouched_fresh w)) as Hs.
  now rewrite H in Hs.
Qed.

(** A tool body run in a session: the session is closed on every
    outcome, and an [Exception] becomes an error text. *)
Lemma in_session_fst (body : M world reply) label w :
  fst (except_Exception (SessionLocal ;;; finally body db_close)
         (fun e => ret (Text (label ++ exc_msg e))) w)
  = match fst (body (fresh_session w)) with
    | Ok x => Ok x
    | Raise e => if is_Exception e then Ok (Text (label ++ exc_msg e))
                 else Raise e
    end.
Proof.
  unfold except_Exception, catch, bind, finally, SessionLocal, db_close, modify.
  destruct (body (fresh_session w)) as [[x|e] w2]; [reflexivity|].
  cbn. now destruct (is_Exception e).
Qed.

Lemma in_session_snd (body : M world reply) label w :
  snd (except_Exception (SessionLocal ;;; finally body db_close)
         (fun e => ret (Text (label ++ exc_msg e))) w)
  = fresh_session (snd (body (fresh_session w))).
Proof.
  unfold except_Exception, catch, bind, finally, SessionLocal, db_close, modify.
  destruct (body (fresh_session w)) as [[x|e] w2]; [reflexivity|].
  cbn. now destruct (is_Exception e).
Qed.

(** The tools do nothing to the world before the prelude lets them
    through. *)
Lemma tool_prelude_cases uid cn k w :
  (exists msg, tool_prelude E uid cn k w = (Ok (Text msg), w))
  \/ (exists u c cl, uid = Some u /\ cn = Some c /\ u <> [] /\ c <> []
                     /\ memory_client E = Some cl
                     /\ tool_prelude E uid cn k = k u c cl).
Proof.
  unfold tool_prelude.
  destruct uid as [u|]; [|left; eauto].
  destruct cn as [c|]; [|left; eauto].
  destruct u as [|a u]; [left; eauto|].
  destruct c as [|b c]; [left; eauto|].
  cbn [unset orb].
  destruct (memory_client E) as [cl|]; [|left; eauto].
  right. exists (a :: u), (b :: c), cl. repeat split; congruence.
Qed.

Lemma stable_finally {A} P (m : M world A) f :
  stable P m -> stable P f -> stable P (finally m f).
Proof.
  intros Hm Hf w H. unfold finally. specialize (Hm w H).
  destruct (m w) as [r w']. cbn [snd] in Hm. specialize (Hf w' Hm).
  now destruct (f w') as [[x|e] w''].
Qed.

Lemma stable_except_Exception {A} P (m : M world A) h :
  stable P m -> (forall e, stable P (h e)) -> stable P (except_Exception m h).
Proof.
  intros Hm Hh. apply stable_catch; [exact Hm|].
  intros e. destruct (is_Exception e); [apply Hh|apply stable_raise].
Qed.

Lemma stable_attempt {A} P (m : M world A) : stable P m -> stable P (attempt m).
Proof.
  intros Hm w H. unfold attempt. specialize (Hm w H). now destruct (m w).
Qed.

Lemma stable_lift {A} P (r : res A) : stable P (lift r).
Proof. intros w H. exact H. Qed.

Lemma stable_for_each_m {A B} P (f : B -> A -> M world B) l :
  (forall acc x, stable P (f acc x)) -> forall acc, stable P (for_each_m f l acc).
Proof.
  intros Hf. induction l as [|x t IH]; intros acc; cbn [for_each_m].
  - apply stable_ret.
  - apply stable_bind; [apply Hf|]. intros acc'. apply IH.
Qed.

Lemma stable_tool_prelude P uid cn k :
  (forall u c cl, stable P (k u c cl)) -> stable P (tool_prelude E uid cn k).
Proof.
  intros Hk. unfold tool_prelude.
  destruct uid, cn; try apply stable_ret.
  destruct (unset _ || unset _); [apply stable_ret|].
  destruct (memory_client E); [apply Hk|apply stable_ret].
Qed.

Lemma logs_fresh L w : logs_are L w -> logs_are L (fresh_session w).
Proof. intros [H1 H2]. split; exact H2. Qed.

Lemma logs_db_update L f :
  (forall db, access_logs (f db) = access_logs db) ->
  stable (logs_are L) (db_update f).
Proof.
  intros Hf. apply stable_modify. intros w [H1 H2]. split; [|exact H2].
  cbn. now rewrite Hf.
Qed.

Lemma logs_db_commit L : stable (logs_are L) (db_commit E).
Proof.
  unfold db_commit. destruct (commit_fault E); [apply stable_raise|].
  apply stable_modify. intros w [H1 H2]. split; exact H1.
Qed.

Lemma logs_get_user_and_app L user_id app_id :
  stable (logs_are L) (get_user_and_app E user_id app_id).
Proof.
  unfold get_user_and_app, get_or_create_user, get_or_create_app.
  repeat (first
    [ apply stable_bind; [|intros ?]
    | apply stable_db_view
    | apply stable_ret
    | apply stable_raise
    | apply logs_db_commit
    | apply logs_db_update; reflexivity
    | apply stable_modify; exact (logs_fresh L)
    | apply stable_catch; [|intros ?]
    | match goal with
      | |- stable _ (match ?x with _ => _ end) => destruct x
      | |- stable _ (if ?x then _ else _) => destruct x
      | |- stable _ (let _ := _ in _) => cbv zeta
      end ]).
Qed.

Lemma logs_track_result L user app x result :
  stable (logs_are L) (track_result E user app x result).
Proof.
  unfold track_result.
  repeat (first
    [ apply stable_bind; [|intros ?]
    | apply stable_db_view
    | apply stable_ret
    | apply stable_lift
    | apply logs_db_update; reflexivity
    | match goal with
      | |- stable _ (match ?x with _ => _ end) => destruct x
      | |- stable _ (if ?x then _ else _) => destruct x
      end ]).
Qed.

(** [add_memories] never writes to the access log. *)
Lemma add_memories_no_audit uid cn text metadata infer w :
  access_logs (store (snd (add_memories E uid cn text metadata infer w)))
  = access_logs (store w).
Proof.
  unfold add_memories.
  match goal with
  | |- context [tool_prelude E uid cn ?k w] =>
      destruct (tool_prelude_cases uid cn k w)
        as [(msg & ->)|(u & c & cl & -> & -> & Hu & Hc & Hcl & ->)];
        [reflexivity|]
  end.
  rewrite in_session_snd. cbn [fresh_session store].
  match goal with
  | |- access_logs (store (snd (?body _))) = _ =>
      assert (H : stable (logs_are (access_logs (store w))) body)
  end.
  { apply stable_bind; [apply logs_get_user_and_app|]. intros [user app].
    destruct (negb (app_is_active app)); [apply stable_ret|].
    destruct (Json.loads metadata); [|apply stable_ret|apply stable_raise].
    apply stable_bind; [apply stable_lift|]. intros md.
    apply stable_bind.
    { apply stable_attempt. intros w0 [H1 H2]. split; assumption. }
    intros [r|e]; [|destruct (is_Exception e); [apply stable_ret|apply stable_raise]].
    destruct r; try apply stable_ret.
    destruct (dict_get (py "results") entries); [|apply stable_ret].
    apply stable_bind; [apply stable_lift|]. intros _.
    apply stable_bind; [apply stable_lift|]. intros l.
    apply stable_bind; [apply stable_for_each_m; intros; apply logs_track_result|].
    intros _. apply stable_bind; [apply logs_db_commit|]. intros _.
    apply stable_ret. }
  apply (H (fresh_session w)). split; reflexivity.
Qed.

End Identity.

(** ** The tools *)

Section Tools.

Import ResilientMemoryClient Server.

Variable E : Env.
Variables (u c : str) (cl : backend).
Hypothesis Hu : u <> [].
Hypothesis Hc : c <> [].
Hypothesis Hcl : memory_client E = Some cl.

Lemma tool_prelude_ready k : tool_prelude E (Some u) (Some c) k = k u c cl.
Proof.
  unfold tool_prelude. rewrite Hcl.
  destruct u; [now destruct Hu|]. destruct c; [now destruct Hc|]. reflexivity.
Qed.


(** Symbolic execution of a tool body: the monad is unfolded and the
    hypotheses about the environment are used where they apply. *)
Ltac step :=
  cbv beta iota zeta delta
    [bind attempt client_call db_view get ret lift raise
     except_ValueError catch];
  cbn [session calls store after_call fst snd].




Lemma delete_rows_return user ids : forall w,
  fst (for_each_m (delete_row E user) ids tt w) = Ok tt.
Proof.
  induction ids as [|i ids IH]; intros w; cbn [for_each_m]; [reflexivity|].
  unfold bind at 1. unfold delete_row at 1. step.
  destruct (find_memory (session w) i); unfold db_update, modify; step; apply IH.
Qed.


Lemma except_bind_ret {S A B} (v : A) (k : A -> M S B) h s :
  except_Exception (bind (ret v) k) h s = except_Exception (k v) h s.
Proof. reflexivity. Qed.







End Tools.

(** ** JSON-encoded arguments *)

Section Arguments.

Import ResilientMemoryClient Server.

Variable E : Env.


Ltac step :=
  cbv beta iota zeta delta
    [bind attempt client_call db_view get ret lift raise
     except_ValueError catch];
  cbn [session calls store after_call fst snd].






Section Ready.

Variables (u c : str) (cl : backend).
Hypothesis Hu : u <> [].
Hypothesis Hc : c <> [].
Hypothesis Hcl : memory_client E = Some cl.





End Ready.


End Arguments.

(** ** Runs on the sample instances *)

Section Runs.

Import LLMResponseInterceptor ResilientMemoryClient Server Sample.



Lemma fix_llm_response_blank_input_witness :
  blank (py " ") /\ blank [10] /\ blank []
  /\ fix_llm_response (py " " ++ (py "```json" ++ [10] ++ py "```") ++ [])
     = Ok empty_facts.
Proof.
  assert (H1 : blank (py " ")) by (repeat constructor).
  assert (H2 : blank [10]) by (repeat constructor).
  assert (H3 : blank []) by constructor.
  split; [exact H1|]. split; [exact H2|]. split; [exact H3|].
  exact (proj1 (proj2 (proj2 fix_llm_response_blank_input) (py " ") [10] []
                  H1 H2 H3)).
Defined.


Lemma u1_set : u1 <> [].
Proof. discriminate. Qed.

Lemma cursor_set : cursor <> [].
Proof. discriminate. Qed.




(** The scenarios of the specification, run on the model. *)

Example add_second_attempt_without_inference :
  add (scripted [Raise parse_failure; Ok ana_added] parse_failure)
      (py "My name is Ana") [(py "user_id", VStr u1)] []
  = (Ok (VDict [ (py "results", VList [ana_record]);
                 (py "relations", empty_relations) ]),
     [ add_call (py "My name is Ana") [(py "user_id", VStr u1)];
       add_call (py "My name is Ana")
         [(py "user_id", VStr u1); (py "infer", VBool false)] ]).
Proof. vm_compute. reflexivity. Qed.

Example search_returns_the_authorized_record :
  fst (search_memory (sample_env (Some (always_ok two_records)) None)
         (Some u1) (Some cursor) (py "coffee") 10 (py "{}") sample_world)
  = Ok (JsonDumps (VList [record_a])).
Proof. vm_compute. reflexivity. Qed.

Example delete_all_with_nothing_accessible :
  let w := mk_world (mk_DB [sample_user] [sample_app] [] [] [])
                    (mk_DB [sample_user] [sample_app] [] [] []) [] in
  let out := delete_all_memories (sample_env (Some (always_ok VNone)) None)
               (Some u1) (Some cursor) w in
  fst out = Ok (Text (py "Successfully deleted 0 accessible memories"))
  /\ access_logs (store (snd out)) = [].
Proof. split; vm_compute; reflexivity. Qed.

Example get_memory_with_an_invalid_id :
  let out := get_memory (sample_env (Some (always_ok VNone)) None)
               (Some u1) (Some cursor) (py "not-a-uuid") sample_world in
  fst out = Ok (Text (py "Memory with ID not-a-uuid not found"))
  /\ access_logs (store (snd out)) = [].
Proof. split; vm_compute; reflexivity. Qed.

Lemma handle_sse_cleanup_witness :
  let T := mk_transport (ret tt)
             (raise (mk_exc RuntimeError (py "stream closed"))) (ret tt) in
  let s := mk_sse_state ∅ 0 None None in
  (connection_id_of (Some u1) (Some cursor) 1
     ∉ active_connections (snd (handle_sse T (Some u1) (Some cursor) s)))
  /\ user_id_var (snd (handle_sse T (Some u1) (Some cursor) s)) = None.
Proof.
  cbv zeta.
  pose proof (handle_sse_cleanup
                (mk_transport (ret tt)
                   (raise (mk_exc RuntimeError (py "stream closed"))) (ret tt))
                (Some u1) (Some cursor) (mk_sse_state ∅ 0 None None)) as H.
  cbv zeta in H. destruct H as (H1 & H2 & _).
  split; [exact H1|exact H2].
Defined.

End Runs.

(** ** More on [ResilientMemoryClient.add] *)

Section Retries.

Import ResilientMemoryClient.

Lemma dict_get_set_same k v d : dict_get k (dict_set k v d) = Some v.
Proof.
  induction d as [|[k' v'] d IH]; cbn [dict_set dict_get].
  - now rewrite str_eqb_refl.
  - destruct (str_eqb k k') eqn:Ek; cbn [dict_get]; rewrite ?str_eqb_refl, ?Ek;
      [reflexivity|exact IH].
Qed.

Lemma dict_get_set_other k k' v d :
  k <> k' -> dict_get k (dict_set k' v d) = dict_get k d.
Proof.
  intros Hk.
  assert (Hkk : str_eqb k k' = false)
    by (unfold str_eqb; now apply bool_decide_eq_false).
  induction d as [|[k2 v2] d IH]; cbn [dict_set dict_get].
  - now rewrite Hkk.
  - destruct (str_eqb k' k2) eqn:E2; cbn [dict_get].
    + unfold str_eqb in E2. apply bool_decide_eq_true in E2. subst k2.
      now rewrite Hkk.
    + destruct (str_eqb k k2); [reflexivity|exact IH].
Qed.

Lemma dict_get_update_other k d e :
  ~ In k (dict_keys e) -> dict_get k (dict_update d e) = dict_get k d.
Proof.
  unfold dict_update. revert d.
  induction e as [|[k' v'] e IH]; intros d Hk; cbn [fold_left]; [reflexivity|].
  cbn [dict_keys map fst] in Hk. rewrite IH by (intros H; apply Hk; now right).
  cbn [fst snd]. apply dict_get_set_other. intros ->. apply Hk. now left.
Qed.

(** X1.  [ensure_structure] only adds what is missing: every entry of
    the reply is kept with its value, an absent [results] becomes the
    empty list and an absent [relations] the empty pair of lists, and
    normalising twice is normalising once. *)
Theorem ensure_structure_keeps_entries d :
  (forall k v, dict_get k d = Some v ->
               dict_get k (ensure_structure d) = Some v)
  /\ (dict_has (py "results") d = false ->
      dict_get (py "results") (ensure_structure d) = Some (VList []))
  /\ (dict_has (py "relations") d = false ->
      dict_get (py "relations") (ensure_structure d) = Some empty_relations)
  /\ ensure_structure (ensure_structure d) = ensure_structure d.
Proof.
  assert (Hne : py "relations" <> py "results") by discriminate.
  assert (Hne' : py "results" <> py "relations") by discriminate.
  assert (Hkeep : forall k v, dict_get k d = Some v ->
                              dict_get k (ensure_structure d) = Some v).
  { intros k v Hk. unfold ensure_structure, dict_has.
    destruct (dict_get (py "results") d) as [r|] eqn:Hr; cbn [negb].
    - destruct (dict_get (py "relations") d) as [x|] eqn:Hx; cbn [negb];
        [exact Hk|].
      rewrite dict_get_set_other; [exact Hk|congruence].
    - rewrite dict_get_set_other by exact Hne.
      destruct (dict_get (py "relations") d) as [x|] eqn:Hx; cbn [negb].
      + rewrite dict_get_set_other; [exact Hk|congruence].
      + rewrite dict_get_set_other by congruence.
        rewrite dict_get_set_other; [exact Hk|congruence]. }
  split; [exact Hkeep|]. split; [|split].
  - intros H. unfold ensure_structure. rewrite H. cbn [negb].
    destruct (negb (dict_has (py "relations") _)).
    + rewrite dict_get_set_other by exact Hne'. apply dict_get_set_same.
    + apply dict_get_set_same.
  - intros H. unfold ensure_structure.
    destruct (negb (dict_has (py "results") d)).
    + unfold dict_has in *.
      rewrite dict_get_set_other by exact Hne.
      destruct (dict_get (py "relations") d); [discriminate|]. cbn [negb].
      apply dict_get_set_same.
    + rewrite H. cbn [negb]. apply dict_get_set_same.
  - unfold ensure_structure at 1.
    rewrite ensure_structure_results. cbn [negb].
    now rewrite ensure_structure_relations.
Qed.

(** The calls that the loop over the strategies adds to the trace. *)
Lemma try_strategies_trace B text kwargs sts : forall tr,
  exists n, snd (try_strategies B text kwargs sts tr)
            = tr ++ map (fallback_call text kwargs) (take n sts).
Proof.
  induction sts as [|st rest IH]; intros tr; cbn [try_strategies].
  - exists 0%nat. cbn. now rewrite app_nil_r.
  - unfold bind, except_Exception, catch, invoke.
    assert (Hnext : exists n,
               snd (try_strategies B text kwargs rest
                      (tr ++ [fallback_call text kwargs st]))
               = tr ++ map (fallback_call text kwargs) (take n (st :: rest))).
    { destruct (IH (tr ++ [fallback_call text kwargs st])) as [n Hn].
      exists (S n). rewrite Hn. cbn [take map]. now rewrite <- app_assoc. }
    assert (Hstop : exists n,
               tr ++ [fallback_call text kwargs st]
               = tr ++ map (fallback_call text kwargs) (take n (st :: rest))).
    { exists 1%nat. cbn [take map]. now rewrite take_0. }
    destruct (B tr (fallback_call text kwargs st)) as [r|e].
    + destruct r; cbn [ret py_truthy snd]; try exact Hnext.
      destruct entries; cbn [ret snd]; [exact Hnext|exact Hstop].
    + destruct (is_Exception e); cbn [ret raise snd]; [exact Hnext|exact Hstop].
Qed.

Lemma fallback_strategies_four kwargs sts :
  fallback_strategies kwargs = Ok sts -> length sts = 4%nat.
Proof.
  unfold fallback_strategies.
  destruct (unpack_mapping _); [|discriminate]. now intros [= <-].
Qed.

Lemma fallback_call_method text kwargs st :
  call_method (fallback_call text kwargs st) = py "add".
Proof. reflexivity. Qed.

Lemma direct_attempt_trace B text kwargs tr :
  snd (direct_attempt B text kwargs tr) = tr ++ [add_call text kwargs].
Proof.
  unfold direct_attempt, except_Exception, catch, bind, invoke.
  destruct (B tr (add_call text kwargs)) as [[]|e]; cbn [ret raise snd];
    repeat match goal with
           | |- context [if ?b then _ else _] => destruct b
           end; reflexivity.
Qed.

(** X2.  Whatever the backend does, one [add] on the resilient client
    makes at most six calls on it (the direct attempt, at most four
    fallback rounds and at most one emergency call), every one of them a
    call of the backend's [add], and the calls made before are not
    touched. *)
Theorem add_makes_at_most_six_calls B text kwargs tr :
  exists new,
    snd (add B text kwargs tr) = tr ++ new
    /\ (length new <= 6)%nat
    /\ Forall (fun c => call_method c = py "add") new.
Proof.
  unfold add, bind.
  pose proof (direct_attempt_trace B text kwargs tr) as Ht.
  destruct (direct_attempt B text kwargs tr) as [[[v|]|e] tr1] eqn:Ed;
    cbn [snd] in Ht; subst tr1.
  1,3: (exists [add_call text kwargs]; cbn [ret snd];
        repeat split; [cbn; lia|repeat constructor]).
  destruct (fallback_strategies kwargs) as [sts|e] eqn:Es; cbn [lift].
  2:{ exists [add_call text kwargs]. repeat split; [cbn; lia|repeat constructor]. }
  pose proof (fallback_strategies_four _ _ Es) as H4.
  destruct (try_strategies_trace B text kwargs sts (tr ++ [add_call text kwargs]))
    as [n Hn].
  destruct (try_strategies B text kwargs sts (tr ++ [add_call text kwargs]))
    as [[[v|]|e] tr2]; cbn [snd] in Hn; subst tr2.
  1,3: (exists (add_call text kwargs
                  :: map (fallback_call text kwargs) (take n sts));
        cbn [ret snd]; rewrite <- app_assoc; split; [reflexivity|]; split;
        [ cbn [length]; rewrite length_map, length_take; lia
        | constructor; [reflexivity|]; apply Forall_map, Forall_forall;
          intros; apply fallback_call_method ]).
  exists (add_call text kwargs
            :: map (fallback_call text kwargs) (take n sts)
            ++ [emergency_call text kwargs]).
  split; [|split].
  - unfold except_Exception, catch, bind, invoke.
    destruct (B _ (emergency_call text kwargs)) as [v|e];
      [destruct (py_truthy v)|destruct (is_Exception e)];
      cbn [ret raise snd]; now rewrite <- !app_assoc.
  - cbn [length]. rewrite length_app, length_map, length_take. cbn [length]. lia.
  - constructor; [reflexivity|]. apply Forall_app. split.
    + apply Forall_map, Forall_forall. intros; apply fallback_call_method.
    + repeat constructor.
Qed.


Lemma fallback_strategies_built kwargs :
  (forall v, dict_get (py "metadata") kwargs = Some v -> exists md, v = VDict md) ->
  exists sts, fallback_strategies kwargs = Ok sts.
Proof.
  intros H. unfold fallback_strategies.
  destruct (dict_get (py "metadata") kwargs) as [v|].
  - destruct (H v eq_refl) as [md ->]. cbn [unpack_mapping]. eauto.
  - cbn [unpack_mapping]. eauto.
Qed.

(** X3.  A parse failure of the direct attempt is recovered by the
    first fallback round when that round succeeds: the backend is called
    a second time with the same text and the caller's keyword arguments,
    [infer] set to false, and its reply, a non-empty dict, is returned
    normalised; no further call is made.  (The [metadata] keyword is
    absent or a mapping, and the [results] of the reply, if any, is a
    list.) *)
Theorem add_recovers_without_inference B text kwargs tr e d :
  B tr (add_call text kwargs) = Raise e ->
  is_Exception e = true ->
  is_json_error (exc_msg e) = true ->
  (forall v, dict_get (py "metadata") kwargs = Some v -> exists md, v = VDict md) ->
  let retry := add_call text (dict_set (py "infer") (VBool false) kwargs) in
  B (tr ++ [add_call text kwargs]) retry = Ok (VDict d) ->
  d <> [] ->
  (forall v, dict_get (py "results") d = Some v -> exists l, v = VList l) ->
  add B text kwargs tr
  = (Ok (VDict (ensure_structure d)), tr ++ [add_call text kwargs; retry]).
Proof.
  intros H He Hj Hmd retry Hr Hd _.
  destruct (fallback_strategies_built kwargs Hmd) as [sts Hs].
  unfold add, bind.
  rewrite (direct_attempt_raise _ _ _ _ _ H), He, Hj. cbn [andb].
  rewrite Hs. cbn [lift].
  unfold fallback_strategies in Hs.
  destruct (unpack_mapping _) as [md|]; [|discriminate].
  injection Hs as <-.
  cbn [try_strategies]. unfold bind at 1.
  unfold except_Exception at 1, catch at 1, bind at 1, invoke at 1.
  change (fallback_call text kwargs
            (mk_strategy [(py "infer", VBool false)] None
               (py "without inference (direct storage)"))) with retry.
  rewrite Hr. destruct d as [|kv d]; [now destruct Hd|].
  cbn [py_truthy ret]. now rewrite <- app_assoc.
Qed.

Lemma lstrip_length s : (length (lstrip s) <= length s)%nat.
Proof.
  induction s as [|c s IH]; cbn [lstrip length]; [lia|].
  destruct (isspace c); cbn [length]; lia.
Qed.

Lemma strip_length s : (length (strip s) <= length s)%nat.
Proof.
  unfold strip, rstrip. rewrite length_rev.
  pose proof (lstrip_length (rev (lstrip s))) as H1.
  rewrite length_rev in H1. pose proof (lstrip_length s). lia.
Qed.

(** X4.  Every fallback round calls the backend's [add] with the
    caller's keyword arguments, apart from [infer] and [metadata] which
    the strategy sets: any other keyword (the user id, for one) reaches
    the backend with the caller's value.  The text is the caller's, or,
    in the last round, the caller's text stripped and cut to at most 200
    characters. *)
Theorem fallback_calls_keep_arguments text kwargs sts st :
  fallback_strategies kwargs = Ok sts ->
  In st sts ->
  let c := fallback_call text kwargs st in
  call_method c = py "add"
  /\ (forall k, k <> py "infer" -> k <> py "metadata" ->
                dict_get k (call_kwargs c) = dict_get k kwargs)
  /\ (call_args c = [VStr text]
      \/ (exists t, call_args c = [VStr t]
                    /\ (length t <= 200)%nat /\ (length t <= length text)%nat)).
Proof.
  intros Hs Hin. cbv zeta. split; [reflexivity|].
  unfold fallback_strategies in Hs.
  destruct (unpack_mapping _) as [md|]; [|discriminate].
  injection Hs as <-.
  assert (Hlen : (length (simplify_text text) <= 200)%nat
                 /\ (length (simplify_text text) <= length text)%nat).
  { unfold simplify_text. pose proof (strip_length text).
    destruct (Nat.ltb 200 (length text)) eqn:E.
    - rewrite length_take. apply Nat.ltb_lt in E. lia.
    - apply Nat.ltb_ge in E. lia. }
  destruct Hin as [<-|[<-|[<-|[<-|[]]]]]; cbn [call_kwargs call_args];
    (split;
     [ intros k Hi Hm; unfold fallback_call, add_call;
       cbn [call_kwargs params]; apply dict_get_update_other;
       cbn [dict_keys map fst]; intros Hk;
       repeat (destruct Hk as [Hk|Hk]; [congruence|]); exact Hk
     | ]).
  1-3: now left.
  right. exists (simplify_text text). split; [reflexivity|exact Hlen].
Qed.

(** X5.  For a [metadata] keyword that is absent or a mapping, and a
    backend that raises nothing outside [Exception], [add] absorbs a
    parse failure of the direct attempt: it returns a value.  When every
    later call fails too (it raises, or its reply counts as false), the
    four fallback rounds are tried in their order, then the emergency
    call, and the value returned is the canonical empty result with its
    diagnostic payload. *)
Theorem add_absorbs_parse_failures B text kwargs tr e :
  B tr (add_call text kwargs) = Raise e ->
  is_Exception e = true ->
  is_json_error (exc_msg e) = true ->
  (forall v, dict_get (py "metadata") kwargs = Some v -> exists md, v = VDict md) ->
  (forall tr c e, B tr c = Raise e -> is_Exception e = true) ->
  (exists v tr', add B text kwargs tr = (Ok v, tr'))
  /\ ((forall tr' c, (length tr < length tr')%nat -> failed (B tr' c) = true) ->
      exists s1 s2 s3 s4,
        add B text kwargs tr
        = (Ok (exhausted_result text kwargs),
           tr ++ [ add_call text kwargs;
                   fallback_call text kwargs s1;
                   fallback_call text kwargs s2;
                   fallback_call text kwargs s3;
                   fallback_call text kwargs s4;
                   emergency_call text kwargs ])
        /\ fallback_strategies kwargs = Ok [s1; s2; s3; s4]).
Proof.
  intros H He Hj Hmd HB.
  destruct (fallback_strategies_built kwargs Hmd) as [sts Hs].
  split.
  - exact (add_parse_error_absorbed B text kwargs tr e sts H He Hj Hs HB).
  - intros Hfail.
    destruct (add_exhausted B text kwargs tr e sts H He Hj Hs Hfail) as [Ha H4].
    destruct sts as [|s1 [|s2 [|s3 [|s4 [|s5 sts]]]]]; try discriminate H4.
    exists s1, s2, s3, s4. split; [exact Ha|exact Hs].
Qed.

End Retries.

(** ** More on [fix_llm_response] *)

Section RepairMore.

Import LLMResponseInterceptor.

(** X6.  [fix_llm_response] has one way to fail and one kind of result:
    whenever it returns, the text it returns is a JSON document, and it
    raises only when the cleaned text holds an integer numeral longer
    than the interpreter's limit, the exception being the [ValueError]
    of that limit. *)
Theorem fix_llm_response_json_or_digit_limit s :
  match fix_llm_response s with
  | Ok r => exists v, Json.loads r = Json.Parsed v
  | Raise e =>
      exists d,
        Json.loads (strip (strip_fences (strip s))) = Json.IntLimitError d
        /\ e = mk_exc ValueError (Json.int_limit_message d)
  end.
Proof.
  destruct (fix_llm_response s) as [r|e] eqn:Ef.
  - exact (fix_llm_response_returns_json s r Ef).
  - unfold fix_llm_response in Ef.
    destruct (negb (py_truthy (VStr s)) || negb (py_truthy (VStr (strip s))));
      [discriminate|].
    destruct (negb (py_truthy (VStr (strip (strip_fences (strip s))))));
      [discriminate|].
    destruct (Json.loads (strip (strip_fences (strip s)))) as [v| |d] eqn:E1.
    + discriminate.
    + destruct (Json.loads (wrap_as_facts _)); discriminate.
    + injection Ef as <-. eauto.
Qed.

(** X7.  The wrapper that [ResilientMemoryClient] installs around the
    LLM client's [generate_response] always gives the caller a JSON
    document: the reply of the wrapped call repaired, or the canonical
    empty result when the wrapped call or the repair raises an
    [Exception].  Only an exception outside [Exception], raised by the
    wrapped call, passes through. *)
Theorem patched_generate_response_gives_json original :
  match patched_generate_response original with
  | Ok r => exists v, Json.loads r = Json.Parsed v
  | Raise e => original = Raise e /\ is_Exception e = false
  end.
Proof.
  unfold patched_generate_response.
  destruct original as [response|e].
  - destruct (fix_llm_response_any response) as [r|e] eqn:Ef.
    + unfold fix_llm_response_any in Ef. destruct response;
        try (destruct (py_truthy _); [discriminate|];
             injection Ef as <-; eexists; exact empty_facts_parses).
      exact (fix_llm_response_returns_json _ _ Ef).
    + assert (He : is_Exception e = true).
      { unfold fix_llm_response_any in Ef. destruct response;
          try (destruct (py_truthy _); [injection Ef as <-; reflexivity
                                       |discriminate]).
        pose proof (fix_llm_response_json_or_digit_limit s) as H.
        rewrite Ef in H. destruct H as (d & _ & ->). reflexivity. }
      rewrite He. eexists. exact empty_facts_parses.
  - destruct (is_Exception e) eqn:He.
    + eexists. exact empty_facts_parses.
    + split; [reflexivity|exact He].
Qed.











End RepairMore.

Section RepairWrap.

Import LLMResponseInterceptor PlainText.

Lemma scanstring_escaped t : forall rest acc,
  Forall literal t ->
  Json.scanstring (replace_char 34 [92; 34] t ++ 34 :: rest) acc
  = Json.Got (rev acc ++ t) rest.
Proof.
  unfold replace_char.
  induction t as [|c t IH]; intros rest acc Ht.
  - cbn [flat_map app Json.scanstring]. rewrite N.eqb_refl.
    now rewrite app_nil_r.
  - inversion Ht as [|? ? [Hc1 Hc2] Ht']; subst.
    cbn [flat_map]. destruct (c =? 34) eqn:E34.
    + apply N.eqb_eq in E34. subst c.
      rewrite <- app_assoc. cbn [app].
      cbn [Json.scanstring].
      change (92 =? 34) with false. change (92 =? 92) with true.
      change (34 =? 117) with false. change (Json.unescape 34) with (Some 34).
      cbv beta iota. rewrite IH by exact Ht'.
      cbn [rev]. now rewrite <- app_assoc.
    + cbn [app Json.scanstring]. rewrite E34.
      assert (E92 : (c =? 92) = false) by now apply N.eqb_neq.
      assert (E31 : (c <=? 31) = false).
      { apply N.leb_gt. apply N.leb_le in Hc1. lia. }
      rewrite E92, E31. rewrite IH by exact Ht'.
      cbn [rev]. now rewrite <- app_assoc.
Qed.

Ltac head_step :=
  match goal with
  | |- ?L = _ => let L' := eval hnf in L in change L with L'
  end.

Lemma scan_wrapped m x t :
  Json.scanstring x [] = Json.Got t [93; 125] ->
  Json.scan_once (S (S (S (S (S m)))))
    (123 :: 34 :: 102 :: 97 :: 99 :: 116 :: 115 :: 34 :: 58 :: 32 :: 91
     :: 34 :: x)
  = Json.Got (VDict [(py "facts", VList [VStr t])]) [].
Proof.
  intros H.
  assert (L0 : Json.scan_once (S m) (34 :: x) = Json.Got (VStr t) [93; 125]).
  { head_step. now rewrite H. }
  assert (L1 : Json.parse_items (S (S m)) (34 :: x) []
               = Json.Got (VList [VStr t]) [125]).
  { head_step. now rewrite L0. }
  assert (L2 : Json.scan_once (S (S (S m))) (Json.skip_ws (32 :: 91 :: 34 :: x))
               = Json.Got (VList [VStr t]) [125]).
  { change (Json.skip_ws (32 :: 91 :: 34 :: x)) with (91 :: 34 :: x).
    head_step. exact L1. }
  head_step. now rewrite L2.
Qed.

Lemma loads_wrapped x t :
  Json.scanstring x [] = Json.Got t [93; 125] ->
  Json.loads (pyq "{'facts': ['" ++ x)
  = Json.Parsed (VDict [(py "facts", VList [VStr t])]).
Proof.
  intros H. unfold Json.loads.
  change (pyq "{'facts': ['" ++ x)
    with (123 :: 34 :: 102 :: 97 :: 99 :: 116 :: 115 :: 34 :: 58 :: 32 :: 91
          :: 34 :: x).
  cbn [length].
  replace (2 * S (S (S (S (S (S (S (S (S (S (S (S (length x)))))))))))) + 2)%nat
    with (S (S (S (S (S (2 * length x + 21)))))) by lia.
  change (Json.skip_ws (123 :: 34 :: 102 :: 97 :: 99 :: 116 :: 115 :: 34 :: 58
                        :: 32 :: 91 :: 34 :: x))
    with (123 :: 34 :: 102 :: 97 :: 99 :: 116 :: 115 :: 34 :: 58 :: 32 :: 91
          :: 34 :: x).
  now rewrite (scan_wrapped _ x t H).
Qed.

Lemma startswith_prefix p q s :
  startswith p s = false -> startswith (p ++ q) s = false.
Proof.
  revert s. induction p as [|a p IH]; intros s; cbn [startswith app];
    [discriminate|].
  destruct s as [|b s]; [reflexivity|].
  destruct (a =? b); cbn [andb]; [apply IH|reflexivity].
Qed.

(** X9.  A reply that is plain text becomes a single fact.  For a text
    without white space at its ends, without control characters and
    backslashes, that does not begin with a brace, a bracket or a fence
    marker, does not end with a fence marker and is not itself a JSON
    document, [fix_llm_response] returns the object whose [facts] is the
    list of one string, the text with its double quotes escaped; decoded
    with [json.loads], that object gives the text back. *)
Theorem fix_llm_response_wraps_plain_text t :
  t <> [] ->
  strip t = t ->
  Forall literal t ->
  startswith (py "{") t = false ->
  startswith (py "[") t = false ->
  startswith (py "```") t = false ->
  endswith (py "```") t = false ->
  Json.loads t = Json.DecodeError ->
  let r := pyq "{'facts': ['" ++ replace_char 34 [92; 34] t ++ pyq "']}" in
  fix_llm_response t = Ok r
  /\ Json.loads r = Json.Parsed (VDict [(py "facts", VList [VStr t])]).
Proof.
  intros Hn Hs Hlit Hb Hk Hf He Hl r.
  assert (Hr : Json.loads r = Json.Parsed (VDict [(py "facts", VList [VStr t])])).
  { unfold r. apply loads_wrapped.
    change (pyq "']}") with (34 :: [93; 125]).
    now rewrite scanstring_escaped. }
  split; [|exact Hr].
  unfold fix_llm_response. rewrite Hs.
  assert (Hc : strip_fences t = t).
  { unfold strip_fences.
    change (py "```json") with (py "```" ++ py "json").
    rewrite (startswith_prefix (py "```") (py "json") t Hf), Hf.
    now rewrite He. }
  rewrite Hc, Hs, Hl.
  destruct t as [|c t]; [now destruct Hn|]. cbn [py_truthy negb orb].
  unfold wrap_as_facts. rewrite Hb, Hk. cbn [negb].
  fold r. now rewrite Hr.
Qed.

End RepairWrap.

(** ** [get_user_and_app] *)

Section Resolution.

Import ResilientMemoryClient Server.

Variable E : Env.

Ltac run :=
  cbv beta iota zeta delta
    [bind attempt client_call db_view get ret lift raise
     except_ValueError catch];
  cbn [session calls store after_call fst snd].

Lemma find_user_some db user_id user :
  find_user db user_id = Some user -> user_user_id user = user_id.
Proof.
  unfold find_user. intros H. apply find_some in H as [_ H].
  unfold str_eqb in H. now apply bool_decide_eq_true in H.
Qed.

Lemma find_app_some db owner name app :
  find_app db owner name = Some app ->
  app_owner_id app = owner /\ app_name app = name.
Proof.
  unfold find_app. intros H. apply find_some in H as [_ H].
  apply andb_true_iff in H as [H1 H2]. split.
  - now apply N.eqb_eq.
  - unfold str_eqb in H2. now apply bool_decide_eq_true in H2.
Qed.

Lemma find_app_end {A} (f : A -> bool) l x :
  find f l = None -> f x = true -> find f (l ++ [x]) = Some x.
Proof.
  induction l as [|y l IH]; cbn [find app]; intros Hn Hx.
  - now rewrite Hx.
  - destruct (f y); [discriminate|]. now apply IH.
Qed.

Lemma get_or_create_user_result user_id w user w1 :
  session w = store w ->
  get_or_create_user E user_id w = (Ok user, w1) ->
  user_user_id user = user_id
  /\ session w1 = store w1
  /\ find_user (session w1) user_id = Some user.
Proof.
  intros Hw. unfold get_or_create_user. run.
  destruct (find_user (session w) user_id) as [x|] eqn:Hx.
  - intros [= <- <-]. eauto using find_user_some.
  - unfold db_update, db_commit, modify. run.
    destruct (commit_fault E) as [e|].
    + unfold raise. run.
      destruct (is_IntegrityError e); [|discriminate].
      unfold db_rollback, modify. run. cbn [fresh_session session store].
      rewrite <- Hw, Hx. discriminate.
    + unfold modify. run. intros [= <- <-]. cbn [session store].
      repeat split. unfold find_user, add_user. cbn [users].
      apply find_app_end; [exact Hx|]. apply str_eqb_refl.
Qed.

Lemma get_or_create_app_result user app_id w app w1 :
  session w = store w ->
  get_or_create_app E user app_id w = (Ok app, w1) ->
  app_owner_id app = user_pk user /\ app_name app = app_id
  /\ session w1 = store w1
  /\ find_app (session w1) (user_pk user) app_id = Some app
  /\ users (session w1) = users (session w).
Proof.
  intros Hw. unfold get_or_create_app. run.
  destruct (find_app (session w) (user_pk user) app_id) as [x|] eqn:Hx.
  - intros [= <- <-].
    destruct (find_app_some _ _ _ _ Hx). repeat split; assumption.
  - unfold db_update, db_commit, modify. run.
    destruct (commit_fault E) as [e|].
    + unfold raise. run.
      destruct (is_IntegrityError e); [|discriminate].
      unfold db_rollback, modify. run. cbn [fresh_session session store].
      rewrite <- Hw, Hx. discriminate.
    + unfold modify. run. intros [= <- <-]. cbn [session store].
      repeat split. unfold find_app, add_app. cbn [apps].
      apply find_app_end; [exact Hx|].
      cbn [app_owner_id app_name]. rewrite N.eqb_refl. apply str_eqb_refl.
Qed.

(** X10.  When [get_user_and_app] returns, in a session without pending
    changes, the user it returns has the user id asked for and the
    application has the name asked for and is owned by that user; both
    are committed, nothing is left pending, and asking again gives the
    same two rows without any change.  No call is made on the memory
    client and the tables of memories, history and access events are as
    they were. *)
Theorem get_user_and_app_resolves user_id app_id w user app w1 :
  get_user_and_app E user_id app_id (fresh_session w) = (Ok (user, app), w1) ->
  user_user_id user = user_id
  /\ app_name app = app_id
  /\ app_owner_id app = user_pk user
  /\ session w1 = store w1
  /\ get_user_and_app E user_id app_id w1 = (Ok (user, app), w1)
  /\ calls w1 = calls w
  /\ tables (store w1) = tables (store w).
Proof.
  intros H.
  destruct (get_user_and_app_frame E user_id app_id w _ w1 H) as (HC & _ & HT).
  unfold get_user_and_app in H. unfold bind at 1 in H.
  destruct (get_or_create_user E user_id (fresh_session w)) as [[x|e] w0] eqn:Eu;
    [|discriminate].
  destruct (get_or_create_user_result user_id (fresh_session w) x w0 eq_refl Eu)
    as (H1 & H2 & H3).
  unfold bind at 1 in H.
  destruct (get_or_create_app E x app_id w0) as [[y|e] w2] eqn:Ea;
    [|discriminate].
  injection H as <- <- <-.
  destruct (get_or_create_app_result _ _ _ _ _ H2 Ea) as (H4 & H5 & H6 & H7 & H8).
  repeat split; try assumption.
  unfold get_user_and_app, get_or_create_user, get_or_create_app. run.
  assert (Hf : find_user (session w2) user_id = Some x).
  { unfold find_user in *. now rewrite H8. }
  rewrite Hf. run. now rewrite H7.
Qed.

End Resolution.

(** ** The tools as a family *)

Section ToolFamily.

Import ResilientMemoryClient Server Endpoints.

Variable E : Env.

(** A [try] whose handler for [Exception] returns lets no [Exception]
    out. *)
Lemma except_Exception_returns {S A} (c : M S A) (h : exc -> M S A) s :
  (forall e s', exists a s'', h e s' = (Ok a, s'')) ->
  match fst (except_Exception c h s) with
  | Ok _ => True
  | Raise e => is_Exception e = false
  end.
Proof.
  intros Hh. unfold except_Exception, catch.
  destruct (c s) as [[x|e] s']; cbn [fst]; [exact I|].
  destruct (is_Exception e) eqn:He; [|exact He].
  destruct (Hh e s') as (a & s'' & ->). exact I.
Qed.

Lemma tool_prelude_unset uid cn k w :
  unset uid || unset cn = true ->
  tool_prelude E uid cn k w
  = (Ok (Text (py "Error: user_id and client_name are required")), w).
Proof.
  unfold tool_prelude. destruct uid as [u|], cn as [c|]; try reflexivity.
  now intros ->.
Qed.

Lemma tool_prelude_no_client uid cn k w :
  unset uid || unset cn = false ->
  memory_client E = None ->
  tool_prelude E uid cn k w
  = (Ok (Text (py "Error: Memory system is currently unavailable. Please try again later.")), w).
Proof.
  unfold tool_prelude. intros Hs Hn.
  destruct uid as [u|]; [|discriminate Hs].
  destruct cn as [c|]; [|now rewrite orb_true_r in Hs].
  now rewrite Hs, Hn.
Qed.

(** X11.  Every tool begins with the same two checks.  When one of the two
    context variables holds no value or the empty string, the tool answers
    that both are required; when both are set and no memory client can be
    obtained, it answers that the memory system is unavailable.  In both
    cases nothing else happens: no session is opened, no row is created
    and no call is made on a client. *)
Theorem tools_need_identity_and_client uid client_name t w :
  (unset uid || unset client_name = true ->
   call_tool E uid client_name t w
   = (Ok (Text (py "Error: user_id and client_name are required")), w))
  /\ (unset uid || unset client_name = false ->
      memory_client E = None ->
      call_tool E uid client_name t w
      = (Ok (Text (py "Error: Memory system is currently unavailable. Please try again later.")), w)).
Proof.
  split.
  - intros H. destruct t; apply tool_prelude_unset; exact H.
  - intros H Hn. destruct t; apply tool_prelude_no_client; assumption.
Qed.

(** X12.  No tool lets an exception of class [Exception] reach its
    caller: a tool call returns a text, whatever the memory client, the
    store or the arguments do. *)
Theorem tools_raise_no_Exception uid client_name t w :
  match fst (call_tool E uid client_name t w) with
  | Ok _ => True
  | Raise e => is_Exception e = false
  end.
Proof.
  destruct t; cbn [call_tool];
    unfold add_memories, search_memory, list_memories, delete_all_memories,
      get_memory, update_memory, delete_memory, get_memory_history,
      get_entities, batch_update_memories, batch_delete_memories;
    match goal with
    | |- context [tool_prelude E uid client_name ?k w] =>
        destruct (tool_prelude_cases E uid client_name k w)
          as [(msg & ->)|(u & c & cl & -> & -> & Hu & Hc & Hcl & ->)];
          [exact I|]
    end;
    apply except_Exception_returns; intros e s'; unfold ret; eauto.
Qed.

Lemma guarded_session_pending {A} (pre : M world A) (k : A -> M world reply)
      label w :
  (forall w0, snd (pre w0) = w0) ->
  session w = store w ->
  let out := except_Exception
               (x <- pre ;; SessionLocal ;;; finally (k x) db_close)
               (fun e => ret (Text (label ++ exc_msg e))) w in
  session (snd out) = store (snd out).
Proof.
  intros Hpre Hw. cbv zeta.
  unfold except_Exception, catch, bind, finally, SessionLocal, db_close, modify.
  pose proof (Hpre w) as Hp.
  destruct (pre w) as [[x|e] w0]; cbn [snd] in Hp; subst w0.
  - destruct (k x (fresh_session w)) as [[y|e] w2]; [reflexivity|].
    cbn. now destruct (is_Exception e).
  - now destruct (is_Exception e).
Qed.

(** X13.  A tool call leaves no pending change behind: if the session
    shows the committed store when the call starts, it does so again when
    the call is over, on every path. *)
Theorem tools_leave_nothing_pending uid client_name t w :
  session w = store w ->
  session (snd (call_tool E uid client_name t w))
  = store (snd (call_tool E uid client_name t w)).
Proof.
  intros Hw.
  destruct t; cbn [call_tool];
    unfold add_memories, search_memory, list_memories, delete_all_memories,
      get_memory, update_memory, delete_memory, get_memory_history,
      get_entities, batch_update_memories, batch_delete_memories;
    match goal with
    | |- context [tool_prelude E uid client_name ?k w] =>
        destruct (tool_prelude_cases E uid client_name k w)
          as [(msg & ->)|(u & c & cl & -> & -> & Hu & Hc & Hcl & ->)];
          [exact Hw|]
    end;
    try (rewrite in_session_snd; reflexivity).
  - (* update_memory *)
    apply guarded_session_pending; [|exact Hw].
    intros w0. now destruct (Json.loads metadata).
  - (* get_entities *)
    match goal with
    | |- session (snd (?m w)) = _ =>
        apply (fun H : stable (fun w => session w = store w) m => H w Hw)
    end.
    apply stable_except_Exception; [|intros e; apply stable_ret].
    apply stable_bind; [apply stable_attempt; intros w0 H0; exact H0|].
    intros [[]|e]; try apply stable_ret.
    destruct (is_Exception e); [apply stable_ret|apply stable_raise].
  - (* batch_update_memories *)
    destruct (Json.loads updates_json) as [v| |d]; try exact Hw.
    destruct v; try exact Hw.
    rewrite in_session_snd. reflexivity.
  - (* batch_delete_memories *)
    destruct (Json.loads memory_ids_json) as [v| |d]; try exact Hw.
    destruct v; try exact Hw.
    rewrite in_session_snd. reflexivity.
Qed.

End ToolFamily.

(** ** What the tools do to the relational store *)

Section ToolStore.

Import ResilientMemoryClient Server Endpoints.

Variable E : Env.

(** Walking through a computation to show that it keeps a property of
    the world; [base] closes the goals about the primitive steps. *)
Ltac walk base :=
  repeat first
    [ apply stable_ret
    | apply stable_raise
    | apply stable_lift
    | apply stable_db_view
    | base
    | apply stable_bind; [|intros ?]
    | apply stable_attempt
    | apply stable_finally
    | apply stable_except_Exception; [|intros ?]
    | apply stable_catch; [|intros ?]
    | apply stable_for_each_m; intros ? ?
    | match goal with
      | |- stable _ (except_ValueError _ _) => unfold except_ValueError
      | |- stable _ (match ?x with _ => _ end) => destruct x
      | |- stable _ (if ?x then _ else _) => destruct x
      | |- stable _ (let _ := _ in _) => cbv zeta
      end ].

Lemma rows_fresh R H w : rows_are R H w -> rows_are R H (fresh_session w).
Proof. intros (H1 & H2 & H3 & H4). repeat split; assumption. Qed.

Lemma rows_db_update R H f :
  (forall db, memories (f db) = memories db) ->
  (forall db, histories (f db) = histories db) ->
  stable (rows_are R H) (db_update f).
Proof.
  intros Hm Hh. apply stable_modify. intros w (H1 & H2 & H3 & H4).
  repeat split; cbn [session store]; try assumption.
  - now rewrite Hm.
  - now rewrite Hh.
Qed.

Lemma rows_db_commit R H : stable (rows_are R H) (db_commit E).
Proof.
  unfold db_commit. destruct (commit_fault E); [apply stable_raise|].
  apply stable_modify. intros w (H1 & H2 & H3 & H4). repeat split; assumption.
Qed.

Lemma rows_client_call R H cl c : stable (rows_are R H) (client_call cl c).
Proof. intros w H0. exact H0. Qed.

Lemma fold_access_log_memories (f : UUID -> MemoryAccessLog) ids : forall db,
  memories (fold_left (fun db i => add_access_log (f i) db) ids db)
  = memories db.
Proof. induction ids as [|i ids IH]; intros db; [reflexivity|]. cbn. now rewrite IH. Qed.

Lemma fold_access_log_histories (f : UUID -> MemoryAccessLog) ids : forall db,
  histories (fold_left (fun db i => add_access_log (f i) db) ids db)
  = histories db.
Proof. induction ids as [|i ids IH]; intros db; [reflexivity|]. cbn. now rewrite IH. Qed.

Lemma fold_access_log_logs (f : UUID -> MemoryAccessLog) ids : forall db,
  access_logs (fold_left (fun db i => add_access_log (f i) db) ids db)
  = access_logs db ++ map f ids.
Proof.
  induction ids as [|i ids IH]; intros db; cbn [fold_left map].
  - now rewrite app_nil_r.
  - rewrite IH. cbn [add_access_log access_logs]. now rewrite <- app_assoc.
Qed.

Lemma rows_log_memory_access R H ids app_id ty md :
  stable (rows_are R H) (log_memory_access E ids app_id ty md).
Proof.
  unfold log_memory_access. cbv zeta.
  apply stable_bind; [|intros _; apply rows_db_commit].
  apply rows_db_update; intros db.
  - apply fold_access_log_memories.
  - apply fold_access_log_histories.
Qed.

Ltac rows_base :=
  first [ apply rows_db_commit
        | apply rows_client_call
        | apply rows_log_memory_access
        | apply rows_db_update; reflexivity
        | apply stable_modify; apply rows_fresh ].

Lemma rows_get_user_and_app R H user_id app_id :
  stable (rows_are R H) (get_user_and_app E user_id app_id).
Proof.
  unfold get_user_and_app, get_or_create_user, get_or_create_app.
  walk rows_base.
Qed.

(** The conclusion for a tool body that runs in a session. *)
Lemma rows_in_session (body : M world reply) label w :
  stable (rows_are (memories (store w)) (histories (store w))) body ->
  let out := except_Exception (SessionLocal ;;; finally body db_close)
               (fun e => ret (Text (label ++ exc_msg e))) w in
  memories (store (snd out)) = memories (store w)
  /\ histories (store (snd out)) = histories (store w).
Proof.
  intros Hb. cbv zeta. rewrite in_session_snd. cbn [fresh_session store].
  assert (H0 : rows_are (memories (store w)) (histories (store w))
                 (fresh_session w)) by (repeat split).
  destruct (Hb _ H0) as (_ & _ & H3 & H4). split; assumption.
Qed.

Ltac enter :=
  match goal with
  | |- context [tool_prelude E ?uid ?client_name ?k ?w] =>
      destruct (tool_prelude_cases E uid client_name k w)
        as [(msg & ->)|(u & c & cl & -> & -> & Hu & Hc & Hcl & ->)];
        [split; reflexivity|]
  end.

Ltac rows_tool := walk ltac:(first [apply rows_get_user_and_app | rows_base]).

(** X14.  The tools that read or update through the memory client
    ([search_memory], [list_memories], [get_memory], [update_memory],
    [get_memory_history], [batch_update_memories] and [get_entities])
    never change a row of the memory table or of its state history:
    whatever happens, the store holds the same memory rows and the same
    history rows after the call as before. *)
Theorem reading_tools_keep_memory_rows uid client_name w :
  let kept (m : M world reply) :=
    memories (store (snd (m w))) = memories (store w)
    /\ histories (store (snd (m w))) = histories (store w) in
  (forall query limit filters,
      kept (search_memory E uid client_name query limit filters))
  /\ kept (list_memories E uid client_name)
  /\ (forall memory_id, kept (get_memory E uid client_name memory_id))
  /\ (forall memory_id text metadata,
         kept (update_memory E uid client_name memory_id text metadata))
  /\ (forall memory_id, kept (get_memory_history E uid client_name memory_id))
  /\ (forall updates_json,
         kept (batch_update_memories E uid client_name updates_json))
  /\ kept (get_entities E uid client_name).
Proof.
  cbv beta zeta.
  refine (conj _ (conj _ (conj _ (conj _ (conj _ (conj _ _)))))); intros.
  - unfold search_memory. enter.
    apply rows_in_session. rows_tool.
  - unfold list_memories. enter.
    apply rows_in_session. rows_tool.
  - unfold get_memory. enter.
    apply rows_in_session. unfold log_single_access. rows_tool.
  - unfold update_memory. enter.
    destruct (Json.loads metadata) as [v| |d].
    + rewrite except_bind_ret. apply rows_in_session.
      unfold log_single_access. rows_tool.
    + rewrite except_bind_ret. apply rows_in_session.
      unfold log_single_access. rows_tool.
    + split; reflexivity.
  - unfold get_memory_history. enter.
    apply rows_in_session. unfold log_single_access. rows_tool.
  - unfold batch_update_memories. enter.
    destruct (Json.loads updates_json) as [v| |d]; try (split; reflexivity).
    destruct v; try (split; reflexivity).
    apply rows_in_session. rows_tool.
  - unfold get_entities. enter.
    match goal with
    | |- memories (store (snd (?m w))) = _ /\ _ =>
        assert (Hs : stable (rows_are (memories (store w)) (histories (store w))
                               ∘ fresh_session) m)
    end.
    { unfold compose. rows_tool; intros w0 H0; exact H0. }
    destruct (Hs w) as (_ & _ & H3 & H4); [repeat split|].
    split; assumption.
Qed.

End ToolStore.

(** ** The tools on their successful paths *)

Section ToolRuns.

Import ResilientMemoryClient Server Endpoints.

Variable E : Env.
Variables (u c : str) (cl : backend).
Hypothesis Hu : u <> [].
Hypothesis Hc : c <> [].
Hypothesis Hcl : memory_client E = Some cl.

Ltac run :=
  cbv beta iota zeta delta
    [bind attempt client_call db_view get ret lift raise
     except_ValueError catch];
  cbn [session calls store after_call fst snd].

(** What [log_memory_access] leaves when the store accepts the commit. *)
Lemma log_memory_access_commits ids app_id ty md w :
  commit_fault E = None ->
  log_memory_access E ids app_id ty md w
  = (Ok tt,
     let db := fold_left
                 (fun db i =>
                    add_access_log
                      (mk_AccessLog i app_id ty
                         (if py_truthy md then md else VDict [])) db)
                 ids (session w) in
     mk_world db db (calls w)).
Proof.
  intros Hf. unfold log_memory_access, bind, db_update, db_commit, modify.
  rewrite Hf. reflexivity.
Qed.




Lemma find_memory_updated db id m (f : Memory -> Memory) :
  (forall x, memory_pk (f x) = memory_pk x) ->
  find_memory db id = Some m ->
  find_memory (update_memory_row id f db) id = Some (f m).
Proof.
  intros Hf. unfold find_memory, update_memory_row. cbn [memories].
  induction (memories db) as [|x l IH]; cbn [find map]; [discriminate|].
  destruct (memory_pk x =? id) eqn:Ex.
  - intros [= ->]. now rewrite Hf, Ex.
  - rewrite Ex. exact IH.
Qed.

(** X16.  When the backend's [delete] returns, the id is a valid UUID of
    a row of the local store and the store accepts the commit,
    [delete_memory] marks that row as deleted at the current time, adds
    one history row (from [active] to [deleted], by the caller) and one
    access event of type [delete], commits them, and confirms. *)
Theorem delete_memory_marks_row memory_id w user app w1 v id m :
  get_user_and_app E u c (fresh_session w) = (Ok (user, app), w1) ->
  cl (calls w1) (delete_call u memory_id) = Ok v ->
  uuid_parse E memory_id = Some id ->
  find_memory (session w1) id = Some m ->
  commit_fault E = None ->
  let out := delete_memory E (Some u) (Some c) memory_id w in
  fst out = Ok (Text (py "Successfully deleted memory " ++ memory_id))
  /\ find_memory (store (snd out)) id = Some (mark_deleted (now E) m)
  /\ histories (store (snd out))
     = histories (store w) ++ [mk_History id (user_pk user) active deleted]
  /\ access_logs (store (snd out))
     = access_logs (store w)
       ++ [mk_AccessLog id (app_pk app) (py "delete")
             (VDict [(py "operation", VStr (py "delete_single"))])].
Proof.
  intros Hgua Hs Hid Hm Hf out.
  destruct (get_user_and_app_frame E u c w _ w1 Hgua) as (HC & HT & _).
  injection HT as HTm HTh HTl.
  unfold out, delete_memory.
  rewrite (tool_prelude_ready E u c cl Hu Hc Hcl).
  rewrite in_session_fst, in_session_snd.
  run. rewrite Hgua. run. rewrite Hs. run.
  cbn [uuid_of]. rewrite Hid. run. rewrite Hm.
  unfold db_update, modify. run.
  rewrite log_memory_access_commits by exact Hf.
  cbv zeta. unfold db_commit. rewrite Hf. unfold modify.
  cbn [fst snd fresh_session store calls after_call session fold_left].
  split; [reflexivity|]. split; [|split].
  - unfold find_memory at 1. cbn [memories add_access_log add_history].
    apply (find_memory_updated (session w1)); [reflexivity|exact Hm].
  - cbn [histories add_access_log add_history update_memory_row].
    now rewrite HTh.
  - cbn [access_logs add_access_log add_history update_memory_row py_truthy].
    now rewrite HTl.
Qed.

(** X17.  [add_memories] for an application that is paused answers with
    the error text that names the application and stops there: the memory
    client is not called and the tables of memories, history and access
    events are as they were. *)
Theorem add_memories_paused_app text metadata infer w user app w1 :
  get_user_and_app E u c (fresh_session w) = (Ok (user, app), w1) ->
  app_is_active app = false ->
  let out := add_memories E (Some u) (Some c) text metadata infer w in
  fst out
  = Ok (Text (py "Error: App " ++ app_name app
              ++ py " is currently paused. Cannot create new memories."))
  /\ calls (snd out) = calls w
  /\ tables (store (snd out)) = tables (store w).
Proof.
  intros Hgua Ha out.
  destruct (get_user_and_app_frame E u c w _ w1 Hgua) as (HC & _ & HT).
  unfold out, add_memories.
  rewrite (tool_prelude_ready E u c cl Hu Hc Hcl).
  rewrite in_session_fst, in_session_snd.
  run. rewrite Hgua. run. rewrite Ha.
  cbn [negb fst snd fresh_session store calls].
  repeat split; assumption.
Qed.


Lemma delete_row_effect user i w :
  let w' := snd (delete_row E user tt i w) in
  memories (session w') = deleted_rows E [i] (memories (session w))
  /\ access_logs (session w') = access_logs (session w)
  /\ store w' = store w /\ calls w' = calls w.
Proof.
  cbv zeta. unfold delete_row. run.
  destruct (find_memory (session w) i) as [m|] eqn:Hm;
    unfold db_update, modify; run.
  - repeat split. cbn [memories add_history update_memory_row].
    unfold deleted_rows. apply map_ext. intros x. cbn [existsb].
    now rewrite orb_false_r.
  - repeat split. unfold deleted_rows.
    rewrite <- (map_id (memories (session w))) at 1.
    apply map_ext_in. intros x Hx. cbn [existsb]. rewrite orb_false_r.
    destruct (memory_pk x =? i) eqn:Ex; [|reflexivity].
    unfold find_memory in Hm.
    now rewrite (find_none _ _ Hm x Hx) in Ex.
Qed.

Lemma deleted_rows_cons i ids rows :
  deleted_rows E ids (deleted_rows E [i] rows) = deleted_rows E (i :: ids) rows.
Proof.
  unfold deleted_rows. rewrite map_map. apply map_ext. intros x.
  cbn [existsb]. rewrite orb_false_r.
  destruct (memory_pk x =? i); cbn [orb mark_deleted memory_pk]; [|reflexivity].
  now destruct (existsb (N.eqb (memory_pk x)) ids).
Qed.

Lemma delete_rows_effect user ids : forall w,
  let w' := snd (for_each_m (delete_row E user) ids tt w) in
  memories (session w') = deleted_rows E ids (memories (session w))
  /\ access_logs (session w') = access_logs (session w)
  /\ store w' = store w /\ calls w' = calls w.
Proof.
  induction ids as [|i ids IH]; intros w; cbv zeta; cbn [for_each_m].
  - repeat split. unfold deleted_rows. cbn [existsb].
    now rewrite map_id.
  - pose proof (delete_row_effect user i w) as H1. cbv zeta in H1.
    assert (Hr : fst (delete_row E user tt i w) = Ok tt).
    { unfold delete_row. run.
      destruct (find_memory (session w) i); reflexivity. }
    assert (Heq : (acc' <- delete_row E user tt i ;;
                   for_each_m (delete_row E user) ids acc') w
                  = for_each_m (delete_row E user) ids tt
                      (snd (delete_row E user tt i w))).
    { unfold bind. destruct (delete_row E user tt i w) as [r w0].
      cbn [fst snd] in *. now subst r. }
    rewrite Heq.
    destruct H1 as (Hm & Hl & Hst & Hca).
    destruct (IH (snd (delete_row E user tt i w))) as (Hm' & Hl' & Hst' & Hca').
    rewrite Hm', Hl', Hst', Hca', Hm, Hl, Hst, Hca.
    now rewrite deleted_rows_cons.
Qed.

(** X18.  When the backend's [delete_all] returns and the store accepts
    the commit, [delete_all_memories] marks as deleted, at the current
    time, exactly the rows whose id is among the user's memories that the
    permission check grants to the caller's application; every other row
    is left as it is.  It adds one access event of type [delete_all] for
    each of these ids and reports their number. *)
Theorem delete_all_memories_marks_accessible w user app w1 v :
  get_user_and_app E u c (fresh_session w) = (Ok (user, app), w1) ->
  cl (calls w1) (delete_all_call u) = Ok v ->
  commit_fault E = None ->
  let ids := accessible_ids E (session w1) user app in
  let out := delete_all_memories E (Some u) (Some c) w in
  fst out
  = Ok (Text (py "Successfully deleted " ++ str_of_nat (length ids)
              ++ py " accessible memories"))
  /\ memories (store (snd out))
     = map (fun m => if existsb (N.eqb (memory_pk m)) ids
                     then mark_deleted (now E) m else m)
           (memories (store w))
  /\ access_logs (store (snd out))
     = access_logs (store w)
       ++ access_events ids (app_pk app) (py "delete_all")
            (VDict [ (py "operation", VStr (py "bulk_delete"));
                     (py "count", VInt (Z.of_nat (length ids))) ]).
Proof.
  intros Hgua Hs Hf ids out.
  destruct (get_user_and_app_frame E u c w _ w1 Hgua) as (HC & HT & _).
  injection HT as HTm HTh HTl.
  unfold out, delete_all_memories.
  rewrite (tool_prelude_ready E u c cl Hu Hc Hcl).
  rewrite in_session_fst, in_session_snd.
  run. rewrite Hgua. run. rewrite Hs. run. fold ids.
  match goal with
  | |- context [for_each_m (delete_row E user) ids tt ?w0] =>
      pose proof (delete_rows_effect user ids w0) as Heff;
      pose proof (delete_rows_return E user ids w0) as Hret;
      destruct (for_each_m (delete_row E user) ids tt w0) as [r0 w2]
  end.
  cbv zeta in Heff. cbn [fst snd session store calls after_call] in Heff, Hret.
  subst r0. destruct Heff as (Hm & Hl & Hst & Hca).
  unfold db_commit. rewrite Hf. unfold modify.
  destruct ids as [|i ids'] eqn:Eids; cbv beta iota.
  - cbn [fst snd fresh_session store session access_events map length].
    rewrite app_nil_r. split; [reflexivity|].
    rewrite Hm, Hl, HTm, HTl. split; reflexivity.
  - rewrite log_memory_access_commits by exact Hf.
    cbv zeta. cbn [fst snd fresh_session store session calls].
    split; [reflexivity|].
    rewrite fold_access_log_memories, fold_access_log_logs.
    rewrite Hm, Hl, HTm, HTl. split; reflexivity.
Qed.

End ToolRuns.

(** ** The access filter, the audit log and the other endpoints *)

Section Access.

Import ResilientMemoryClient Server Endpoints.

Variable E : Env.

(** X19.  The tools that work on records named by the caller
    ([add_memories], [get_memory], [update_memory], [delete_memory],
    [get_memory_history], [batch_update_memories],
    [batch_delete_memories]) and [get_entities] never consult the
    authorization check: their answer and their effect are the same
    under any two checks. *)
Theorem named_record_tools_ignore_permissions check check' uid client_name t w :
  consults_permissions t = false ->
  call_tool (with_permissions check E) uid client_name t w
  = call_tool (with_permissions check' E) uid client_name t w.
Proof.
  intros H. destruct t; try discriminate H; reflexivity.
Qed.


Variable db : DB.
Variable app_id : UUID.

Lemma accept_candidate_granted c acc acc' :
  Forall2 (granted E db app_id) (fst acc) (snd acc) ->
  accept_candidate E db app_id c acc = Ok acc' ->
  Forall2 (granted E db app_id) (fst acc') (snd acc').
Proof.
  intros Hacc. unfold accept_candidate.
  destruct (py_getitem c (py "id")) as [idv|e] eqn:Eg.
  2:{ destruct (is_ValueError e); [now intros [= <-]|discriminate]. }
  destruct (uuid_of E idv) as [id|e] eqn:Eu.
  2:{ destruct (is_ValueError e); [now intros [= <-]|discriminate]. }
  destruct (find_memory db id) as [m|] eqn:Em; [|now intros [= <-]].
  destruct (check_memory_access_permissions E db m app_id) eqn:Ec;
    [|now intros [= <-]].
  intros [= <-]. cbn [fst snd]. apply Forall2_app; [exact Hacc|].
  constructor; [|constructor]. split; [|eauto].
  destruct c; try discriminate Eg. cbn [py_getitem] in Eg.
  destruct (dict_get (py "id") entries) eqn:Ed; [|discriminate].
  injection Eg as ->.
  destruct idv; try discriminate Eu. cbn [uuid_of] in Eu.
  destruct (uuid_parse E s) eqn:Ep; [|discriminate].
  injection Eu as ->. exists entries, s. auto.
Qed.

(** X20.  [filter_accessible_memories] returns two lists of the same
    length, the records and their ids in the same order, and every
    record it returns has been granted: its id is a string that parses
    to the UUID of a row of the store for which the authorization check
    answered yes for the caller's application. *)
Theorem filter_accessible_memories_granted memories user_id :
  let r := filter_accessible_memories E db memories user_id app_id in
  Forall2 (granted E db app_id) (fst r) (snd r).
Proof.
  cbv zeta. unfold filter_accessible_memories.
  destruct (negb (py_truthy memories)); [constructor|].
  destruct (find_user db user_id); [|constructor].
  destruct memories; try constructor.
  - destruct (for_each (visit_memory E db app_id) items ([], [])) as [r|e] eqn:Ef;
      [|constructor].
    eapply (for_each_invariant _
              (fun acc => Forall2 (granted E db app_id) (fst acc) (snd acc))); eauto;
      [|constructor].
    intros acc x acc' _ Hacc. unfold visit_memory.
    destruct x; try (now intros [= <-]).
    destruct (dict_has (py "id") entries); [|now intros [= <-]].
    now apply accept_candidate_granted.
  - destruct (dict_get (py "results") entries) as [results|]; [|constructor].
    destruct (py_iter results) as [l|e]; [|constructor].
    destruct (for_each (visit_result E db app_id) l ([], [])) as [r|e] eqn:Ef;
      [|constructor].
    eapply (for_each_invariant _
              (fun acc => Forall2 (granted E db app_id) (fst acc) (snd acc))); eauto;
      [|constructor].
    intros acc x acc' _ Hacc. unfold visit_result.
    destruct (py_in (py "id") x) as [[|]|e]; try discriminate.
    + now apply accept_candidate_granted.
    + now intros [= <-].
Qed.

(** X21.  [log_memory_access] is all or nothing.  When the store accepts
    the commit it returns with one event for each id, in order, added to
    the access log and committed, each with the application, the access
    type and the metadata given (an empty dict for a metadata that
    counts as false); when the commit raises, the exception is passed on
    and the committed store is as before. *)
Theorem log_memory_access_all_or_nothing memory_ids app access_type metadata w :
  let out := log_memory_access E memory_ids app access_type metadata w in
  let events :=
    access_events memory_ids app access_type
      (if py_truthy metadata then metadata else VDict []) in
  match commit_fault E with
  | None =>
      fst out = Ok tt
      /\ access_logs (store (snd out)) = access_logs (session w) ++ events
      /\ session (snd out) = store (snd out)
  | Some e => fst out = Raise e /\ store (snd out) = store w
  end.
Proof.
  cbv zeta. unfold log_memory_access, bind, db_update, db_commit, modify.
  destruct (commit_fault E) as [e|]; cbn [fst snd store session].
  - split; reflexivity.
  - split; [reflexivity|]. split; [|reflexivity].
    apply fold_access_log_logs.
Qed.

(** [get_entities], once the identity is bound and a client is
    there, makes the single call [users()] on the client and touches
    neither the session nor the store.  It answers with the entities as
    JSON, with ['No entities found'] when the client returns [None], and
    with an error text when the client raises an [Exception]. *)
Lemma get_entities_single_call u c cl w :
  u <> [] -> c <> [] -> memory_client E = Some cl ->
  let call := mk_call (py "users") [] [] in
  get_entities E (Some u) (Some c) w
  = (match cl (calls w) call with
     | Ok VNone => Ok (Text (py "No entities found"))
     | Ok entities => Ok (JsonDumps entities)
     | Raise e =>
         if is_Exception e
         then Ok (Text (py "Error getting entities: " ++ exc_msg e))
         else Raise e
     end,
     after_call w call).
Proof.
  intros Hu Hc Hcl. cbv zeta. unfold get_entities.
  rewrite (tool_prelude_ready E u c cl Hu Hc Hcl).
  unfold except_Exception, catch, bind, attempt, client_call.
  destruct (cl (calls w) (mk_call (py "users") [] [])) as [[]|e]; try reflexivity.
  unfold ret, raise. destruct (is_Exception e) eqn:He; [reflexivity|].
  now rewrite He.
Qed.

End Access.

Section PostEndpoint.

Import Endpoints.

Context {S : Type}.
Variable request_body : M S str.
Variable sse_handle_post_message : str -> M S unit.

(** X22.  The POST endpoint never lets an [Exception] out and always
    answers with a status.  The status is [ok] exactly when the body was
    read and the transport handled it; a [RuntimeError] whose text says
    that the request came before the initialization was complete gives
    the status [warning] with the advice to retry; any other
    [Exception] gives the status [error] with its text. *)
Theorem handle_post_message_status s :
  let run := (body <- request_body ;; sse_handle_post_message body) in
  let status st := (py "status", VStr (py st)) in
  fst (handle_post_message request_body sse_handle_post_message s)
  = match fst (run s) with
    | Ok _ => Ok (VDict [status "ok"%string])
    | Raise e =>
        if is_RuntimeError e
           && contains (py "Received request before initialization was complete")
                (exc_msg e)
        then Ok (VDict [ status "warning"%string;
                         (py "message",
                          VStr (py "Server initializing, please retry")) ])
        else if is_Exception e
             then Ok (VDict [ status "error"%string;
                              (py "message", VStr (exc_msg e)) ])
             else Raise e
    end
  /\ snd (handle_post_message request_body sse_handle_post_message s)
     = snd (run s).
Proof.
  cbv zeta. unfold handle_post_message, catch, bind.
  destruct (request_body s) as [[body|e] s1].
  - destruct (sse_handle_post_message body s1) as [[[]|e] s2].
    + split; reflexivity.
    + cbn [fst snd]. destruct e as [cls msg].
      destruct cls; cbn [is_RuntimeError is_Exception exc_cls exc_msg andb];
        try (split; reflexivity).
      destruct (contains _ msg); split; reflexivity.
  - cbn [fst snd]. destruct e as [cls msg].
    destruct cls; cbn [is_RuntimeError is_Exception exc_cls exc_msg andb];
      try (split; reflexivity).
    destruct (contains _ msg); split; reflexivity.
Qed.

End PostEndpoint.

(** ** The tools when the memory client fails or has nothing to give *)

Section ToolFailures.

Import ResilientMemoryClient Server Endpoints.

Variable E : Env.
Variables (u c : str) (cl : backend).
Hypothesis Hu : u <> [].
Hypothesis Hc : c <> [].
Hypothesis Hcl : memory_client E = Some cl.

Ltac run :=
  cbv beta iota zeta delta
    [bind attempt client_call db_view get ret lift raise
     except_ValueError catch];
  cbn [session calls store after_call fst snd].




End ToolFailures.

(** ** [add_memories] and the shadow tables *)

Section AddMemories.

Import ResilientMemoryClient Server Endpoints.

Variable E : Env.

Ltac run :=
  cbv beta iota zeta delta
    [bind attempt client_call db_view get ret lift raise
     except_ValueError catch];
  cbn [session calls store after_call fst snd].

Lemma store_db_update S f : stable (fun w => store w = S) (db_update f).
Proof. apply stable_modify. intros w H. exact H. Qed.

Lemma store_track_result S user app x result :
  stable (fun w => store w = S) (track_result E user app x result).
Proof.
  unfold track_result.
  repeat (first
    [ apply stable_bind; [|intros ?]
    | apply stable_db_view
    | apply stable_ret
    | apply stable_lift
    | apply store_db_update
    | match goal with
      | |- stable _ (match ?x with _ => _ end) => destruct x
      | |- stable _ (if ?x then _ else _) => destruct x
      end ]).
Qed.

(** X25.  [add_memories] changes the tables of memories, history and
    access events only on the path that ends with the backend's response
    returned as JSON: whenever it answers with anything else (an error
    text, a warning, the text of a response that is not a dict), what
    it had prepared in the session is dropped and the store holds the
    same rows as before, even though the backend may have stored the
    memory already. *)
Theorem add_memories_all_or_nothing uid client_name text metadata infer w :
  let out := add_memories E uid client_name text metadata infer w in
  tables (store (snd out)) = tables (store w)
  \/ exists response, fst out = Ok (JsonDumps response).
Proof.
  cbv zeta. unfold add_memories.
  match goal with
  | |- context [tool_prelude E uid client_name ?k w] =>
      destruct (tool_prelude_cases E uid client_name k w)
        as [(msg & ->)|(u & c & cl & -> & -> & Hu & Hc & Hcl & ->)];
        [now left|]
  end.
  rewrite in_session_fst, in_session_snd.
  match goal with
  | |- context [fresh_session (snd (?body (fresh_session w)))] =>
      assert (Hb : tables (store (snd (body (fresh_session w))))
                   = tables (store w)
                   \/ exists response,
                       fst (body (fresh_session w)) = Ok (JsonDumps response));
        [|destruct (body (fresh_session w)) as [r w2];
          cbn [fst snd fresh_session store] in *;
          destruct Hb as [Hb|[response ->]]; [now left|right; eauto]]
  end.
  run.
  destruct (get_user_and_app E u c (fresh_session w)) as [[[user app]|e0] w1]
    eqn:Hgua;
    destruct (get_user_and_app_frame E u c w _ w1 Hgua) as (_ & _ & HT);
    run; [|now left].
  destruct (negb (app_is_active app)); run; [now left|].
  destruct (Json.loads metadata) as [md0| |d]; run; try (now left).
  destruct (unpack_mapping md0) as [md|e1]; run; [|now left].
  match goal with
  | |- context [cl (calls w1) ?call] => destruct (cl (calls w1) call) as [r|e2]
  end; run.
  2:{ destruct (is_Exception e2); run; now left. }
  destruct r; run; try (now left).
  destruct (dict_get (py "results") entries) as [results|]; run;
    [|right; eauto].
  destruct (py_len results); run; [|now left].
  destruct (py_iter results) as [l|e3]; run; [|now left].
  match goal with
  | |- context [for_each_m (track_result E user app) l tt ?w3] =>
      pose proof (stable_for_each_m (fun w => store w = store w1)
                    (track_result E user app) l
                    (fun acc x => store_track_result (store w1) user app acc x)
                    tt w3 eq_refl) as Hst;
      destruct (for_each_m (track_result E user app) l tt w3) as [[[]|e4] w4]
  end; cbn [snd] in Hst; run.
  2:{ left. now rewrite Hst. }
  unfold db_commit. destruct (commit_fault E) as [e5|]; run.
  - left. now rewrite Hst.
  - unfold modify. run. right. eauto.
Qed.






End AddMemories.

(** ** The configuration helpers *)

Section ConfigurationFacts.

Import ResilientMemoryClient Configuration.

Lemma str_eqb_eq a b : str_eqb a b = true <-> a = b.
Proof. unfold str_eqb. apply bool_decide_eq_true. Qed.

Lemma str_eqb_neq a b : str_eqb a b = false <-> a <> b.
Proof. unfold str_eqb. apply bool_decide_eq_false. Qed.

Lemma dict_set_fresh k v d :
  ~ In k (dict_keys d) -> dict_set k v d = d ++ [(k, v)].
Proof.
  induction d as [|[k' v'] d IH]; cbn [dict_set dict_keys map fst app In];
    [reflexivity|].
  intros H. destruct (str_eqb k k') eqn:E.
  - apply str_eqb_eq in E. subst. destruct H. now left.
  - rewrite IH; [reflexivity|]. intros Hk. apply H. now right.
Qed.

(** On a dict, whose keys are distinct, a loop that assigns
    [result[key] = f(value)] for every item builds the dict of the same
    keys in the same order. *)
Lemma fold_dict_set_map (f : value -> value) d : forall acc,
  List.NoDup (dict_keys (acc ++ d)) ->
  fold_left (fun r (kv : str * value) => dict_set (fst kv) (f (snd kv)) r) d acc
  = acc ++ map (fun kv => (fst kv, f (snd kv))) d.
Proof.
  induction d as [|[k v] d IH]; intros acc Hnd; cbn [fold_left map].
  - now rewrite app_nil_r.
  - cbn [fst snd].
    assert (Hk : ~ In k (dict_keys acc)).
    { unfold dict_keys in *. rewrite map_app in Hnd.
      apply List.NoDup_remove_2 in Hnd. intros Hin. apply Hnd.
      apply in_or_app. now left. }
    rewrite (dict_set_fresh k (f v) acc Hk).
    rewrite IH.
    + now rewrite <- app_assoc.
    + unfold dict_keys in *. rewrite !map_app in *.
      cbn [map fst] in *. now rewrite <- app_assoc.
Qed.

Lemma dict_get_map (f : value -> value) k d :
  dict_get k (map (fun kv => (fst kv, f (snd kv))) d)
  = option_map f (dict_get k d).
Proof.
  induction d as [|[k' v'] d IH]; cbn [map dict_get fst snd option_map];
    [reflexivity|].
  destruct (str_eqb k k'); [reflexivity|exact IH].
Qed.

Lemma parse_step env r key v :
  (let '(key, value) := (key, v) in
   match value with
   | VStr s =>
       if startswith (py "env:") s then
         let env_var := drop 4 s in
         match env_value env env_var with
         | Some x => dict_set key (VStr x) r
         | None => dict_set key value r
         end
       else dict_set key value r
   | VDict _ => dict_set key (_parse_environment_variables env value) r
   | _ => dict_set key value r
   end)
  = dict_set key (parsed_value env v) r.
Proof.
  unfold parsed_value. destruct v; try reflexivity.
  destruct (startswith (py "env:") s); [|reflexivity].
  cbv zeta. now destruct (env_value env (drop 4 s)).
Qed.

Lemma parse_as_map env d :
  List.NoDup (dict_keys d) ->
  _parse_environment_variables env (VDict d)
  = VDict (map (fun kv => (fst kv, parsed_value env (snd kv))) d).
Proof.
  intros Hnd.
  transitivity
    (VDict (fold_left
              (fun r (kv : str * value) =>
                 dict_set (fst kv) (parsed_value env (snd kv)) r) d [])).
  - cbn [_parse_environment_variables]. f_equal.
    generalize (@nil (str * value)). clear Hnd.
    induction d as [|[k v] d IH]; intros acc; cbn [fold_left]; [reflexivity|].
    cbn [fst snd]. rewrite <- (parse_step env acc k v). apply IH.
  - f_equal. exact (fold_dict_set_map (parsed_value env) d [] Hnd).
Qed.

(** X27.  [_parse_environment_variables] on a dict (its keys are
    distinct) gives a dict with the same keys in the same order, in
    which: a string [env:NAME] is replaced by the value of the
    environment variable [NAME] when that variable is set and not
    empty, and kept as it is otherwise; a nested dict is parsed in the
    same way; every other value, a list included, is kept as it is. *)
Theorem parse_environment_variables_resolves env d :
  List.NoDup (dict_keys d) ->
  exists d',
    _parse_environment_variables env (VDict d) = VDict d'
    /\ dict_keys d' = dict_keys d
    /\ (forall k (name v : str),
           dict_get k d = Some (VStr (py "env:" ++ name)) ->
           env_value env name = Some v ->
           dict_get k d' = Some (VStr v))
    /\ (forall k (name : str),
           dict_get k d = Some (VStr (py "env:" ++ name)) ->
           env_value env name = None ->
           dict_get k d' = Some (VStr (py "env:" ++ name)))
    /\ (forall k inner,
           dict_get k d = Some (VDict inner) ->
           dict_get k d' = Some (_parse_environment_variables env (VDict inner)))
    /\ (forall k v,
           dict_get k d = Some v ->
           (forall s, v = VStr s -> startswith (py "env:") s = false) ->
           (forall inner, v <> VDict inner) ->
           dict_get k d' = Some v).
Proof.
  intros Hnd. eexists. split; [exact (parse_as_map env d Hnd)|].
  split; [|split; [|split; [|split]]].
  - unfold dict_keys. rewrite map_map. reflexivity.
  - intros k name v Hk He. rewrite dict_get_map, Hk. cbn [option_map].
    unfold parsed_value.
    change (py "env:" ++ name) with (101 :: 110 :: 118 :: 58 :: name).
    change (startswith (py "env:") (101 :: 110 :: 118 :: 58 :: name)) with true.
    cbv iota. change (drop 4 (101 :: 110 :: 118 :: 58 :: name)) with name.
    now rewrite He.
  - intros k name Hk He. rewrite dict_get_map, Hk. cbn [option_map].
    unfold parsed_value.
    change (py "env:" ++ name) with (101 :: 110 :: 118 :: 58 :: name).
    change (startswith (py "env:") (101 :: 110 :: 118 :: 58 :: name)) with true.
    cbv iota. change (drop 4 (101 :: 110 :: 118 :: 58 :: name)) with name.
    now rewrite He.
  - intros k inner Hk. now rewrite dict_get_map, Hk.
  - intros k v Hk Hs Hd. rewrite dict_get_map, Hk. cbn [option_map].
    f_equal. unfold parsed_value. destruct v; try reflexivity.
    + now rewrite (Hs s eq_refl).
    + now destruct (Hd entries).
Qed.


Lemma masked_text_shown s1 s2 :
  shown s1 = shown s2 -> masked_text s1 = masked_text s2.
Proof.
  unfold shown, masked_text.
  destruct (Nat.ltb 4 (length s1)), (Nat.ltb 4 (length s2));
    try discriminate; now intros [= ->].
Qed.

Lemma mask_unfold lower d path :
  mask_sensitive_data lower (VDict d) path
  = VDict (fold_left (mask_item lower path) d []).
Proof. reflexivity. Qed.

Lemma mask_item_secret lower path masked key s :
  is_sensitive lower key = true ->
  mask_item lower path masked (key, VStr s)
  = dict_set key (VStr (masked_text s)) masked.
Proof.
  intros H. unfold mask_item. rewrite H. now destruct s.
Qed.

(** X28.  [mask_sensitive_data] shows of a secret only its last four
    characters, or only its length when it has at most four: two
    configurations that differ in the string under a key whose lower
    case is [api_key], [password] or [token], and agree on what is shown
    of it, are printed alike.  The same holds at any depth: under a key
    that is not one of the three, two values that are masked alike give
    configurations that are masked alike. *)
Theorem mask_sensitive_data_hides_secret lower d1 d2 key path :
  (forall s1 s2,
      is_sensitive lower key = true ->
      shown s1 = shown s2 ->
      mask_sensitive_data lower (VDict (d1 ++ (key, VStr s1) :: d2)) path
      = mask_sensitive_data lower (VDict (d1 ++ (key, VStr s2) :: d2)) path)
  /\ (forall v1 v2,
         is_sensitive lower key = false ->
         (forall p, mask_sensitive_data lower v1 p
                    = mask_sensitive_data lower v2 p) ->
         mask_sensitive_data lower (VDict (d1 ++ (key, v1) :: d2)) path
         = mask_sensitive_data lower (VDict (d1 ++ (key, v2) :: d2)) path).
Proof.
  split.
  - intros s1 s2 Hk Hs. rewrite !mask_unfold, !fold_left_app.
    cbn [fold_left]. rewrite !mask_item_secret by exact Hk.
    now rewrite (masked_text_shown s1 s2 Hs).
  - intros v1 v2 Hk Hv. rewrite !mask_unfold, !fold_left_app.
    cbn [fold_left].
    assert (Hi : forall masked v,
               mask_item lower path masked (key, v)
               = dict_set key
                   (mask_sensitive_data lower v
                      match path with
                      | [] => key
                      | _ :: _ => path ++ py "." ++ key
                      end) masked).
    { intros masked v. unfold mask_item. now rewrite Hk. }
    now rewrite !Hi, Hv.
Qed.

Lemma cleared_lookup (found : list str) : forall (env : environ) (name : str),
  fold_left (fun e var => delete var e) found env !! name
  = if existsb (str_eqb name) found then None else env !! name.
Proof.
  induction found as [|x found IH]; intros env name; cbn [fold_left existsb];
    [reflexivity|].
  rewrite IH. destruct (existsb (str_eqb name) found).
  - now rewrite orb_true_r.
  - rewrite orb_false_r. destruct (str_eqb name x) eqn:E.
    + apply str_eqb_eq in E. subst. apply lookup_delete_eq.
    + apply str_eqb_neq in E. now apply lookup_delete_ne.
Qed.


Lemma found_conflicts_spec (env : environ) var :
  existsb (str_eqb var) (found_conflicts env) = true
  <-> In var conflicting_vars /\ exists v, env_value env var = Some v.
Proof.
  unfold found_conflicts. rewrite existsb_exists. split.
  - intros (x & Hx & E). apply str_eqb_eq in E. subst x.
    apply filter_In in Hx as [Hin Hv]. split; [exact Hin|].
    destruct (env_value env var); [eauto|discriminate].
  - intros (Hin & v & Hv). exists var. split; [|now apply str_eqb_eq].
    apply filter_In. split; [exact Hin|]. now rewrite Hv.
Qed.

Lemma original_values_lookup (env : environ) found var :
  existsb (str_eqb var) found = true ->
  dict_get var
    (map (fun var => (var, match env !! var with
                           | Some v => VStr v
                           | None => VNone
                           end)) found)
  = Some match env !! var with Some v => VStr v | None => VNone end.
Proof.
  induction found as [|x found IH]; cbn [existsb map dict_get]; [discriminate|].
  destruct (str_eqb var x) eqn:E.
  - apply str_eqb_eq in E. now subst.
  - cbn [orb]. exact IH.
Qed.

(** X29.  When [_ensure_config_priority] returns, the environment has
    lost nothing but variables among [OPENAI_API_BASE] and
    [OPENAI_BASE_URL] that had a value, and every variable it has lost is
    recorded with the value it had, under [_original_env_vars] in the
    configuration returned.  When the [llm] section of the configuration
    sets an [openai_base_url] that counts as true, neither of the two
    variables is left with a value. *)
Theorem ensure_config_priority_clears_conflicts config_dict env config' env' :
  _ensure_config_priority config_dict env = (Ok config', env') ->
  (forall name : str,
      env' !! name = env !! name
      \/ (In name conflicting_vars
          /\ env' !! name = None
          /\ exists v d o,
               env_value env name = Some v
               /\ config' = VDict d
               /\ dict_get (py "_original_env_vars") d = Some (VDict o)
               /\ dict_get name o = Some (VStr v)))
  /\ (forall d llm config url,
         config_dict = VDict d ->
         dict_get (py "llm") d = Some (VDict llm) ->
         dict_get (py "config") llm = Some (VDict config) ->
         dict_get (py "openai_base_url") config = Some url ->
         py_truthy url = true ->
         forall var, In var conflicting_vars -> env_value env' var = None).
Proof.
  unfold _ensure_config_priority.
  cbv beta iota zeta delta [bind lift get put ret raise].
  destruct (py_get config_dict (py "llm") (VDict [])) as [llm|] eqn:E1;
    [|discriminate].
  destruct (py_get llm (py "config") (VDict [])) as [llm_config|] eqn:E2;
    [|discriminate].
  destruct (py_get config_dict (py "embedder") (VDict [])) as [embedder|];
    [|discriminate].
  destruct (py_get embedder (py "config") (VDict [])) as [embedder_config|];
    [|discriminate].
  destruct (py_get config_dict (py "graph_store") (VDict [])) as [graph_store|];
    [|discriminate].
  destruct (py_get graph_store (py "llm") (VDict [])) as [graph_llm|];
    [|discriminate].
  destruct (py_get graph_llm (py "config") (VDict [])) as [graph_llm_config|];
    [|discriminate].
  destruct (py_get llm_config (py "openai_base_url") VNone) as [llm_url|] eqn:E3;
    [|discriminate].
  destruct (py_get embedder_config (py "openai_base_url") VNone)
    as [embedder_url|]; [|discriminate].
  destruct (py_get graph_llm_config (py "openai_base_url") VNone)
    as [graph_llm_url|]; [|discriminate].
  assert (Hkeep : forall name : str,
             existsb (str_eqb name) (found_conflicts env) = false ->
             In name conflicting_vars -> env_value env name = None).
  { intros name Hn Hin. destruct (env_value env name) as [v|] eqn:Ev;
      [|reflexivity].
    assert (existsb (str_eqb name) (found_conflicts env) = true)
      by (apply found_conflicts_spec; eauto).
    congruence. }
  intros Hrun.
  assert (Hdone :
            (config' = config_dict /\ env' = env
             /\ (found_conflicts env = []
                 \/ List.filter py_truthy [llm_url; embedder_url; graph_llm_url] = []))
            \/ (exists d,
                  config_dict = VDict d
                  /\ List.filter py_truthy [llm_url; embedder_url; graph_llm_url] <> []
                  /\ config'
                     = VDict (dict_set (py "_original_env_vars")
                                (VDict (map (fun var =>
                                               (var, match env !! var with
                                                     | Some v => VStr v
                                                     | None => VNone
                                                     end))
                                            (found_conflicts env))) d)
                  /\ env' = fold_left (fun e var => delete var e)
                              (found_conflicts env) env)).
  { destruct (List.filter py_truthy [llm_url; embedder_url; graph_llm_url])
      as [|x l] eqn:Ef.
    - injection Hrun as <- <-. left. auto.
    - destruct (found_conflicts env) as [|y f] eqn:Efc.
      + injection Hrun as <- <-. left. auto.
      + destruct config_dict; try discriminate Hrun.
        injection Hrun as <- <-. right. eexists. repeat split. discriminate. }
  clear Hrun. split.
  - intros name. destruct Hdone as [(-> & -> & _)|(d & -> & _ & -> & ->)];
      [now left|].
    rewrite cleared_lookup.
    destruct (existsb (str_eqb name) (found_conflicts env)) eqn:Ein;
      [|now left].
    right. pose proof Ein as Hin.
    apply found_conflicts_spec in Hin as (Hin & v & Hv).
    split; [exact Hin|]. split; [reflexivity|].
    exists v, (dict_set (py "_original_env_vars")
                 (VDict (map (fun var =>
                                (var, match env !! var with
                                      | Some v => VStr v
                                      | None => VNone
                                      end))
                             (found_conflicts env))) d).
    eexists. split; [exact Hv|]. split; [reflexivity|].
    split; [apply dict_get_set_same|].
    rewrite (original_values_lookup env _ name Ein).
    unfold env_value in Hv. destruct (env !! name) as [[|a s]|];
      try discriminate. now injection Hv as <-.
  - intros d llm0 config url -> Hl Hc Hu Ht var Hvar.
    cbn [py_get] in E1. rewrite Hl in E1. injection E1 as <-.
    cbn [py_get] in E2. rewrite Hc in E2. injection E2 as <-.
    cbn [py_get] in E3. rewrite Hu in E3. injection E3 as <-.
    destruct Hdone as [(-> & -> & [Hno|Hno])|(d' & _ & _ & -> & ->)].
    + apply Hkeep; [now rewrite Hno|exact Hvar].
    + cbn [List.filter] in Hno. rewrite Ht in Hno. discriminate.
    + unfold env_value. rewrite cleared_lookup.
      destruct (existsb (str_eqb var) (found_conflicts env)) eqn:Ein;
        [reflexivity|].
      exact (Hkeep var Ein Hvar).
Qed.

End ConfigurationFacts.

(** ** The completion of a configuration *)

Section Completion.

Import ConfigManager.

Lemma merge_step result key v :
  (let '(key, value) := (key, v) in
   match dict_get key result, value with
   | Some (VDict b), VDict _ => dict_set key (VDict (deep_merge b value)) result
   | _, _ => dict_set key value result
   end)
  = dict_set key (merged_value (dict_get key result) v) result.
Proof.
  unfold merged_value.
  destruct (dict_get key result) as [[]|]; try reflexivity.
  now destruct v.
Qed.

Lemma deep_merge_unfold base o :
  deep_merge base (VDict o)
  = fold_left (fun result (item : str * value) =>
                 dict_set (fst item)
                   (merged_value (dict_get (fst item) result) (snd item))
                   result) o base.
Proof.
  cbn [deep_merge]. revert base.
  induction o as [|[k v] o IH]; intros base; cbn [fold_left]; [reflexivity|].
  cbn [fst snd]. rewrite <- (merge_step base k v). apply IH.
Qed.

Lemma dict_get_absent k (d : dict) :
  ~ In k (dict_keys d) -> dict_get k d = None.
Proof.
  induction d as [|[k' v'] d IH]; cbn [dict_get dict_keys map fst In];
    [reflexivity|].
  intros H. destruct (str_eqb k k') eqn:E.
  - apply str_eqb_eq in E. subst. destruct H. now left.
  - apply IH. intros Hin. apply H. now right.
Qed.

Lemma deep_merge_lookup o : forall base k,
  List.NoDup (dict_keys o) ->
  dict_get k (deep_merge base (VDict o))
  = match dict_get k o with
    | Some v => Some (merged_value (dict_get k base) v)
    | None => dict_get k base
    end.
Proof.
  intros base k Hnd. rewrite deep_merge_unfold. revert base.
  induction o as [|[k' v'] o IH]; intros base; cbn [fold_left dict_get];
    [reflexivity|].
  cbn [fst snd]. cbn [dict_keys map fst] in Hnd.
  inversion Hnd as [|? ? Hnotin Hnd']; subst.
  rewrite (IH Hnd'). destruct (str_eqb k k') eqn:E.
  - apply str_eqb_eq in E. subst k'.
    rewrite (dict_get_absent k o Hnotin). apply dict_get_set_same.
  - apply str_eqb_neq in E.
    now rewrite (dict_get_set_other k k' _ base E).
Qed.

(** X30.  [ensure_config_completeness] completes a stored
    configuration (a dict; its keys are distinct) from the built-in
    default, key by key: a key that the configuration does not have
    takes the default's value; a key that it has keeps the
    configuration's value, except that where both values are dicts the
    two are merged in the same way, by [deep_merge] (an override with
    distinct keys).  So a stored value is never replaced by a default,
    and no key of the default is missing from the result. *)
Theorem ensure_config_completeness_lookup default_config config :
  List.NoDup (dict_keys config) ->
  exists complete,
    ensure_config_completeness default_config (VDict config)
    = Ok (VDict complete)
    /\ (forall k,
           dict_get k complete
           = match dict_get k config with
             | Some v => Some (merged_value (dict_get k default_config) v)
             | None => dict_get k default_config
             end)
    /\ (forall base o k,
           List.NoDup (dict_keys o) ->
           dict_get k (deep_merge base (VDict o))
           = match dict_get k o with
             | Some v => Some (merged_value (dict_get k base) v)
             | None => dict_get k base
             end)
    /\ (forall k, dict_has k default_config = true ->
                  dict_has k complete = true).
Proof.
  intros Hnd. eexists. split; [reflexivity|].
  split; [|split].
  - intros k. now apply deep_merge_lookup.
  - intros base o k Ho. now apply deep_merge_lookup.
  - intros k Hk. unfold dict_has in *.
    rewrite (deep_merge_lookup config _ k Hnd).
    destruct (dict_get k config); [reflexivity|exact Hk].
Qed.

End Completion.

(** ** Runs of the further properties on the sample instances *)

Section MoreRuns.

Import LLMResponseInterceptor ResilientMemoryClient Server Endpoints.
Import Configuration PlainText ConfigManager Sample Scenarios.

Lemma resolved_sample :
  get_user_and_app coffee_env u1 cursor (fresh_session sample_world)
  = (Ok (sample_user, sample_app), sample_world).
Proof. vm_compute. reflexivity. Qed.

Lemma tools_leave_nothing_pending_witness :
  session sample_world = store sample_world
  /\ session (snd (call_tool coffee_env (Some u1) (Some cursor)
                     (SearchMemory (py "coffee") 10 (py "{}")) sample_world))
     = store (snd (call_tool coffee_env (Some u1) (Some cursor)
                     (SearchMemory (py "coffee") 10 (py "{}")) sample_world)).
Proof.
  split; [reflexivity|].
  exact (tools_leave_nothing_pending coffee_env (Some u1) (Some cursor)
           (SearchMemory (py "coffee") 10 (py "{}")) sample_world eq_refl).
Defined.



Lemma resolved_deleting :
  get_user_and_app deleting_env u1 cursor (fresh_session sample_world)
  = (Ok (sample_user, sample_app), sample_world).
Proof. vm_compute. reflexivity. Qed.

Lemma delete_memory_marks_row_witness :
  get_user_and_app deleting_env u1 cursor (fresh_session sample_world)
  = (Ok (sample_user, sample_app), sample_world)
  /\ uuid_parse deleting_env id_a = Some uuid_a
  /\ find_memory (session sample_world) uuid_a = Some sample_memory
  /\ find_memory
       (store (snd (delete_memory deleting_env (Some u1) (Some cursor) id_a
                      sample_world))) uuid_a
     = Some (mark_deleted (now deleting_env) sample_memory).
Proof.
  assert (Hg := resolved_deleting).
  assert (Hp : uuid_parse deleting_env id_a = Some uuid_a)
    by (vm_compute; reflexivity).
  assert (Hm : find_memory (session sample_world) uuid_a = Some sample_memory)
    by (vm_compute; reflexivity).
  split; [exact Hg|]. split; [exact Hp|]. split; [exact Hm|].
  exact (proj1 (proj2 (delete_memory_marks_row deleting_env u1 cursor
                         (always_ok VNone) u1_set cursor_set eq_refl id_a
                         sample_world sample_user sample_app sample_world
                         VNone uuid_a sample_memory Hg eq_refl Hp Hm eq_refl))).
Defined.

Lemma resolved_paused :
  get_user_and_app coffee_env u1 cursor (fresh_session paused_world)
  = (Ok (sample_user, paused_app), paused_world).
Proof. vm_compute. reflexivity. Qed.

Lemma add_memories_paused_app_witness :
  get_user_and_app coffee_env u1 cursor (fresh_session paused_world)
  = (Ok (sample_user, paused_app), paused_world)
  /\ app_is_active paused_app = false
  /\ calls (snd (add_memories coffee_env (Some u1) (Some cursor)
                   (py "My name is Ana") (py "{}") true paused_world))
     = calls paused_world.
Proof.
  assert (Hg := resolved_paused).
  split; [exact Hg|]. split; [reflexivity|].
  exact (proj1 (proj2 (add_memories_paused_app coffee_env u1 cursor finds_two
                         u1_set cursor_set eq_refl (py "My name is Ana")
                         (py "{}") true paused_world sample_user paused_app
                         paused_world Hg eq_refl))).
Defined.

Lemma delete_all_memories_marks_accessible_witness :
  get_user_and_app deleting_env u1 cursor (fresh_session sample_world)
  = (Ok (sample_user, sample_app), sample_world)
  /\ commit_fault deleting_env = None
  /\ fst (delete_all_memories deleting_env (Some u1) (Some cursor) sample_world)
     = Ok (Text (py "Successfully deleted "
                 ++ str_of_nat
                      (length (accessible_ids deleting_env
                                 (session sample_world) sample_user sample_app))
                 ++ py " accessible memories")).
Proof.
  assert (Hg := resolved_deleting).
  split; [exact Hg|]. split; [reflexivity|].
  exact (proj1 (delete_all_memories_marks_accessible deleting_env u1 cursor
                  (always_ok VNone) u1_set cursor_set eq_refl sample_world
                  sample_user sample_app sample_world VNone Hg eq_refl
                  eq_refl)).
Defined.

Lemma named_record_tools_ignore_permissions_witness :
  consults_permissions (GetMemory id_a) = false
  /\ call_tool (with_permissions allow_own_app coffee_env) (Some u1)
       (Some cursor) (GetMemory id_a) sample_world
     = call_tool (with_permissions (fun _ _ _ => false) coffee_env) (Some u1)
         (Some cursor) (GetMemory id_a) sample_world.
Proof.
  split; [reflexivity|].
  exact (named_record_tools_ignore_permissions coffee_env allow_own_app
           (fun _ _ _ => false) (Some u1) (Some cursor) (GetMemory id_a)
           sample_world eq_refl).
Defined.

Lemma get_user_and_app_resolves_witness :
  get_user_and_app coffee_env u1 cursor (fresh_session sample_world)
  = (Ok (sample_user, sample_app), sample_world)
  /\ user_user_id sample_user = u1
  /\ app_name sample_app = cursor
  /\ app_owner_id sample_app = user_pk sample_user.
Proof.
  assert (Hg := resolved_sample).
  split; [exact Hg|].
  destruct (get_user_and_app_resolves coffee_env u1 cursor sample_world
              sample_user sample_app sample_world Hg)
    as (H1 & H2 & H3 & _).
  split; [exact H1|]. split; [exact H2|exact H3].
Defined.

Lemma metadata_absent :
  forall v, dict_get (py "metadata") plain_kwargs = Some v ->
            exists md, v = VDict md.
Proof. intros v H. discriminate H. Qed.

Lemma add_recovers_without_inference_witness :
  recovering [] (add_call (py "My name is Ana") plain_kwargs)
  = Raise parse_failure
  /\ is_json_error (exc_msg parse_failure) = true
  /\ add recovering (py "My name is Ana") plain_kwargs []
     = (Ok (VDict (ensure_structure [(py "results", VList [ana_record])])),
        [] ++ [ add_call (py "My name is Ana") plain_kwargs;
                add_call (py "My name is Ana")
                  (dict_set (py "infer") (VBool false) plain_kwargs) ]).
Proof.
  assert (Hj : is_json_error (exc_msg parse_failure) = true)
    by (vm_compute; reflexivity).
  split; [reflexivity|]. split; [exact Hj|].
  refine (add_recovers_without_inference recovering (py "My name is Ana")
            plain_kwargs [] parse_failure [(py "results", VList [ana_record])]
            eq_refl eq_refl Hj metadata_absent eq_refl _ _).
  - discriminate.
  - intros v H. injection H as <-. eauto.
Defined.

Lemma fallback_calls_keep_arguments_witness :
  (exists sts st,
      fallback_strategies plain_kwargs = Ok sts /\ In st sts
      /\ dict_get (py "user_id")
           (call_kwargs (fallback_call (py "My name is Ana") plain_kwargs st))
         = dict_get (py "user_id") plain_kwargs).
Proof.
  eexists. eexists. split; [reflexivity|]. split; [left; reflexivity|].
  refine (proj1 (proj2 (fallback_calls_keep_arguments (py "My name is Ana")
                          plain_kwargs _ _ eq_refl (or_introl eq_refl)))
            (py "user_id") _ _); discriminate.
Defined.

Lemma add_absorbs_parse_failures_witness :
  always_raise parse_failure [] (add_call (py "My name is Ana") plain_kwargs)
  = Raise parse_failure
  /\ is_Exception parse_failure = true
  /\ is_json_error (exc_msg parse_failure) = true
  /\ exists v tr',
       add (always_raise parse_failure) (py "My name is Ana") plain_kwargs []
       = (Ok v, tr').
Proof.
  assert (Hj : is_json_error (exc_msg parse_failure) = true)
    by (vm_compute; reflexivity).
  split; [reflexivity|]. split; [reflexivity|]. split; [exact Hj|].
  refine (proj1 (add_absorbs_parse_failures (always_raise parse_failure)
                   (py "My name is Ana") plain_kwargs [] parse_failure
                   eq_refl eq_refl Hj metadata_absent _)).
  intros tr c0 e H. injection H as <-. reflexivity.
Defined.



Lemma likes_tea_literal : Forall literal (py "likes tea").
Proof. repeat constructor; discriminate. Qed.

Lemma fix_llm_response_wraps_plain_text_witness :
  strip (py "likes tea") = py "likes tea"
  /\ Json.loads (py "likes tea") = Json.DecodeError
  /\ fix_llm_response (py "likes tea") = Ok fenced_reply.
Proof.
  assert (Hs : strip (py "likes tea") = py "likes tea")
    by (vm_compute; reflexivity).
  assert (Hl : Json.loads (py "likes tea") = Json.DecodeError)
    by (vm_compute; reflexivity).
  split; [exact Hs|]. split; [exact Hl|].
  refine (proj1 (fix_llm_response_wraps_plain_text (py "likes tea") _ Hs
                   likes_tea_literal eq_refl eq_refl eq_refl eq_refl Hl)).
  discriminate.
Defined.

Lemma sample_llm_config_keys : List.NoDup (dict_keys sample_llm_config).
Proof.
  repeat (constructor; [cbn; intuition discriminate|]). constructor.
Qed.

Lemma parse_environment_variables_resolves_witness :
  List.NoDup (dict_keys sample_llm_config)
  /\ env_value sample_environ (py "OPENAI_API_KEY") = Some (py "sk-0123456789")
  /\ exists d',
       _parse_environment_variables sample_environ (VDict sample_llm_config)
       = VDict d'
       /\ dict_get (py "api_key") d' = Some (VStr (py "sk-0123456789")).
Proof.
  assert (He : env_value sample_environ (py "OPENAI_API_KEY")
               = Some (py "sk-0123456789")) by (vm_compute; reflexivity).
  split; [exact sample_llm_config_keys|]. split; [exact He|].
  destruct (parse_environment_variables_resolves sample_environ
              sample_llm_config sample_llm_config_keys)
    as (d' & Hd & _ & Hset & _).
  exists d'. split; [exact Hd|].
  exact (Hset (py "api_key") (py "OPENAI_API_KEY") (py "sk-0123456789")
           eq_refl He).
Defined.

Lemma ensure_config_priority_clears_conflicts_witness :
  exists config' env',
    _ensure_config_priority (VDict sample_config) sample_environ
    = (Ok config', env')
    /\ env_value sample_environ (py "OPENAI_API_BASE")
       = Some (py "http://proxy.local/v1")
    /\ env_value env' (py "OPENAI_API_BASE") = None.
Proof.
  destruct (_ensure_config_priority (VDict sample_config) sample_environ)
    as [[config'|e] env'] eqn:Hrun; [|vm_compute in Hrun; discriminate Hrun].
  exists config', env'. split; [reflexivity|].
  split; [vm_compute; reflexivity|].
  refine (proj2 (ensure_config_priority_clears_conflicts (VDict sample_config)
                   sample_environ config' env' Hrun)
            sample_config _ sample_llm_config _ eq_refl eq_refl eq_refl
            eq_refl eq_refl (py "OPENAI_API_BASE") (or_introl eq_refl)).
Defined.







Lemma stored_config_keys : List.NoDup (dict_keys stored_config).
Proof. repeat constructor. intros []. Qed.

Lemma ensure_config_completeness_lookup_witness :
  List.NoDup (dict_keys stored_config)
  /\ exists complete,
       ensure_config_completeness sample_default_config (VDict stored_config)
       = Ok (VDict complete)
       /\ dict_has (py "openmemory") complete = true.
Proof.
  split; [exact stored_config_keys|].
  destruct (ensure_config_completeness_lookup sample_default_config
              stored_config stored_config_keys)
    as (complete & Hc & _ & _ & Hk).
  exists complete. split; [exact Hc|]. apply Hk. reflexivity.
Defined.

End MoreRuns.
